(** * The observable-to-WebSocket bridge of svg-marbles-websocket

    A shallow embedding of [src/websocket-protocol.ts] (the message types and
    the two type guards) and of [src/websocket-server-bridge.ts] (the class
    [ObservableWebSocketBridge]), followed by the properties of the relay;
    and of the listeners and the API endpoint of the Cloudflare example
    ([examples/cloudflare/src/websocket.tsx]), which drive one bridge.

    The bridge is a stateful object driven by its caller (the transport) and
    by the producers it subscribes to.  Its private fields, the heap objects
    its closures share, the sockets and the clock form one [World]; each
    method is a computation in a small state-and-exception monad over it.

    Three things the bridge calls are not part of the repository and are
    modelled by what they are documented to do: [JSON.parse] by a parser of
    the JSON grammar; a connection by its [readyState] and by whether its
    [send] throws; and an RxJS [Observable] by the notifications it delivers,
    under the rules of RxJS: a closed subscriber is told nothing, an error
    or completion closes it, [unsubscribe] closes it and runs its teardown,
    throwing an UnsubscriptionError when the teardown throws, [subscribe]
    runs at once the teardown a producer returns to a subscriber that is
    closed already, and an exception of an observer's callback is reported
    outside the call. *)

From Stdlib Require Import String Ascii ZArith NArith List Lia.
From stdpp Require Import base list strings pretty.

Local Open Scope string_scope.
Local Open Scope list_scope.

#[local] Set Warnings "-register-all".

(** ** JavaScript values and completions *)

(** The outcome of evaluating JavaScript code: a normal result or a thrown
    exception (named by its constructor). *)
Inductive Completion (A : Type) : Type :=
| Normal (a : A)
| Throw (exn : string).
Arguments Normal {A} a.
Arguments Throw {A} exn.

(** The values [JSON.parse] can return and a producer can emit, plus
    [undefined] (the result of reading a missing property).  Strings are byte
    strings holding the WTF-8 form of the JavaScript string, so that equality
    of model strings is equality of JavaScript strings; a number is kept as
    its literal, the bridge never computes with one. *)
Inductive JsValue : Type :=
| JUndefined
| JNull
| JBool (b : bool)
| JNum (literal : string)
| JStr (s : string)
| JArr (items : list JsValue)
| JObj (props : list (string * JsValue)).

(** [obj[name]] on the own properties of an object literal; the binding
    written last wins, as in [JSON.parse]. *)
Fixpoint own_prop (name : string) (props : list (string * JsValue)) : JsValue :=
  match props with
  | [] => JUndefined
  | (k, v) :: rest =>
      match own_prop name rest with
      | JUndefined => if String.eqb k name then v else JUndefined
      | later => later
      end
  end.

(** [v.name] for the two names the bridge reads, [type] and [streamId]:
    reading a property of [null] or [undefined] throws a TypeError, and
    primitives and arrays have no property of either name. *)
Definition get_prop (name : string) (v : JsValue) : Completion JsValue :=
  match v with
  | JUndefined | JNull => Throw "TypeError"
  | JObj props => Normal (own_prop name props)
  | _ => Normal JUndefined
  end.

(** [v === 'literal'] *)
Definition strict_eq_str (v : JsValue) (literal : string) : bool :=
  match v with
  | JStr s => String.eqb s literal
  | _ => false
  end.

(** ** [JSON.parse]

    The JSON grammar of ECMA-404 over byte strings; a [\u] escape is stored
    by its UTF-8 bytes.  The recursion on nested values is bounded by fuel
    that [JSON_parse] sets from the length of the text: a call uses up at
    most two units for each character it reads. *)
Module Json.

Definition dquote : ascii := "034"%char.
Definition backslash : ascii := "092"%char.

Definition is_ws (c : ascii) : bool :=
  let n := N_of_ascii c in
  (n =? 32)%N || (n =? 9)%N || (n =? 10)%N || (n =? 13)%N.

Definition is_digit (c : ascii) : bool :=
  let n := N_of_ascii c in (48 <=? n)%N && (n <=? 57)%N.

Fixpoint skip_ws (s : string) : string :=
  match s with
  | String c r => if is_ws c then skip_ws r else s
  | EmptyString => s
  end.

Fixpoint take_digits (s : string) : string * string :=
  match s with
  | String c r =>
      if is_digit c
      then let (d, r') := take_digits r in (String c d, r')
      else (EmptyString, s)
  | EmptyString => (EmptyString, EmptyString)
  end.

(** int = "0" | digit1-9 digits *)
Definition lex_int (s : string) : option (string * string) :=
  match s with
  | String c r =>
      if Ascii.eqb c "0" then Some ("0", r)
      else if is_digit c
           then let (d, r') := take_digits r in Some (String c d, r')
           else None
  | EmptyString => None
  end.

(** frac = "." digit+ (optional) *)
Definition lex_frac (s : string) : option (string * string) :=
  match s with
  | String c r =>
      if Ascii.eqb c "."
      then match take_digits r with
           | (EmptyString, _) => None
           | (d, r') => Some (String c d, r')
           end
      else Some ("", s)
  | EmptyString => Some ("", s)
  end.

(** exp = ("e" | "E") ("+" | "-")? digit+ (optional) *)
Definition lex_exp (s : string) : option (string * string) :=
  match s with
  | String c r =>
      if Ascii.eqb c "e" || Ascii.eqb c "E"
      then let (sign, r1) :=
             match r with
             | String c1 r1 =>
                 if Ascii.eqb c1 "+" || Ascii.eqb c1 "-"
                 then (String c1 "", r1) else ("", r)
             | EmptyString => ("", r)
             end in
           match take_digits r1 with
           | (EmptyString, _) => None
           | (d, r2) => Some (String c (sign +:+ d), r2)
           end
      else Some ("", s)
  | EmptyString => Some ("", s)
  end.

Definition lex_number (s : string) : option (string * string) :=
  let (sign, s1) :=
    match s with
    | String c r => if Ascii.eqb c "-" then ("-", r) else ("", s)
    | EmptyString => ("", s)
    end in
  match lex_int s1 with
  | None => None
  | Some (i, s2) =>
      match lex_frac s2 with
      | None => None
      | Some (f, s3) =>
          match lex_exp s3 with
          | None => None
          | Some (e, s4) => Some (sign +:+ i +:+ f +:+ e, s4)
          end
      end
  end.

Definition hex_val (c : ascii) : option N :=
  let n := N_of_ascii c in
  if (48 <=? n)%N && (n <=? 57)%N then Some (n - 48)%N
  else if (65 <=? n)%N && (n <=? 70)%N then Some (n - 55)%N
  else if (97 <=? n)%N && (n <=? 102)%N then Some (n - 87)%N
  else None.

Definition hex4 (a b c d : ascii) : option N :=
  match hex_val a, hex_val b, hex_val c, hex_val d with
  | Some x, Some y, Some z, Some w => Some (((x * 16 + y) * 16 + z) * 16 + w)%N
  | _, _, _, _ => None
  end.

(** One character of a string literal: a byte of the text, or the UTF-16
    code unit of a [\u] escape. *)
Inductive StrChar : Type :=
| Byte (c : ascii)
| Unit16 (u : N).

Definition simple_escape (e : ascii) : option ascii :=
  if Ascii.eqb e dquote then Some dquote
  else if Ascii.eqb e backslash then Some backslash
  else if Ascii.eqb e "/" then Some "/"%char
  else if Ascii.eqb e "b" then Some "008"%char
  else if Ascii.eqb e "f" then Some "012"%char
  else if Ascii.eqb e "n" then Some "010"%char
  else if Ascii.eqb e "r" then Some "013"%char
  else if Ascii.eqb e "t" then Some "009"%char
  else None.

Definition cons_char (x : StrChar) (r : option (list StrChar * string))
  : option (list StrChar * string) :=
  match r with
  | Some (l, rest) => Some (x :: l, rest)
  | None => None
  end.

(** The characters of a string literal, read after its opening quote, and
    the text after its closing quote. *)
Fixpoint lex_chars (s : string) : option (list StrChar * string) :=
  match s with
  | EmptyString => None
  | String c r =>
      if Ascii.eqb c dquote then Some ([], r)
      else if Ascii.eqb c backslash then
        match r with
        | String e r1 =>
            match simple_escape e with
            | Some ch => cons_char (Byte ch) (lex_chars r1)
            | None =>
                if Ascii.eqb e "u" then
                  match r1 with
                  | String h1 (String h2 (String h3 (String h4 r2))) =>
                      match hex4 h1 h2 h3 h4 with
                      | Some u => cons_char (Unit16 u) (lex_chars r2)
                      | None => None
                      end
                  | _ => None
                  end
                else None
            end
        | EmptyString => None
        end
      else if (N_of_ascii c <? 32)%N then None
      else cons_char (Byte c) (lex_chars r)
  end.

Definition byte (n : N) : ascii := ascii_of_N n.

(** UTF-8 bytes of a code point (a lone surrogate is encoded like any other
    three-byte code point). *)
Definition utf8 (cp : N) : list ascii :=
  if (cp <? 128)%N then [byte cp]
  else if (cp <? 2048)%N then
    [byte (192 + cp / 64); byte (128 + cp mod 64)]
  else if (cp <? 65536)%N then
    [byte (224 + cp / 4096); byte (128 + (cp / 64) mod 64);
     byte (128 + cp mod 64)]
  else
    [byte (240 + cp / 262144); byte (128 + (cp / 4096) mod 64);
     byte (128 + (cp / 64) mod 64); byte (128 + cp mod 64)].

Definition is_high (u : N) : bool := (55296 <=? u)%N && (u <=? 56319)%N.
Definition is_low (u : N) : bool := (56320 <=? u)%N && (u <=? 57343)%N.

(** A surrogate that stands in the text itself: the three bytes a lone
    surrogate has in a byte string. *)
Definition raw_surrogate (a b c : ascii) : option N :=
  let x := N_of_ascii a in
  let y := N_of_ascii b in
  let z := N_of_ascii c in
  if (x =? 237)%N && (160 <=? y)%N && (y <=? 191)%N &&
     (128 <=? z)%N && (z <=? 191)%N
  then Some (53248 + (y - 128) * 64 + (z - 128))%N
  else None.

(** The code units of a literal: a surrogate of the text is a code unit like
    one written as an escape, so that the two halves of a pair are joined
    however each is written. *)
Fixpoint units (l : list StrChar) : list StrChar :=
  match l with
  | [] => []
  | Byte a :: r =>
      match r with
      | Byte b :: Byte c :: r' =>
          match raw_surrogate a b c with
          | Some u => Unit16 u :: units r'
          | None => Byte a :: units r
          end
      | _ => Byte a :: units r
      end
  | Unit16 u :: r => Unit16 u :: units r
  end.

(** The bytes of a literal's characters; a surrogate pair is one code
    point. *)
Fixpoint encode (l : list StrChar) : list ascii :=
  match l with
  | [] => []
  | Byte c :: r => c :: encode r
  | Unit16 u :: r =>
      match r with
      | Unit16 v :: r' =>
          if is_high u && is_low v
          then utf8 (65536 + (u - 55296) * 1024 + (v - 56320)) ++ encode r'
          else utf8 u ++ encode r
      | _ => utf8 u ++ encode r
      end
  end.

Definition lex_string (s : string) : option (string * string) :=
  match lex_chars s with
  | Some (l, rest) => Some (string_of_list_ascii (encode (units l)), rest)
  | None => None
  end.

Fixpoint strip_prefix (p s : string) : option string :=
  match p, s with
  | EmptyString, _ => Some s
  | String a p', String b s' => if Ascii.eqb a b then strip_prefix p' s' else None
  | String _ _, EmptyString => None
  end.

Definition lex_atom (s : string) : option (JsValue * string) :=
  match strip_prefix "true" s with
  | Some r => Some (JBool true, r)
  | None =>
  match strip_prefix "false" s with
  | Some r => Some (JBool false, r)
  | None =>
  match strip_prefix "null" s with
  | Some r => Some (JNull, r)
  | None =>
  match lex_number s with
  | Some (n, r) => Some (JNum n, r)
  | None => None
  end end end end.

Fixpoint parse_value (fuel : nat) (s : string) : option (JsValue * string) :=
  match fuel with
  | O => None
  | S fuel' =>
      match skip_ws s with
      | EmptyString => None
      | String c r =>
          if Ascii.eqb c "{" then
            match skip_ws r with
            | String c' r' =>
                if Ascii.eqb c' "}" then Some (JObj [], r')
                else parse_members fuel' r []
            | EmptyString => None
            end
          else if Ascii.eqb c "[" then
            match skip_ws r with
            | String c' r' =>
                if Ascii.eqb c' "]" then Some (JArr [], r')
                else parse_elements fuel' r []
            | EmptyString => None
            end
          else if Ascii.eqb c dquote then
            match lex_string r with
            | Some (str, r') => Some (JStr str, r')
            | None => None
            end
          else lex_atom (String c r)
      end
  end
with parse_elements (fuel : nat) (s : string) (acc : list JsValue)
  : option (JsValue * string) :=
  match fuel with
  | O => None
  | S fuel' =>
      match parse_value fuel' s with
      | None => None
      | Some (v, r) =>
          match skip_ws r with
          | String c r' =>
              if Ascii.eqb c "," then parse_elements fuel' r' (acc ++ [v])
              else if Ascii.eqb c "]" then Some (JArr (acc ++ [v]), r')
              else None
          | EmptyString => None
          end
      end
  end
with parse_members (fuel : nat) (s : string) (acc : list (string * JsValue))
  : option (JsValue * string) :=
  match fuel with
  | O => None
  | S fuel' =>
      match skip_ws s with
      | String c r =>
          if Ascii.eqb c dquote then
            match lex_string r with
            | None => None
            | Some (k, r1) =>
                match skip_ws r1 with
                | String c1 r2 =>
                    if Ascii.eqb c1 ":" then
                      match parse_value fuel' r2 with
                      | None => None
                      | Some (v, r3) =>
                          match skip_ws r3 with
                          | String c3 r4 =>
                              if Ascii.eqb c3 ","
                              then parse_members fuel' r4 (acc ++ [(k, v)])
                              else if Ascii.eqb c3 "}"
                                   then Some (JObj (acc ++ [(k, v)]), r4)
                                   else None
                          | EmptyString => None
                          end
                      end
                    else None
                | EmptyString => None
                end
            end
          else None
      | EmptyString => None
      end
  end.

End Json.

(** [JSON.parse(text)]: the value of the text, or a SyntaxError. *)
Definition JSON_parse (text : string) : Completion JsValue :=
  match Json.parse_value (2 * String.length text + 2) text with
  | Some (v, rest) =>
      match Json.skip_ws rest with
      | EmptyString => Normal v
      | String _ _ => Throw "SyntaxError"
      end
  | None => Throw "SyntaxError"
  end.

(** JSON text is written with [q] for the double quote. *)
Definition q (s : string) : string :=
  String Json.dquote (s +:+ String Json.dquote "").

Definition subscribe_text (streamId : string) : string :=
  "{" +:+ q "type" +:+ ":" +:+ q "subscribe" +:+ "," +:+
  q "streamId" +:+ ":" +:+ q streamId +:+ "," +:+ q "timestamp" +:+ ":0}".

Definition unsubscribe_text (streamId : string) : string :=
  "{" +:+ q "type" +:+ ":" +:+ q "unsubscribe" +:+ "," +:+
  q "streamId" +:+ ":" +:+ q streamId +:+ "," +:+ q "timestamp" +:+ ":0}".

(** ** The wire protocol ([websocket-protocol.ts]) *)

Inductive MessageType : Type :=
| MT_subscribe
| MT_unsubscribe
| MT_next
| MT_error
| MT_complete
| MT_stream_info
| MT_streams_list.

(** The string literal of each member of the union [MessageType]. *)
Definition type_name (t : MessageType) : string :=
  match t with
  | MT_subscribe => "subscribe"
  | MT_unsubscribe => "unsubscribe"
  | MT_next => "next"
  | MT_error => "error"
  | MT_complete => "complete"
  | MT_stream_info => "stream-info"
  | MT_streams_list => "streams-list"
  end.

(** An element of [StreamsListMessage.streams]. *)
Record StreamEntry : Type := {
  entry_streamId : string;
  entry_name : string;
  entry_description : option string;
  entry_active : bool
}.

(** The message objects of the protocol, one constructor per interface. *)
Inductive WebSocketMessage : Type :=
| SubscribeMessage (streamId : string) (timestamp : Z)
| UnsubscribeMessage (streamId : string) (timestamp : Z)
| NextMessage (streamId : string) (value : JsValue) (timestamp : Z)
| ErrorMessage (streamId : string) (error : string) (timestamp : Z)
| CompleteMessage (streamId : string) (timestamp : Z)
| StreamInfoMessage (streamId : string) (name : string)
    (description : option string) (timestamp : Z)
| StreamsListMessage (timestamp : Z) (streams : list StreamEntry).

Definition message_type (m : WebSocketMessage) : MessageType :=
  match m with
  | SubscribeMessage _ _ => MT_subscribe
  | UnsubscribeMessage _ _ => MT_unsubscribe
  | NextMessage _ _ _ => MT_next
  | ErrorMessage _ _ _ => MT_error
  | CompleteMessage _ _ => MT_complete
  | StreamInfoMessage _ _ _ _ => MT_stream_info
  | StreamsListMessage _ _ => MT_streams_list
  end.

(** The [streamId] field; the catalog message has none. *)
Definition message_streamId (m : WebSocketMessage) : option string :=
  match m with
  | SubscribeMessage s _ | UnsubscribeMessage s _ | NextMessage s _ _
  | ErrorMessage s _ _ | CompleteMessage s _ | StreamInfoMessage s _ _ _ =>
      Some s
  | StreamsListMessage _ _ => None
  end.

(** The type guards run on whatever value the caller holds (in the bridge,
    the result of [JSON.parse]); the types of TypeScript are erased. *)
Definition isClientMessage (msg : JsValue) : Completion bool :=
  match get_prop "type" msg with
  | Normal ty =>
      Normal (strict_eq_str ty "subscribe" || strict_eq_str ty "unsubscribe")
  | Throw e => Throw e
  end.

Definition isServerMessage (msg : JsValue) : Completion bool :=
  match isClientMessage msg with
  | Normal b => Normal (negb b)
  | Throw e => Throw e
  end.

(** ** JavaScript [Map] and [Set]: finite, iterated in insertion order *)

Module JsMap.
Section ops.
Context {K V : Type} `{EqDecision K}.

Fixpoint get (k : K) (m : list (K * V)) : option V :=
  match m with
  | [] => None
  | (k', v) :: r => if decide (k' = k) then Some v else get k r
  end.

Definition has (k : K) (m : list (K * V)) : bool :=
  match get k m with Some _ => true | None => false end.

(** [m.set(k, v)]: an existing key keeps its position. *)
Fixpoint set (k : K) (v : V) (m : list (K * V)) : list (K * V) :=
  match m with
  | [] => [(k, v)]
  | (k', v') :: r =>
      if decide (k' = k) then (k, v) :: r else (k', v') :: set k v r
  end.

Fixpoint delete (k : K) (m : list (K * V)) : list (K * V) :=
  match m with
  | [] => []
  | (k', v') :: r =>
      if decide (k' = k) then delete k r else (k', v') :: delete k r
  end.

Definition size (m : list (K * V)) : nat := length m.
Definition keys (m : list (K * V)) : list K := map fst m.
Definition values (m : list (K * V)) : list V := map snd m.
End ops.
End JsMap.

Module JsSet.
Section ops.
Context {A : Type} `{EqDecision A}.

Definition has (x : A) (s : list A) : bool := bool_decide (x ∈ s).

Definition add (x : A) (s : list A) : list A :=
  if has x s then s else s ++ [x].

Fixpoint delete (x : A) (s : list A) : list A :=
  match s with
  | [] => []
  | y :: r => if decide (y = x) then delete x r else y :: delete x r
  end.

Definition size (s : list A) : nat := length s.
End ops.
End JsSet.

(** ** Producers, sockets and the state of the world *)

(** Objects are known by reference: a connection, a [Subscription] and an
    inner [Map] of the subscription matrix are each named by a number. *)
Abbreviation WebSocketConnection := nat (only parsing).
Abbreviation SubscriptionRef := nat (only parsing).
Abbreviation MapRef := nat (only parsing).

(** What a producer tells an observer.  An error value is known by what
    its [toString()] does: return a string, or (for [null], [undefined] and
    objects without the method) throw a TypeError, written [None]. *)
Inductive Notification : Type :=
| OnNext (value : JsValue)
| OnError (err : option string)
| OnComplete.

(** An [Observable] of RxJS, as far as the bridge can tell: the
    notifications it delivers inside a call of [subscribe]; whether the
    teardown of the subscription (what the producer registers to be run when
    the subscription ends) throws when [unsubscribe] runs it; and whether
    the teardown that the producer returns throws when [subscribe] itself
    runs it, which RxJS does at once when the subscriber is closed by the
    time the producer returns.  All three may differ from one call to the
    next and so are given for each subscription made.  What the producer
    delivers later arrives as an action of the environment. *)
Record Observable : Type := {
  on_subscribe : SubscriptionRef -> list Notification;
  teardown_throws : SubscriptionRef -> bool;
  subscribe_throws : SubscriptionRef -> bool
}.

Record StreamConfig : Type := {
  streamId : string;
  name : string;
  description : option string;
  observable : Observable
}.

(** The two members of [WebSocketConnection] the bridge uses: the field
    [readyState] and whether [send] throws. *)
Record Socket : Type := {
  readyState : Z;
  send_throws : bool
}.

(** A [Subscription] returned by [observable.subscribe(observer)]: whether
    it is closed (unsubscribed, or stopped by a terminal notification), the
    variables its observer closes over in [handleSubscribe], and whether
    its teardown throws. *)
Record Subscription : Type := {
  closed : bool;
  obs_ws : WebSocketConnection;
  obs_streamId : string;
  obs_streamSubs : MapRef;
  throwing_teardown : bool
}.

Record World : Type := {
  (* the private fields of ObservableWebSocketBridge *)
  streams : list (string * StreamConfig);
  subscriptions : list (string * MapRef);
  connections : list WebSocketConnection;
  (* the heap: the inner maps and the subscriptions, by reference *)
  maps : list (list (WebSocketConnection * SubscriptionRef));
  subs : list Subscription;
  (* the environment *)
  sockets : WebSocketConnection -> Socket;
  clock : Z;
  (* every message handed to [ws.send] that did not throw, oldest first *)
  wire : list (WebSocketConnection * WebSocketMessage)
}.

Definition with_streams (v : list (string * StreamConfig)) (w : World) : World :=
  {| streams := v; subscriptions := subscriptions w;
     connections := connections w; maps := maps w; subs := subs w;
     sockets := sockets w; clock := clock w; wire := wire w |}.

Definition with_subscriptions (v : list (string * MapRef)) (w : World) : World :=
  {| streams := streams w; subscriptions := v;
     connections := connections w; maps := maps w; subs := subs w;
     sockets := sockets w; clock := clock w; wire := wire w |}.

Definition with_connections (v : list WebSocketConnection) (w : World) : World :=
  {| streams := streams w; subscriptions := subscriptions w;
     connections := v; maps := maps w; subs := subs w;
     sockets := sockets w; clock := clock w; wire := wire w |}.

Definition with_maps (v : list (list (WebSocketConnection * SubscriptionRef)))
  (w : World) : World :=
  {| streams := streams w; subscriptions := subscriptions w;
     connections := connections w; maps := v; subs := subs w;
     sockets := sockets w; clock := clock w; wire := wire w |}.

Definition with_subs (v : list Subscription) (w : World) : World :=
  {| streams := streams w; subscriptions := subscriptions w;
     connections := connections w; maps := maps w; subs := v;
     sockets := sockets w; clock := clock w; wire := wire w |}.

Definition with_sockets (v : WebSocketConnection -> Socket) (w : World) : World :=
  {| streams := streams w; subscriptions := subscriptions w;
     connections := connections w; maps := maps w; subs := subs w;
     sockets := v; clock := clock w; wire := wire w |}.

Definition with_clock (v : Z) (w : World) : World :=
  {| streams := streams w; subscriptions := subscriptions w;
     connections := connections w; maps := maps w; subs := subs w;
     sockets := sockets w; clock := v; wire := wire w |}.

Definition with_wire (v : list (WebSocketConnection * WebSocketMessage))
  (w : World) : World :=
  {| streams := streams w; subscriptions := subscriptions w;
     connections := connections w; maps := maps w; subs := subs w;
     sockets := sockets w; clock := clock w; wire := v |}.

(** ** The monad of methods: state, and exceptions that keep the state *)

Definition M (A : Type) : Type := World -> Completion A * World.

#[global] Instance M_ret : MRet M := fun A a w => (Normal a, w).

#[global] Instance M_bind : MBind M := fun A B f m w =>
  match m w with
  | (Normal a, w') => f a w'
  | (Throw e, w') => (Throw e, w')
  end.

Definition get_world : M World := fun w => (Normal w, w).
Definition modify (f : World -> World) : M unit := fun w => (Normal tt, f w).
Definition lift {A : Type} (c : Completion A) : M A := fun w => (c, w).

(** [try { body } catch (error) { handler }] *)
Definition try_catch {A : Type} (body : M A) (handler : string -> M A) : M A :=
  fun w =>
    match body w with
    | (Normal a, w') => (Normal a, w')
    | (Throw e, w') => handler e w'
    end.

(** [l.forEach(f)] *)
Fixpoint forEach {A : Type} (l : list A) (f : A -> M unit) : M unit :=
  match l with
  | [] => mret tt
  | x :: r => f x;; forEach r f
  end.

(** The state a computation leaves, and its completion. *)
Definition exec {A : Type} (m : M A) (w : World) : World := snd (m w).
Definition result {A : Type} (m : M A) (w : World) : Completion A := fst (m w).

(** Logging has no effect on the bridge or the wire. *)
Definition console_warn : M unit := mret tt.
Definition console_error : M unit := mret tt.

Definition Date_now : M Z := w ← get_world; mret (clock w).

(** The inner map a reference denotes. *)
Definition deref (r : MapRef) (w : World)
  : list (WebSocketConnection * SubscriptionRef) :=
  default [] (maps w !! r).

(** [new Map()] *)
Definition new_Map : M MapRef :=
  w ← get_world;
  modify (with_maps (maps w ++ [[]]));;
  mret (length (maps w)).

(** [streamSubs.set(ws, sub)] and [streamSubs.delete(ws)] on the map object
    [streamSubs] refers to. *)
Definition Map_set (streamSubs : MapRef) (ws : WebSocketConnection)
  (sub : SubscriptionRef) : M unit :=
  modify (fun w => with_maps (alter (JsMap.set ws sub) streamSubs (maps w)) w).

Definition Map_delete (streamSubs : MapRef) (ws : WebSocketConnection) : M unit :=
  modify (fun w => with_maps (alter (JsMap.delete ws) streamSubs (maps w)) w).

(** [ws.send(JSON.stringify(message))]: throws, or puts the frame on the
    wire.  The wire keeps the message the frame serialises.  A message that
    cannot be serialised makes [JSON.stringify] throw inside the same [try],
    which is one more way for this call to throw. *)
Definition ws_send (ws : WebSocketConnection) (message : WebSocketMessage) : M unit :=
  fun w =>
    if send_throws (sockets w ws) then (Throw "Error", w)
    else (Normal tt, with_wire (wire w ++ [(ws, message)]) w).

(** ** The bridge ([websocket-server-bridge.ts]) *)

Definition sendMessage (ws : WebSocketConnection) (message : WebSocketMessage)
  : M unit :=
  w ← get_world;
  if (readyState (sockets w ws) =? 1)%Z   (* OPEN *)
  then try_catch (ws_send ws message) (fun error => console_error)
  else mret tt.

Definition streams_entries (m : list (string * StreamConfig)) : list StreamEntry :=
  map (fun '(streamId, config) =>
         {| entry_streamId := streamId;
            entry_name := name config;
            entry_description := description config;
            entry_active := true |}) m.

Definition sendStreamsList (ws : WebSocketConnection) : M unit :=
  w ← get_world;
  let streams := streams_entries (streams w) in
  now ← Date_now;
  sendMessage ws (StreamsListMessage now streams).

Definition broadcastStreamsList : M unit :=
  w ← get_world;
  forEach (connections w) (fun ws => sendStreamsList ws).

(** The three callbacks of the observer that [handleSubscribe] passes to
    [observable.subscribe]; [ws], [streamId] and [streamSubs] are the
    variables of [handleSubscribe] they close over. *)
Definition on_next (ws : WebSocketConnection) (streamId : string)
  (value : JsValue) : M unit :=
  now ← Date_now;
  sendMessage ws (NextMessage streamId value now).

(** [error.toString()] *)
Definition toString (error : option string) : Completion string :=
  match error with
  | Some text => Normal text
  | None => Throw "TypeError"
  end.

Definition on_error (ws : WebSocketConnection) (streamId : string)
  (streamSubs : MapRef) (error : option string) : M unit :=
  text ← lift (toString error);
  now ← Date_now;
  sendMessage ws (ErrorMessage streamId text now);;
  (* Clean up subscription *)
  Map_delete streamSubs ws.

Definition on_complete (ws : WebSocketConnection) (streamId : string)
  (streamSubs : MapRef) : M unit :=
  now ← Date_now;
  sendMessage ws (CompleteMessage streamId now);;
  (* Clean up subscription *)
  Map_delete streamSubs ws.

(** A closed subscription: its observer is detached. *)
Definition close (s : Subscription) : Subscription :=
  {| closed := true; obs_ws := obs_ws s; obs_streamId := obs_streamId s;
     obs_streamSubs := obs_streamSubs s;
     throwing_teardown := throwing_teardown s |}.

(** [subscription.unsubscribe()]: nothing on a closed subscription;
    otherwise the subscription is closed and its teardown runs, and when
    the teardown throws [unsubscribe] throws an UnsubscriptionError. *)
Definition Subscription_unsubscribe (s : SubscriptionRef) : M unit :=
  w ← get_world;
  match subs w !! s with
  | None => mret tt
  | Some sub =>
      if closed sub then mret tt
      else
        modify (fun w => with_subs (alter close s (subs w)) w);;
        if throwing_teardown sub then lift (Throw "UnsubscriptionError")
        else mret tt
  end.

(** What a terminal notification does to the subscriber it reaches: the
    subscriber is stopped and closed.  RxJS runs the teardown after the
    callback, and what the teardown throws then goes to the producer that
    delivered the notification. *)
Definition Subscriber_stop (s : SubscriptionRef) : M unit :=
  modify (fun w => with_subs (alter close s (subs w)) w).

(** What RxJS does with an exception of an observer's callback: it reports
    the exception later, from a timer, outside every call of the bridge. *)
Definition reportUnhandledError (exn : string) : M unit := mret tt.

(** A producer notifies the subscriber behind subscription [s].  RxJS
    delivers nothing to a closed subscriber, a terminal notification stops
    the subscriber before its callback runs, and an exception of a callback
    does not reach the producer. *)
Definition Subscriber_notify (s : SubscriptionRef) (n : Notification) : M unit :=
  w ← get_world;
  match subs w !! s with
  | None => mret tt
  | Some sub =>
      if closed sub then mret tt
      else match n with
           | OnNext value =>
               try_catch (on_next (obs_ws sub) (obs_streamId sub) value)
                 reportUnhandledError
           | OnError err =>
               Subscriber_stop s;;
               try_catch
                 (on_error (obs_ws sub) (obs_streamId sub) (obs_streamSubs sub)
                    err)
                 reportUnhandledError
           | OnComplete =>
               Subscriber_stop s;;
               try_catch
                 (on_complete (obs_ws sub) (obs_streamId sub)
                    (obs_streamSubs sub))
                 reportUnhandledError
           end
  end.

(** [observable.subscribe({next, error, complete})] with the observer of
    [handleSubscribe]: a new subscription, to which the producer delivers
    its synchronous notifications before [subscribe] returns.  When one of
    them was terminal the subscriber is closed by then, and [subscribe] runs
    the teardown that the producer returns at once, outside any [try]: what
    that teardown throws, [subscribe] throws. *)
Definition Observable_subscribe (o : Observable) (ws : WebSocketConnection)
  (streamId : string) (streamSubs : MapRef) : M SubscriptionRef :=
  w ← get_world;
  let s := length (subs w) in
  modify (with_subs (subs w ++
            [{| closed := false; obs_ws := ws; obs_streamId := streamId;
                obs_streamSubs := streamSubs;
                throwing_teardown := teardown_throws o s |}]));;
  forEach (on_subscribe o s) (Subscriber_notify s);;
  w' ← get_world;
  match subs w' !! s with
  | Some sub =>
      if closed sub && subscribe_throws o s then lift (Throw "Error")
      else mret s
  | None => mret s
  end.

Definition handleSubscribe (ws : WebSocketConnection) (streamId : string)
  : M unit :=
  w ← get_world;
  match JsMap.get streamId (streams w) with
  | None => console_warn
  | Some streamConfig =>
      match JsMap.get streamId (subscriptions w) with
      | None => console_warn
      | Some streamSubs =>
          (* Check if already subscribed *)
          if JsMap.has ws (deref streamSubs w) then console_warn
          else
            (* Send stream info *)
            now ← Date_now;
            sendMessage ws (StreamInfoMessage streamId (name streamConfig)
                              (description streamConfig) now);;
            (* Subscribe to the observable *)
            subscription ←
              Observable_subscribe (observable streamConfig) ws streamId
                streamSubs;
            Map_set streamSubs ws subscription
      end
  end.

Definition handleUnsubscribe (ws : WebSocketConnection) (streamId : string)
  : M unit :=
  w ← get_world;
  match JsMap.get streamId (subscriptions w) with
  | None => mret tt
  | Some streamSubs =>
      match JsMap.get ws (deref streamSubs w) with
      | Some sub =>
          Subscription_unsubscribe sub;;
          Map_delete streamSubs ws
      | None => mret tt
      end
  end.

(** [message.streamId] is a string in a message of the protocol.  Any other
    value is the key of no entry of [streams] or [subscriptions] (their keys
    are strings), so each handler would return at its first lookup. *)
Definition with_streamId (message : JsValue) (handler : string -> M unit)
  : M unit :=
  streamId ← lift (get_prop "streamId" message);
  match streamId with
  | JStr s => handler s
  | _ => mret tt
  end.

Definition handleClientMessage (ws : WebSocketConnection) (message : JsValue)
  : M unit :=
  ty ← lift (get_prop "type" message);
  if strict_eq_str ty "subscribe"
  then with_streamId message (handleSubscribe ws)
  else if strict_eq_str ty "unsubscribe"
       then with_streamId message (handleUnsubscribe ws)
       else mret tt.

Definition handleMessage (ws : WebSocketConnection) (message : string) : M unit :=
  try_catch
    (parsed ← lift (JSON_parse message);
     is_client ← lift (isClientMessage parsed);
     if negb is_client then console_warn
     else handleClientMessage ws parsed)
    (fun error => console_error).

Definition registerStream (config : StreamConfig) : M unit :=
  modify (fun w =>
    with_streams (JsMap.set (streamId config) config (streams w)) w);;
  fresh ← new_Map;
  modify (fun w =>
    with_subscriptions (JsMap.set (streamId config) fresh (subscriptions w)) w);;
  (* Notify all connected clients about the new stream *)
  broadcastStreamsList.

Definition unregisterStream (streamId : string) : M unit :=
  w ← get_world;
  match JsMap.get streamId (subscriptions w) with
  | Some streamSubs =>
      (* Unsubscribe all clients from this stream *)
      forEach (JsMap.values (deref streamSubs w))
        (fun sub => Subscription_unsubscribe sub);;
      modify (fun w =>
        with_subscriptions (JsMap.delete streamId (subscriptions w)) w)
  | None => mret tt
  end;;
  modify (fun w => with_streams (JsMap.delete streamId (streams w)) w);;
  broadcastStreamsList.

Definition handleConnection (ws : WebSocketConnection) : M unit :=
  modify (fun w => with_connections (JsSet.add ws (connections w)) w);;
  (* Send initial streams list *)
  sendStreamsList ws.

Definition handleDisconnection (ws : WebSocketConnection) : M unit :=
  modify (fun w => with_connections (JsSet.delete ws (connections w)) w);;
  (* Clean up all subscriptions for this connection *)
  w ← get_world;
  forEach (subscriptions w) (fun '(streamId, streamSubs) =>
    w' ← get_world;
    match JsMap.get ws (deref streamSubs w') with
    | Some sub =>
        Subscription_unsubscribe sub;;
        Map_delete streamSubs ws
    | None => mret tt
    end).

Definition getStreams : M (list (string * StreamConfig)) :=
  w ← get_world; mret (streams w).

Definition getSubscriptionCount (streamId : string) : M nat :=
  w ← get_world;
  match JsMap.get streamId (subscriptions w) with
  | Some streamSubs => mret (JsMap.size (deref streamSubs w))
  | None => mret 0
  end.

Definition getConnectionCount : M nat :=
  w ← get_world; mret (JsSet.size (connections w)).

(** ** Runs of the relay *)

(** What can happen to a bridge: a call of a public method by the
    transport or the application, a notification from a producer to one of
    its subscribers, or a change of a socket or of the clock. *)
Inductive Action : Type :=
| RegisterStream (config : StreamConfig)
| UnregisterStream (streamId : string)
| HandleConnection (ws : WebSocketConnection)
| HandleDisconnection (ws : WebSocketConnection)
| HandleMessage (ws : WebSocketConnection) (message : string)
| ProducerNotifies (s : SubscriptionRef) (n : Notification)
| SocketBecomes (ws : WebSocketConnection) (socket : Socket)
| ClockBecomes (t : Z).

Definition perform (a : Action) : M unit :=
  match a with
  | RegisterStream config => registerStream config
  | UnregisterStream streamId => unregisterStream streamId
  | HandleConnection ws => handleConnection ws
  | HandleDisconnection ws => handleDisconnection ws
  | HandleMessage ws message => handleMessage ws message
  | ProducerNotifies s n => Subscriber_notify s n
  | SocketBecomes ws socket =>
      modify (fun w =>
        with_sockets (fun c => if decide (c = ws) then socket else sockets w c) w)
  | ClockBecomes t => modify (with_clock t)
  end.

Fixpoint run (trace : list Action) (w : World) : World :=
  match trace with
  | [] => w
  | a :: rest => run rest (exec (perform a) w)
  end.

(** [new ObservableWebSocketBridge()], with every socket open. *)
Definition open_socket : Socket := {| readyState := 1; send_throws := false |}.

Definition new_bridge : World :=
  {| streams := []; subscriptions := []; connections := [];
     maps := []; subs := [];
     sockets := fun _ => open_socket; clock := 0; wire := [] |}.

Definition reachable (w : World) : Prop :=
  exists trace, w = run trace new_bridge.

(** ** Observations *)

(** The subscriptions of connection [ws] to stream [streamId] that are live:
    producer attachments whose observer is still attached. *)
Definition is_live_for (streamId : string) (ws : WebSocketConnection)
  (s : Subscription) : bool :=
  negb (closed s) && String.eqb (obs_streamId s) streamId &&
  Nat.eqb (obs_ws s) ws.

Definition live_count (streamId : string) (ws : WebSocketConnection)
  (w : World) : nat :=
  length (filter (fun s => is_live_for streamId ws s = true) (subs w)).

(** The messages sent to [ws], oldest first. *)
Definition sent_to (ws : WebSocketConnection) (w : World)
  : list WebSocketMessage :=
  map snd (filter (fun f => fst f = ws) (wire w)).

(** The number returned by [getSubscriptionCount(streamId)]. *)
Definition subscription_count (streamId : string) (w : World) : Completion nat :=
  result (getSubscriptionCount streamId) w.

(** A subscription is closed, or was never made. *)
Definition is_closed (s : SubscriptionRef) (w : World) : bool :=
  match subs w !! s with
  | Some sub => closed sub
  | None => true
  end.

(** A socket [sendMessage] gets a frame through: open, and [send] returns. *)
Definition sendable (s : Socket) : bool :=
  (readyState s =? 1)%Z && negb (send_throws s).

(** What [sendMessage(ws, m)] adds to the wire. *)
Definition emit (ws : WebSocketConnection) (m : WebSocketMessage) (w : World)
  : list (WebSocketConnection * WebSocketMessage) :=
  if sendable (sockets w ws) then [(ws, m)] else [].

(** The catalog message of a state, and what broadcasting it to the
    connections [l] adds to the wire. *)
Definition streams_list (w : World) : WebSocketMessage :=
  StreamsListMessage (clock w) (streams_entries (streams w)).

Definition broadcast_to (l : list WebSocketConnection) (w : World)
  : list (WebSocketConnection * WebSocketMessage) :=
  flat_map (fun ws => emit ws (streams_list w) w) l.

(** The frame the observer of [handleSubscribe] builds for a notification;
    none for an error whose [toString()] throws. *)
Definition frame_of (streamId : string) (now : Z) (n : Notification)
  : option WebSocketMessage :=
  match n with
  | OnNext value => Some (NextMessage streamId value now)
  | OnError (Some text) => Some (ErrorMessage streamId text now)
  | OnError None => None
  | OnComplete => Some (CompleteMessage streamId now)
  end.

(** What the observer of [handleSubscribe] adds to the wire for [n]. *)
Definition emitted (ws : WebSocketConnection) (streamId : string)
  (n : Notification) (w : World)
  : list (WebSocketConnection * WebSocketMessage) :=
  match frame_of streamId (clock w) n with
  | Some frame => emit ws frame w
  | None => []
  end.

Definition is_terminal (n : Notification) : bool :=
  match n with
  | OnNext _ => false
  | OnError _ | OnComplete => true
  end.

(** The notifications that reach an observer: all up to the first terminal
    one, which stops the subscriber. *)
Fixpoint delivered (ns : list Notification) : list Notification :=
  match ns with
  | [] => []
  | n :: rest => if is_terminal n then [n] else n :: delivered rest
  end.

(** ** The state each method leaves *)

(** Whether [unsubscribe()] throws on subscription [s]: the subscription is
    open and its teardown throws. *)
Definition unsubscribe_throws (s : SubscriptionRef) (w : World) : bool :=
  match subs w !! s with
  | Some sub => negb (closed sub) && throwing_teardown sub
  | None => false
  end.

(** How a method completes whose calls of [unsubscribe()] are outside
    every [try]. *)
Definition unsubscription (throws : bool) : Completion unit :=
  if throws then Throw "UnsubscriptionError" else Normal tt.

Definition close_all (l : list SubscriptionRef) (ss : list Subscription)
  : list Subscription :=
  foldl (fun acc s => alter close s acc) ss l.

(** [l.forEach(sub => sub.unsubscribe())] calls [unsubscribe] on the
    elements of [l] in order, up to the first call that throws. *)
Fixpoint unsubscribe_calls (l : list SubscriptionRef) (w : World)
  : list SubscriptionRef :=
  match l with
  | [] => []
  | s :: rest =>
      if unsubscribe_throws s w then [s] else s :: unsubscribe_calls rest w
  end.

Definition unregister_throws (streamId : string) (w : World) : bool :=
  match JsMap.get streamId (subscriptions w) with
  | Some streamSubs =>
      existsb (fun s => unsubscribe_throws s w) (JsMap.values (deref streamSubs w))
  | None => false
  end.

Definition registered (config : StreamConfig) (w : World) : World :=
  let w1 :=
    with_subscriptions
      (JsMap.set (streamId config) (length (maps w)) (subscriptions w))
      (with_maps (maps w ++ [[]])
         (with_streams (JsMap.set (streamId config) config (streams w)) w)) in
  with_wire (wire w ++ broadcast_to (connections w) w1) w1.

(** When an [unsubscribe()] throws, [unregisterStream] ends there: the
    stream stays registered and nothing is broadcast. *)
Definition unregistered (streamId : string) (w : World) : World :=
  let closed_subs :=
    match JsMap.get streamId (subscriptions w) with
    | Some streamSubs =>
        close_all (unsubscribe_calls (JsMap.values (deref streamSubs w)) w)
          (subs w)
    | None => subs w
    end in
  if unregister_throws streamId w then with_subs closed_subs w
  else
    let w1 :=
      with_streams (JsMap.delete streamId (streams w))
        (with_subscriptions (JsMap.delete streamId (subscriptions w))
           (with_subs closed_subs w)) in
    with_wire (wire w ++ broadcast_to (connections w) w1) w1.

(** A notification delivered to the open subscription [s]. *)
Definition notified (s : SubscriptionRef) (sub : Subscription)
  (n : Notification) (w : World) : World :=
  let sent :=
    with_wire (wire w ++ emitted (obs_ws sub) (obs_streamId sub) n w) in
  match n with
  | OnNext _ => sent w
  | OnError None => with_subs (alter close s (subs w)) w
  | OnError (Some _) | OnComplete =>
      with_maps (alter (JsMap.delete (obs_ws sub)) (obs_streamSubs sub) (maps w))
        (sent (with_subs (alter close s (subs w)) w))
  end.

(** One round of the loop of [handleDisconnection] (the body of
    [handleUnsubscribe] is the same): whether its [unsubscribe()] throws,
    and the state it leaves; a round that throws has closed the
    subscription and not removed the entry. *)
Definition drop_throws (ws : WebSocketConnection) (streamSubs : MapRef)
  (w : World) : bool :=
  match JsMap.get ws (deref streamSubs w) with
  | Some sub => unsubscribe_throws sub w
  | None => false
  end.

Definition dropped (ws : WebSocketConnection) (streamSubs : MapRef) (w : World)
  : World :=
  match JsMap.get ws (deref streamSubs w) with
  | Some sub =>
      if unsubscribe_throws sub w
      then with_subs (alter close sub (subs w)) w
      else
        with_maps (alter (JsMap.delete ws) streamSubs (maps w))
          (with_subs (alter close sub (subs w)) w)
  | None => w
  end.

(** The whole loop: it ends at the first round that throws. *)
Fixpoint drop_all_throws (ws : WebSocketConnection) (l : list (string * MapRef))
  (w : World) : bool :=
  match l with
  | [] => false
  | entry :: rest =>
      if drop_throws ws (snd entry) w then true
      else drop_all_throws ws rest (dropped ws (snd entry) w)
  end.

Fixpoint dropped_all (ws : WebSocketConnection) (l : list (string * MapRef))
  (w : World) : World :=
  match l with
  | [] => w
  | entry :: rest =>
      if drop_throws ws (snd entry) w then dropped ws (snd entry) w
      else dropped_all ws rest (dropped ws (snd entry) w)
  end.

(** ** Properties of computations *)

Definition never_throws {A : Type} (m : M A) : Prop :=
  forall w, exists a, result m w = Normal a.

(** [m] takes every state to one related to it by [R]. *)
Definition keeps (R : World -> World -> Prop) {A : Type} (m : M A) : Prop :=
  forall w, R w (exec m w).

Definition same_registry (w w' : World) : Prop :=
  streams w' = streams w /\ subscriptions w' = subscriptions w.

(** The wire only grows. *)
Definition grows (w w' : World) : Prop :=
  exists l, wire w' = wire w ++ l.

(** The sockets are as they were, and every frame added to the wire went to
    a connection that was open and whose [send] returned. *)
Definition sent_while_open (w w' : World) : Prop :=
  sockets w' = sockets w /\
  exists l, wire w' = wire w ++ l /\
            forall f, f ∈ l -> sendable (sockets w (fst f)) = true.

(** The stream catalog and the subscription matrix have the same keys, in
    the same order. *)
Definition registry_ok (w : World) : Prop :=
  JsMap.keys (streams w) = JsMap.keys (subscriptions w).

(** ** Consistent states *)

(** Every live subscription is recorded: the matrix entry of its stream is
    the map its observer closed over, and that map holds the subscription
    for its connection. *)
Definition tracked (w : World) : Prop :=
  forall s sub,
    subs w !! s = Some sub -> closed sub = false ->
    JsMap.get (obs_streamId sub) (subscriptions w) = Some (obs_streamSubs sub) /\
    JsMap.get (obs_ws sub) (deref (obs_streamSubs sub) w) = Some s.

(** The outer map of the matrix refers to maps that exist. *)
Definition refs_valid (w : World) : Prop :=
  forall streamId streamSubs,
    JsMap.get streamId (subscriptions w) = Some streamSubs ->
    streamSubs < length (maps w).

(** What holds of every state reached without registering a registered id
    again. *)
Definition consistent (w : World) : Prop :=
  registry_ok w /\ tracked w /\ refs_valid w.

(** An action registers no stream whose id is registered already; a run
    takes no such action. *)
Definition fresh_registration (a : Action) (w : World) : Prop :=
  match a with
  | RegisterStream config => JsMap.get (streamId config) (streams w) = None
  | _ => True
  end.

Fixpoint registers_fresh (trace : list Action) (w : World) : Prop :=
  match trace with
  | [] => True
  | a :: rest =>
      fresh_registration a w /\ registers_fresh rest (exec (perform a) w)
  end.

(** The outer map of the matrix and the number of inner maps are as they
    were. *)
Definition same_shape (w w' : World) : Prop :=
  subscriptions w' = subscriptions w /\ length (maps w') = length (maps w).

(** Matrix and subscriptions are as they were. *)
Definition same_heap (w w' : World) : Prop :=
  subscriptions w' = subscriptions w /\ maps w' = maps w /\ subs w' = subs w.

(** ** Two producers and a client *)

(** A stream whose producer delivers nothing inside [subscribe], such as
    [interval(1000)]. *)
Definition ticker : StreamConfig :=
  {| streamId := "s"; name := "S"; description := None;
     observable := {| on_subscribe := fun _ => [];
                      teardown_throws := fun _ => false;
                      subscribe_throws := fun _ => false |} |}.

(** A stream whose producer delivers a value and completes inside
    [subscribe], such as [of(1)]. *)
Definition just_one : StreamConfig :=
  {| streamId := "s"; name := "S"; description := None;
     observable := {| on_subscribe := fun _ => [OnNext (JNum "1"); OnComplete];
                      teardown_throws := fun _ => false;
                      subscribe_throws := fun _ => false |} |}.

(** Connection [0] opens, stream ["s"] is registered, and the client
    subscribes to it. *)
Definition subscribed_to (config : StreamConfig) : World :=
  run [HandleConnection 0; RegisterStream config;
       HandleMessage 0 (subscribe_text "s")] new_bridge.

(** A stream whose producer fails inside [subscribe], such as
    [throwError(...)]. *)
Definition fails_at_once : StreamConfig :=
  {| streamId := "s"; name := "S"; description := None;
     observable := {| on_subscribe := fun _ => [OnError (Some "Error: boom")];
                      teardown_throws := fun _ => false;
                      subscribe_throws := fun _ => false |} |}.

(** Connection [0] is open and stream ["s"], whose producer emits inside
    [subscribe], is registered. *)
Definition before_subscribe : World :=
  run [HandleConnection 0; RegisterStream just_one] new_bridge.

(** The client subscribes twice. *)
Definition twice_subscribed : list Action :=
  [HandleConnection 0; RegisterStream ticker;
   HandleMessage 0 (subscribe_text "s"); HandleMessage 0 (subscribe_text "s")].

(** The catalog message listing stream ["s"] alone. *)
Definition catalog_s : WebSocketMessage :=
  StreamsListMessage 0
    [{| entry_streamId := "s"; entry_name := "S"; entry_description := None;
        entry_active := true |}].

(** The client of [subscribed_to ticker] after its socket closed, and after
    its [send] began to throw. *)
Definition socket_closed : World :=
  exec (perform (SocketBecomes 0 {| readyState := 3; send_throws := false |}))
    (subscribed_to ticker).

Definition socket_failing : World :=
  exec (perform (SocketBecomes 0 {| readyState := 1; send_throws := true |}))
    (subscribed_to ticker).

(** The client subscribes while the [send] of its socket throws; the socket
    recovers, and the producer emits a value. *)
Definition late_recovery : list Action :=
  [HandleConnection 0; RegisterStream ticker;
   SocketBecomes 0 {| readyState := 1; send_throws := true |};
   HandleMessage 0 (subscribe_text "s");
   SocketBecomes 0 open_socket;
   ProducerNotifies 0 (OnNext (JNum "7"))].

(** A stream whose producer registers a teardown that throws. *)
Definition stubborn : StreamConfig :=
  {| streamId := "s"; name := "S"; description := None;
     observable := {| on_subscribe := fun _ => [];
                      teardown_throws := fun _ => true;
                      subscribe_throws := fun _ => false |} |}.

(** A stream whose producer delivers a value and completes inside
    [subscribe], and then returns a teardown that throws. *)
Definition abrupt : StreamConfig :=
  {| streamId := "s"; name := "S"; description := None;
     observable := {| on_subscribe := fun _ => [OnNext (JNum "1"); OnComplete];
                      teardown_throws := fun _ => true;
                      subscribe_throws := fun _ => true |} |}.

(** A second stream of the kind of [ticker]. *)
Definition ticker_t : StreamConfig :=
  {| streamId := "t"; name := "T"; description := None;
     observable := {| on_subscribe := fun _ => [];
                      teardown_throws := fun _ => false;
                      subscribe_throws := fun _ => false |} |}.

(** Connection [0] is subscribed to the stream ["s"] of [stubborn] and to
    the stream ["t"]. *)
Definition subscribed_to_both : World :=
  run [HandleConnection 0; RegisterStream stubborn; RegisterStream ticker_t;
       HandleMessage 0 (subscribe_text "s");
       HandleMessage 0 (subscribe_text "t")] new_bridge.

(** ** Notions for the further properties *)

(** The connection set as the calls of a run leave it: whether the last
    call about a connection was [handleConnection]. *)
Fixpoint connected_by (trace : list Action) (ws : WebSocketConnection)
  (before : bool) : bool :=
  match trace with
  | [] => before
  | HandleConnection c :: rest =>
      connected_by rest ws (if decide (c = ws) then true else before)
  | HandleDisconnection c :: rest =>
      connected_by rest ws (if decide (c = ws) then false else before)
  | _ :: rest => connected_by rest ws before
  end.

Definition same_connections (w w' : World) : Prop :=
  connections w' = connections w.

(** The frames of a piece of wire that went to [ws]. *)
Definition frames_to (ws : WebSocketConnection)
  (l : list (WebSocketConnection * WebSocketMessage)) : list WebSocketMessage :=
  map snd (filter (fun f => fst f = ws) l).

(** The variables the observer of a subscription closes over. *)
Definition observer (s : Subscription)
  : WebSocketConnection * string * MapRef :=
  (obs_ws s, obs_streamId s, obs_streamSubs s).

(** Every entry of an inner map holds a subscription made for the entry's
    connection, whose observer closes over that map. *)
Definition owned (w : World) : Prop :=
  forall r ws s, (ws, s) ∈ deref r w ->
    exists sub, subs w !! s = Some sub /\
                obs_ws sub = ws /\ obs_streamSubs sub = r.

(** A subscription whose map is a matrix entry was made for the stream of
    that entry. *)
Definition keyed (w : World) : Prop :=
  forall s sub streamId,
    subs w !! s = Some sub ->
    JsMap.get streamId (subscriptions w) = Some (obs_streamSubs sub) ->
    obs_streamId sub = streamId.

(** The observers close over maps that exist. *)
Definition allocated (w : World) : Prop :=
  forall s sub, subs w !! s = Some sub -> obs_streamSubs sub < length (maps w).

(** No two matrix entries share an inner map. *)
Definition unshared (w : World) : Prop :=
  forall id id' r,
    JsMap.get id (subscriptions w) = Some r ->
    JsMap.get id' (subscriptions w) = Some r -> id = id'.

(** What holds of every state a run reaches. *)
Definition well_formed (w : World) : Prop :=
  owned w /\ keyed w /\ allocated w /\ unshared w /\ refs_valid w.

(** [w'] differs from [w] on the heap by cancellations only: subscriptions
    closed, entries removed from inner maps, entries removed from the
    matrix. *)
Definition only_cancels (w w' : World) : Prop :=
  (forall id r, JsMap.get id (subscriptions w') = Some r ->
                JsMap.get id (subscriptions w) = Some r) /\
  length (maps w') = length (maps w) /\
  (forall r e, e ∈ deref r w' -> e ∈ deref r w) /\
  observer <$> subs w' = observer <$> subs w.

(** Who may end subscription [s] of observer [sub]: the disconnection of
    its connection, the unregistration of its stream, a terminal
    notification to it, or a message of its connection. *)
Definition spares (a : Action) (s : SubscriptionRef) (sub : Subscription)
  : Prop :=
  match a with
  | HandleDisconnection ws => obs_ws sub <> ws
  | UnregisterStream streamId => obs_streamId sub <> streamId
  | ProducerNotifies s' n => s' <> s \/ is_terminal n = false
  | HandleMessage ws message => obs_ws sub <> ws
  | _ => True
  end.

(** The object of each message.  Those of the five server types are the
    object literals the bridge hands to [JSON.stringify], with their
    properties in the order of the source; those of the two client types
    are what the interfaces [SubscribeMessage] and [UnsubscribeMessage]
    describe.  A timestamp is the integer [Date.now()] returned; an absent
    [description] is a property whose value is [undefined]. *)
Definition number (z : Z) : JsValue := JNum (pretty z).

Definition optional (v : option string) : JsValue :=
  match v with
  | Some s => JStr s
  | None => JUndefined
  end.

Definition entry_object (e : StreamEntry) : JsValue :=
  JObj [("streamId", JStr (entry_streamId e));
        ("name", JStr (entry_name e));
        ("description", optional (entry_description e));
        ("active", JBool (entry_active e))].

Definition message_object (m : WebSocketMessage) : JsValue :=
  match m with
  | SubscribeMessage streamId timestamp =>
      JObj [("type", JStr "subscribe"); ("streamId", JStr streamId);
            ("timestamp", number timestamp)]
  | UnsubscribeMessage streamId timestamp =>
      JObj [("type", JStr "unsubscribe"); ("streamId", JStr streamId);
            ("timestamp", number timestamp)]
  | NextMessage streamId value timestamp =>
      JObj [("type", JStr "next"); ("streamId", JStr streamId);
            ("value", value); ("timestamp", number timestamp)]
  | ErrorMessage streamId error timestamp =>
      JObj [("type", JStr "error"); ("streamId", JStr streamId);
            ("error", JStr error); ("timestamp", number timestamp)]
  | CompleteMessage streamId timestamp =>
      JObj [("type", JStr "complete"); ("streamId", JStr streamId);
            ("timestamp", number timestamp)]
  | StreamInfoMessage streamId name description timestamp =>
      JObj [("type", JStr "stream-info"); ("streamId", JStr streamId);
            ("name", JStr name); ("description", optional description);
            ("timestamp", number timestamp)]
  | StreamsListMessage timestamp streams =>
      JObj [("type", JStr "streams-list"); ("timestamp", number timestamp);
            ("streams", JArr (map entry_object streams))]
  end.

(** A message of one of the five types the server sends. *)
Definition is_server_frame (m : WebSocketMessage) : bool :=
  match message_type m with
  | MT_subscribe | MT_unsubscribe => false
  | _ => true
  end.

(** Every frame added to the wire is of a server type. *)
Definition sends_server_frames (w w' : World) : Prop :=
  exists l, wire w' = wire w ++ l /\
            forall f, f ∈ l -> is_server_frame (snd f) = true.

(** Connection [0] is open and the stream ["s"] of [ticker] is registered. *)
Definition ticker_registered : World :=
  run [HandleConnection 0; RegisterStream ticker] new_bridge.

(** The subscription that [subscribed_to ticker] holds for connection
    [0]. *)
Definition first_subscription : Subscription :=
  {| closed := false; obs_ws := 0; obs_streamId := "s"; obs_streamSubs := 0;
     throwing_teardown := false |}.

(** ** The Cloudflare example ([examples/cloudflare/src/websocket.tsx]) *)

(** The producers of the example are driven by timers ([interval],
    [delay]): none delivers anything inside [subscribe], and their
    teardowns clear timers and do not throw. *)
Definition timed : Observable :=
  {| on_subscribe := fun _ => [];
     teardown_throws := fun _ => false;
     subscribe_throws := fun _ => false |}.

Definition registerExampleStreams : M unit :=
  (* 1. Simple interval stream *)
  registerStream
    {| streamId := "interval-1s"; name := "Interval (1s)";
       description := Some "Emits incrementing numbers every second";
       observable := timed |};;
  (* 2. Random values stream *)
  registerStream
    {| streamId := "random"; name := "Random Numbers";
       description := Some "Emits random numbers between 0-100";
       observable := timed |};;
  (* 3. Merged streams *)
  registerStream
    {| streamId := "merged"; name := "Merged Streams";
       description := Some "Two streams merged together";
       observable := timed |};;
  (* 4. Error example *)
  registerStream
    {| streamId := "error-demo"; name := "Error Demo";
       description := Some "Emits values then errors";
       observable := timed |};;
  (* 5. Fibonacci sequence *)
  registerStream
    {| streamId := "fibonacci"; name := "Fibonacci";
       description := Some "Fibonacci sequence";
       observable := timed |};;
  (* 6. Accelerating emissions *)
  registerStream
    {| streamId := "accelerating"; name := "Accelerating";
       description := Some "Emissions get faster over time";
       observable := timed |}.

(** The module: its singleton [bridge], and the number of connection
    objects its listeners have created so far.  Each listener passes the
    bridge an object literal, which is a new object at every evaluation;
    an object is named by its number. *)
Record Worker : Type := {
  bridge : World;
  objects : nat
}.

(** [{ send: ..., close: ..., readyState: server.readyState }]: a new
    object.  [socket] says what the bridge can tell of it: the
    [readyState] it copied from the server socket when it was made, and
    whether its [send] throws. *)
Definition connection_object (socket : Socket) (k : Worker)
  : WebSocketConnection * Worker :=
  let ws := objects k in
  (ws,
   {| bridge :=
        with_sockets
          (fun c => if decide (c = ws) then socket else sockets (bridge k) c)
          (bridge k);
      objects := S ws |}).

(** The listeners that [onWebSocketUpgrade] adds to a server socket.  What
    [handleDisconnection] throws leaves the listener; the state stays. *)
Definition on_message (socket : Socket) (data : string) (k : Worker) : Worker :=
  match JSON_parse data with
  | Normal message =>
      let '(ws, k1) := connection_object socket k in
      {| bridge := exec (handleMessage ws data) (bridge k1);
         objects := objects k1 |}
  | Throw error => k
  end.

Definition on_open (socket : Socket) (k : Worker) : Worker :=
  let '(ws, k1) := connection_object socket k in
  {| bridge := exec (handleConnection ws) (bridge k1); objects := objects k1 |}.

Definition on_close (socket : Socket) (k : Worker) : Worker :=
  let '(ws, k1) := connection_object socket k in
  {| bridge := exec (handleDisconnection ws) (bridge k1);
     objects := objects k1 |}.

(** An element of the [streams] array of [onStreamsApiGet]. *)
Record StreamStatus : Type := {
  status_streamId : string;
  status_name : string;
  status_description : option string;
  status_subscriptions : nat
}.

(** [array.map(f)] *)
Fixpoint mapM {A B : Type} (f : A -> M B) (l : list A) : M (list B) :=
  match l with
  | [] => mret []
  | x :: r => y ← f x; ys ← mapM f r; mret (y :: ys)
  end.

(** The body that [onStreamsApiGet] passes to [c.json]. *)
Definition onStreamsApiGet : M (list StreamStatus * nat) :=
  entries ← getStreams;
  streams ← mapM (fun '(streamId, config) =>
                    count ← getSubscriptionCount streamId;
                    mret {| status_streamId := streamId;
                            status_name := name config;
                            status_description := description config;
                            status_subscriptions := count |}) entries;
  connections ← getConnectionCount;
  mret (streams, connections).

(** What happens to the worker: an event of a server socket, with the
    object its listener makes; a timer of a producer; the [send] of an
    object starting or ceasing to throw; the passing of time. *)
Inductive Event : Type :=
| MessageEvent (socket : Socket) (data : string)
| OpenEvent (socket : Socket)
| CloseEvent (socket : Socket)
| TimerFires (s : SubscriptionRef) (n : Notification)
| SendChanges (ws : WebSocketConnection) (throws : bool)
| TimePasses (t : Z).

Definition handle (e : Event) (k : Worker) : Worker :=
  match e with
  | MessageEvent socket data => on_message socket data k
  | OpenEvent socket => on_open socket k
  | CloseEvent socket => on_close socket k
  | TimerFires s n =>
      {| bridge := exec (Subscriber_notify s n) (bridge k);
         objects := objects k |}
  | SendChanges ws throws =>
      {| bridge :=
           with_sockets
             (fun c => if decide (c = ws)
                       then {| readyState := readyState (sockets (bridge k) ws);
                               send_throws := throws |}
                       else sockets (bridge k) c)
             (bridge k);
         objects := objects k |}
  | TimePasses t =>
      {| bridge := with_clock t (bridge k); objects := objects k |}
  end.

Fixpoint serve (events : list Event) (k : Worker) : Worker :=
  match events with
  | [] => k
  | e :: rest => serve rest (handle e k)
  end.

(** The worker when the module has been loaded. *)
Definition worker : Worker :=
  {| bridge := exec registerExampleStreams new_bridge; objects := 0 |}.

(** The number of open events among [events]. *)
Fixpoint opened (events : list Event) : nat :=
  match events with
  | [] => 0
  | OpenEvent _ :: rest => S (opened rest)
  | _ :: rest => opened rest
  end.

(** The one kind of event that ends subscription [s]: an error or a
    completion of its producer. *)
Definition ends (e : Event) (s : SubscriptionRef) : bool :=
  match e with
  | TimerFires s' n => bool_decide (s' = s) && is_terminal n
  | _ => false
  end.

(** Every connection the bridge knows is one of the first [n] objects. *)
Definition bounded (n : nat) (w : World) : Prop :=
  (forall c, c ∈ connections w -> c < n) /\
  (forall r e, e ∈ deref r w -> fst e < n).

(** What the worker keeps true. *)
Definition steady (k : Worker) : Prop :=
  reachable (bridge k) /\ bounded (objects k) (bridge k) /\
  streams (bridge k) = streams (bridge worker).

(** The worker after some events, a client connected and subscribed to the
    first stream. *)
Definition one_client : list Event :=
  [OpenEvent open_socket;
   MessageEvent open_socket (subscribe_text "interval-1s")].

(** * Properties *)

(** ** The parser on sample texts *)

Example parse_subscribe :
  JSON_parse (subscribe_text "s") =
  Normal (JObj [("type", JStr "subscribe"); ("streamId", JStr "s");
                ("timestamp", JNum "0")]).
Proof. reflexivity. Qed.

Example parse_nested :
  JSON_parse ("  [1.5e3, {" +:+ q "a" +:+ ": [true, null]}, " +:+
              q "xA\n" +:+ " ] ") =
  Normal (JArr [JNum "1.5e3";
                JObj [("a", JArr [JBool true; JNull])];
                JStr (String "x" (String "A" (String "010" "")))]).
Proof. reflexivity. Qed.

Example parse_escape :
  JSON_parse (q "sub\u00e9") =
  Normal (JStr (String "s" (String "u" (String "b"
                 (String "195" (String "169" "")))))).
Proof. reflexivity. Qed.

Example parse_escaped_type :
  JSON_parse ("{" +:+ q "type" +:+ ":" +:+ q "\u0073ubscribe" +:+ "}") =
  Normal (JObj [("type", JStr "subscribe")]).
Proof. reflexivity. Qed.

Example parse_surrogate_pair :
  JSON_parse (q "\ud83d\ude00") =
  Normal (JStr (String "240" (String "159" (String "152" (String "128" ""))))).
Proof. reflexivity. Qed.

(** The high half written as an escape, the low half as it stands in the
    text. *)
Example parse_mixed_pair :
  JSON_parse (q ("\ud83d" +:+
                 String "237" (String "184" (String "128" "")))) =
  Normal (JStr (String "240" (String "159" (String "152" (String "128" ""))))).
Proof. reflexivity. Qed.

Example parse_not_json : JSON_parse "{not json" = Throw "SyntaxError".
Proof. reflexivity. Qed.

Example parse_trailing : JSON_parse "1 2" = Throw "SyntaxError".
Proof. reflexivity. Qed.

(** ** Stepping through a computation *)

Lemma bind_unfold {A B : Type} (m : M A) (f : A -> M B) (w : World) :
  (m ≫= f) w =
  match m w with
  | (Normal a, w') => f a w'
  | (Throw e, w') => (Throw e, w')
  end.
Proof. reflexivity. Qed.

Lemma with_wire_same (w : World) : with_wire (wire w) w = w.
Proof. destruct w; reflexivity. Qed.

Ltac mstep :=
  progress (rewrite ?bind_unfold;
            unfold modify, get_world, lift, mret, M_ret; cbv beta iota).

Ltac head_of t :=
  lazymatch t with
  | ?f _ => head_of f
  | _ => t
  end.

(** ** Computations that do not throw *)

Lemma nt_ret {A : Type} (a : A) : never_throws (mret a).
Proof. intros w. exists a. reflexivity. Qed.

Lemma nt_get_world : never_throws get_world.
Proof. intros w. exists w. reflexivity. Qed.

Lemma nt_modify (f : World -> World) : never_throws (modify f).
Proof. intros w. exists tt. reflexivity. Qed.

Lemma nt_bind {A B : Type} (m : M A) (f : A -> M B) :
  never_throws m -> (forall a, never_throws (f a)) -> never_throws (m ≫= f).
Proof.
  intros Hm Hf w. destruct (Hm w) as [a Ha]. unfold result in *.
  rewrite bind_unfold. destruct (m w) as [c w']. simpl in Ha. subst c.
  apply Hf.
Qed.

Lemma nt_try_catch {A : Type} (body : M A) (handler : string -> M A) :
  (forall e, never_throws (handler e)) -> never_throws (try_catch body handler).
Proof.
  intros Hh w. unfold result, try_catch. destruct (body w) as [[a|e] w'].
  - exists a. reflexivity.
  - apply Hh.
Qed.

Lemma nt_forEach {A : Type} (l : list A) (f : A -> M unit) :
  (forall x, never_throws (f x)) -> never_throws (forEach l f).
Proof.
  intros Hf. induction l as [|x r IH]; simpl.
  - apply nt_ret.
  - apply nt_bind; [apply Hf | intros _; exact IH].
Qed.

Ltac nt_step :=
  lazymatch goal with
  | |- never_throws (mret _) => apply nt_ret
  | |- never_throws get_world => apply nt_get_world
  | |- never_throws (modify _) => apply nt_modify
  | |- never_throws (try_catch _ _) => apply nt_try_catch; intros
  | |- never_throws (forEach _ _) => apply nt_forEach; intros
  | |- never_throws (_ ≫= _) => apply nt_bind; [| intros]
  | |- never_throws (match ?x with _ => _ end) => destruct x
  | |- never_throws ?m => let h := head_of m in unfold h
  end.

Lemma nt_sendMessage ws message : never_throws (sendMessage ws message).
Proof. repeat nt_step. Qed.

Lemma nt_Subscriber_notify s n : never_throws (Subscriber_notify s n).
Proof. repeat nt_step. Qed.

Lemma nt_handleMessage ws message : never_throws (handleMessage ws message).
Proof. repeat nt_step. Qed.

Lemma nt_registerStream config : never_throws (registerStream config).
Proof. repeat nt_step. Qed.

Lemma nt_handleConnection ws : never_throws (handleConnection ws).
Proof. repeat nt_step. Qed.

(** ** What a computation leaves alone *)

Section Keeps.
Variable R : World -> World -> Prop.
Hypothesis R_refl : forall w, R w w.
Hypothesis R_trans : forall a b c, R a b -> R b c -> R a c.

Lemma keeps_ret {A : Type} (a : A) : keeps R (mret a).
Proof. intros w. apply R_refl. Qed.

Lemma keeps_get_world : keeps R get_world.
Proof. intros w. apply R_refl. Qed.

Lemma keeps_lift {A : Type} (c : Completion A) : keeps R (lift c).
Proof. intros w. apply R_refl. Qed.

Lemma keeps_modify (f : World -> World) :
  (forall w, R w (f w)) -> keeps R (modify f).
Proof. intros H w. apply H. Qed.

Lemma keeps_bind {A B : Type} (m : M A) (f : A -> M B) :
  keeps R m -> (forall a, keeps R (f a)) -> keeps R (m ≫= f).
Proof.
  intros Hm Hf w. specialize (Hm w). unfold exec in *.
  rewrite bind_unfold. destruct (m w) as [[a|e] w']; simpl in *.
  - eapply R_trans; [exact Hm | apply Hf].
  - exact Hm.
Qed.

Lemma keeps_try_catch {A : Type} (body : M A) (handler : string -> M A) :
  keeps R body -> (forall e, keeps R (handler e)) ->
  keeps R (try_catch body handler).
Proof.
  intros Hb Hh w. specialize (Hb w). unfold exec, try_catch in *.
  destruct (body w) as [[a|e] w']; simpl in *.
  - exact Hb.
  - eapply R_trans; [exact Hb | apply Hh].
Qed.

Lemma keeps_forEach {A : Type} (l : list A) (f : A -> M unit) :
  (forall x, keeps R (f x)) -> keeps R (forEach l f).
Proof.
  intros Hf. induction l as [|x r IH]; simpl.
  - apply keeps_ret.
  - apply keeps_bind; [apply Hf | intros _; exact IH].
Qed.

Lemma keeps_ws_send ws message :
  (forall w, R w (with_wire (wire w ++ [(ws, message)]) w)) ->
  keeps R (ws_send ws message).
Proof.
  intros H w. unfold exec, ws_send.
  destruct (send_throws (sockets w ws)); simpl; [apply R_refl | apply H].
Qed.
End Keeps.

Create HintDb keeps.

(** Takes a computation apart, unless a lemma of the database [keeps]
    settles it whole; [leaf] proves that one update of the state is in the
    relation. *)
Ltac keeps_step leaf :=
  first [ solve [auto with keeps nocore] | idtac ];
  lazymatch goal with
  | |- keeps _ (mret _) => apply keeps_ret
  | |- keeps _ get_world => apply keeps_get_world
  | |- keeps _ (lift _) => apply keeps_lift
  | |- keeps _ (modify _) => apply keeps_modify
  | |- keeps _ (ws_send _ _) => apply keeps_ws_send
  | |- keeps _ (try_catch _ _) => apply keeps_try_catch
  | |- keeps _ (forEach _ _) => apply keeps_forEach
  | |- keeps _ (_ ≫= _) => apply keeps_bind
  | |- keeps _ (match ?x with _ => _ end) => destruct x
  | |- keeps _ ?m => let h := head_of m in unfold h
  end;
  try solve [auto | eauto | intros; leaf]; intros.

Lemma same_registry_refl w : same_registry w w.
Proof. split; reflexivity. Qed.

Lemma same_registry_trans a b c :
  same_registry a b -> same_registry b c -> same_registry a c.
Proof. intros [? ?] [? ?]. split; congruence. Qed.

Lemma grows_refl w : grows w w.
Proof. exists []. rewrite app_nil_r. reflexivity. Qed.

Lemma grows_trans a b c : grows a b -> grows b c -> grows a c.
Proof.
  intros [l1 H1] [l2 H2]. exists (l1 ++ l2).
  rewrite H2, H1, app_assoc. reflexivity.
Qed.

#[local] Hint Resolve same_registry_refl same_registry_trans
  grows_refl grows_trans : core.

Ltac registry_leaf := split; reflexivity.

Ltac grows_leaf :=
  first [ exists []; simpl; rewrite app_nil_r; reflexivity
        | eexists; simpl; reflexivity ].

(** Only [registerStream] and [unregisterStream] write the catalog and the
    outer map of the matrix. *)
Lemma handleMessage_registry ws message :
  keeps same_registry (handleMessage ws message).
Proof. repeat keeps_step registry_leaf. Qed.

Lemma Subscriber_notify_registry s n :
  keeps same_registry (Subscriber_notify s n).
Proof. repeat keeps_step registry_leaf. Qed.

Lemma handleConnection_registry ws : keeps same_registry (handleConnection ws).
Proof. repeat keeps_step registry_leaf. Qed.

Lemma handleDisconnection_registry ws :
  keeps same_registry (handleDisconnection ws).
Proof. repeat keeps_step registry_leaf. Qed.

Lemma perform_grows a : keeps grows (perform a).
Proof. destruct a; simpl; repeat keeps_step grows_leaf. Qed.

Lemma run_grows trace w : grows w (run trace w).
Proof.
  revert w. induction trace as [|a rest IH]; intros w; simpl.
  - apply grows_refl.
  - eapply grows_trans; [apply perform_grows | apply IH].
Qed.

(** ** Facts about [Map] and [Set] *)

Section JsMapFacts.
Context {K V : Type} `{EqDecision K}.
Implicit Types (m : list (K * V)) (k : K).

Lemma get_delete_eq k m : JsMap.get k (JsMap.delete k m) = None.
Proof.
  induction m as [|[k' v] r IH]; simpl; [reflexivity|].
  destruct (decide (k' = k)) as [->|Hne]; [exact IH|].
  simpl. destruct (decide (k' = k)); [contradiction | exact IH].
Qed.

Lemma get_delete_ne k k' m :
  k <> k' -> JsMap.get k' (JsMap.delete k m) = JsMap.get k' m.
Proof.
  intros Hne. induction m as [|[k0 v] r IH]; simpl; [reflexivity|].
  destruct (decide (k0 = k)) as [->|H0].
  - destruct (decide (k = k')); [contradiction | exact IH].
  - simpl. destruct (decide (k0 = k')); [reflexivity | exact IH].
Qed.

Lemma delete_absent k m : JsMap.get k m = None -> JsMap.delete k m = m.
Proof.
  induction m as [|[k' v] r IH]; simpl; [reflexivity|].
  destruct (decide (k' = k)); [discriminate|].
  intros Hr. rewrite IH by exact Hr. reflexivity.
Qed.

Lemma get_None_keys k m : JsMap.get k m = None <-> k ∉ JsMap.keys m.
Proof.
  induction m as [|[k' v] r IH]; simpl.
  - split; [intros _; apply not_elem_of_nil | reflexivity].
  - rewrite not_elem_of_cons. destruct (decide (k' = k)) as [->|Hne].
    + split; [discriminate | intros [? _]; contradiction].
    + rewrite IH. split.
      * intros Hr. split; [congruence | exact Hr].
      * intros [_ Hr]. exact Hr.
Qed.

Lemma get_Some_values k m v : JsMap.get k m = Some v -> v ∈ JsMap.values m.
Proof.
  induction m as [|[k' v'] r IH]; simpl; [discriminate|].
  destruct (decide (k' = k)).
  - intros [= ->]. apply list_elem_of_here.
  - intros Hr. apply list_elem_of_further, IH, Hr.
Qed.

Lemma get_Some_elem k v m : JsMap.get k m = Some v -> (k, v) ∈ m.
Proof.
  induction m as [|[k' v'] r IH]; simpl; [discriminate|].
  destruct (decide (k' = k)) as [->|].
  - intros [= ->]. left.
  - intros H0. right. apply IH, H0.
Qed.
End JsMapFacts.

Section JsMapKeys.
Context {K V1 V2 : Type} `{EqDecision K}.

Lemma keys_set (k : K) (v1 : V1) (v2 : V2) m1 m2 :
  JsMap.keys m1 = JsMap.keys m2 ->
  JsMap.keys (JsMap.set k v1 m1) = JsMap.keys (JsMap.set k v2 m2).
Proof.
  revert m2. induction m1 as [|[k1 x1] r1 IH]; intros [|[k2 x2] r2]; simpl;
    try discriminate; [reflexivity|].
  intros [= -> Hr]. destruct (decide (k2 = k)); simpl.
  - f_equal. exact Hr.
  - f_equal. apply IH, Hr.
Qed.

Lemma keys_delete (k : K) (m1 : list (K * V1)) (m2 : list (K * V2)) :
  JsMap.keys m1 = JsMap.keys m2 ->
  JsMap.keys (JsMap.delete k m1) = JsMap.keys (JsMap.delete k m2).
Proof.
  revert m2. induction m1 as [|[k1 x1] r1 IH]; intros [|[k2 x2] r2]; simpl;
    try discriminate; [reflexivity|].
  intros [= -> Hr]. destruct (decide (k2 = k)); simpl.
  - apply IH, Hr.
  - f_equal. apply IH, Hr.
Qed.
End JsMapKeys.

Lemma JsSet_delete_absent (x : nat) (l : list nat) :
  x ∉ l -> JsSet.delete x l = l.
Proof.
  induction l as [|y r IH]; intros H; simpl; [reflexivity|].
  apply not_elem_of_cons in H as [Hne Hr].
  destruct (decide (y = x)); [congruence|]. rewrite IH by exact Hr. reflexivity.
Qed.

Lemma JsSet_delete_gone (x : nat) (l : list nat) : x ∉ JsSet.delete x l.
Proof.
  induction l as [|y r IH]; simpl; [apply not_elem_of_nil|].
  destruct (decide (y = x)); [exact IH|].
  apply not_elem_of_cons. split; [congruence | exact IH].
Qed.

(** ** Closing subscriptions *)

Lemma lookup_close_all l : forall ss (s : SubscriptionRef),
  close_all l ss !! s =
  (if decide (s ∈ l) then close else id) <$> ss !! s.
Proof.
  induction l as [|a r IH]; intros ss s; simpl.
  - destruct (decide (s ∈ [])) as [Hin|_]; [inversion Hin|].
    destruct (ss !! s); reflexivity.
  - rewrite IH. destruct (decide (a = s)) as [->|Hne].
    + rewrite list_lookup_alter_eq.
      destruct (decide (s ∈ s :: r)) as [_|Hn]; [|exfalso; apply Hn; left].
      destruct (decide (s ∈ r)); destruct (ss !! s); reflexivity.
    + rewrite list_lookup_alter_ne by exact Hne.
      destruct (decide (s ∈ r)) as [Hr|Hr];
        destruct (decide (s ∈ a :: r)) as [Har|Har]; try reflexivity.
      * exfalso. apply Har. right. exact Hr.
      * exfalso. apply elem_of_cons in Har as [->|?];
          [apply Hne; reflexivity | contradiction].
Qed.

Lemma is_closed_alter_close s s' w v :
  is_closed s (with_maps v (with_subs (alter close s' (subs w)) w)) =
  if decide (s = s') then true else is_closed s w.
Proof.
  unfold is_closed. simpl. destruct (decide (s = s')) as [->|Hne].
  - rewrite list_lookup_alter_eq. destruct (subs w !! s'); reflexivity.
  - rewrite list_lookup_alter_ne by congruence. reflexivity.
Qed.

Lemma is_closed_close s s' w :
  is_closed s (with_subs (alter close s' (subs w)) w) =
  if decide (s = s') then true else is_closed s w.
Proof. apply (is_closed_alter_close s s' w (maps w)). Qed.

Lemma with_subs_same (w : World) : with_subs (subs w) w = w.
Proof. destruct w; reflexivity. Qed.

(** Closing a subscription that is closed, or is not there, changes
    nothing. *)
Lemma alter_close_id s (ss : list Subscription) :
  (forall sub, ss !! s = Some sub -> closed sub = true) ->
  alter close s ss = ss.
Proof.
  intros H. apply list_eq. intros i. destruct (decide (i = s)) as [->|Hne].
  - rewrite list_lookup_alter_eq.
    destruct (ss !! s) as [sub|] eqn:E; [|reflexivity].
    simpl. f_equal. specialize (H sub eq_refl).
    destruct sub; simpl in *; subst; reflexivity.
  - rewrite list_lookup_alter_ne by congruence. reflexivity.
Qed.

Lemma unsubscribe_throws_close s s' w :
  unsubscribe_throws s' (with_subs (alter close s (subs w)) w) =
  if decide (s' = s) then false else unsubscribe_throws s' w.
Proof.
  unfold unsubscribe_throws. simpl. destruct (decide (s' = s)) as [->|Hne].
  - rewrite list_lookup_alter_eq. destruct (subs w !! s); reflexivity.
  - rewrite list_lookup_alter_ne by congruence. reflexivity.
Qed.

(** Within a loop of [unsubscribe()] calls, a call that returned does not
    change what the later calls do. *)
Lemma unsubscribe_calls_close s l w :
  unsubscribe_throws s w = false ->
  unsubscribe_calls l (with_subs (alter close s (subs w)) w) =
    unsubscribe_calls l w /\
  existsb (fun x => unsubscribe_throws x (with_subs (alter close s (subs w)) w)) l =
    existsb (fun x => unsubscribe_throws x w) l.
Proof.
  intros Hs. induction l as [|x r [IH1 IH2]]; simpl; [auto|].
  rewrite unsubscribe_throws_close, IH1, IH2.
  destruct (decide (x = s)) as [->|Hne]; [rewrite Hs|]; auto.
Qed.

Lemma unsubscribe_calls_all l w :
  existsb (fun s => unsubscribe_throws s w) l = false ->
  unsubscribe_calls l w = l.
Proof.
  induction l as [|s r IH]; simpl; [reflexivity|].
  intros H. apply orb_false_iff in H as [Hs Hr]. rewrite Hs, IH by exact Hr.
  reflexivity.
Qed.

Lemma unsubscribe_calls_subset l w s :
  s ∈ unsubscribe_calls l w -> s ∈ l.
Proof.
  induction l as [|x r IH]; simpl; [auto|].
  destruct (unsubscribe_throws x w).
  - intros H. apply list_elem_of_singleton in H as ->. left.
  - rewrite !elem_of_cons. intros [->|H]; auto.
Qed.

(** ** The methods as state transformers *)

Lemma sendMessage_eq ws message w :
  sendMessage ws message w =
  (Normal tt, with_wire (wire w ++ emit ws message w) w).
Proof.
  unfold sendMessage, emit, sendable. repeat mstep.
  destruct (readyState (sockets w ws) =? 1)%Z; simpl.
  - unfold try_catch, ws_send. destruct (send_throws (sockets w ws)); simpl.
    + rewrite app_nil_r, with_wire_same. reflexivity.
    + reflexivity.
  - rewrite app_nil_r, with_wire_same. reflexivity.
Qed.

Lemma flat_map_emit {A : Type} ws (f : A -> WebSocketMessage) (l : list A) w :
  flat_map (fun n => emit ws (f n) w) l =
  if sendable (sockets w ws) then map (pair ws) (map f l) else [].
Proof.
  unfold emit. destruct (sendable (sockets w ws)).
  - induction l as [|m r IH]; simpl; [reflexivity | rewrite IH; reflexivity].
  - induction l as [|m r IH]; simpl; [reflexivity | exact IH].
Qed.

Lemma sendStreamsList_eq ws w :
  sendStreamsList ws w =
  (Normal tt, with_wire (wire w ++ emit ws (streams_list w) w) w).
Proof.
  unfold sendStreamsList, Date_now. repeat mstep. apply sendMessage_eq.
Qed.

Lemma forEach_sendStreamsList l : forall w,
  forEach l (fun ws => sendStreamsList ws) w =
  (Normal tt, with_wire (wire w ++ broadcast_to l w) w).
Proof.
  induction l as [|ws r IH]; intros w; simpl.
  - rewrite app_nil_r, with_wire_same. reflexivity.
  - rewrite bind_unfold, sendStreamsList_eq, IH. simpl.
    rewrite <- app_assoc. reflexivity.
Qed.

Lemma broadcastStreamsList_eq w :
  broadcastStreamsList w =
  (Normal tt, with_wire (wire w ++ broadcast_to (connections w) w) w).
Proof.
  unfold broadcastStreamsList. repeat mstep. apply forEach_sendStreamsList.
Qed.

Lemma Subscription_unsubscribe_eq s w :
  Subscription_unsubscribe s w =
  (unsubscription (unsubscribe_throws s w),
   with_subs (alter close s (subs w)) w).
Proof.
  unfold Subscription_unsubscribe, unsubscribe_throws. repeat mstep.
  destruct (subs w !! s) as [sub|] eqn:Hs.
  - destruct (closed sub) eqn:Hc; simpl.
    + rewrite alter_close_id, with_subs_same; [reflexivity|].
      intros sub' E. congruence.
    + repeat mstep. destruct (throwing_teardown sub); reflexivity.
  - rewrite alter_close_id, with_subs_same; [reflexivity|].
    intros sub' E. congruence.
Qed.

Lemma forEach_unsubscribe l : forall w,
  forEach l (fun sub => Subscription_unsubscribe sub) w =
  (unsubscription (existsb (fun s => unsubscribe_throws s w) l),
   with_subs (close_all (unsubscribe_calls l w) (subs w)) w).
Proof.
  induction l as [|s r IH]; intros w; simpl.
  - rewrite with_subs_same. reflexivity.
  - rewrite bind_unfold, Subscription_unsubscribe_eq.
    destruct (unsubscribe_throws s w) eqn:Hs; simpl; [reflexivity|].
    rewrite IH. destruct (unsubscribe_calls_close s r w Hs) as [-> ->].
    reflexivity.
Qed.

Lemma registerStream_eq config w :
  registerStream config w = (Normal tt, registered config w).
Proof.
  unfold registerStream, new_Map. repeat mstep.
  rewrite broadcastStreamsList_eq. reflexivity.
Qed.

Lemma unregisterStream_eq streamId w :
  unregisterStream streamId w =
  (unsubscription (unregister_throws streamId w), unregistered streamId w).
Proof.
  unfold unregisterStream, unregistered, unregister_throws. repeat mstep.
  destruct (JsMap.get streamId (subscriptions w)) as [streamSubs|] eqn:Hsubs.
  - repeat mstep. rewrite forEach_unsubscribe.
    destruct (existsb _ _); simpl; [reflexivity|].
    repeat mstep. rewrite broadcastStreamsList_eq. reflexivity.
  - repeat mstep. rewrite broadcastStreamsList_eq.
    rewrite (delete_absent _ _ Hsubs). destruct w; reflexivity.
Qed.

Lemma Subscriber_notify_eq s n w sub :
  subs w !! s = Some sub ->
  Subscriber_notify s n w =
  (Normal tt, if closed sub then w else notified s sub n w).
Proof.
  intros Hs. unfold Subscriber_notify. repeat mstep. rewrite Hs.
  destruct (closed sub); [reflexivity|].
  destruct n as [value|[text|]|];
    unfold try_catch, on_next, on_error, on_complete, toString, Date_now,
      Subscriber_stop, Map_delete; repeat mstep;
    try rewrite sendMessage_eq; reflexivity.
Qed.

Lemma forEach_notify_wire s ns : forall w sub,
  subs w !! s = Some sub ->
  wire (exec (forEach ns (Subscriber_notify s)) w) =
  wire w ++
  (if closed sub then []
   else flat_map (fun n => emitted (obs_ws sub) (obs_streamId sub) n w)
          (delivered ns)).
Proof.
  induction ns as [|n rest IH]; intros w sub Hs.
  - simpl. destruct (closed sub); rewrite app_nil_r; reflexivity.
  - unfold exec in *. simpl. rewrite bind_unfold.
    rewrite (Subscriber_notify_eq _ _ _ _ Hs).
    destruct (closed sub) eqn:Hc.
    + rewrite (IH _ _ Hs), Hc. reflexivity.
    + destruct n as [value|[text|]|]; simpl.
      * rewrite (IH _ sub) by exact Hs. rewrite Hc. simpl.
        rewrite <- app_assoc. reflexivity.
      * rewrite (IH _ (close sub)).
        2:{ simpl. rewrite list_lookup_alter_eq, Hs. reflexivity. }
        simpl. rewrite !app_nil_r. reflexivity.
      * rewrite (IH _ (close sub)).
        2:{ simpl. rewrite list_lookup_alter_eq, Hs. reflexivity. }
        simpl. rewrite !app_nil_r. reflexivity.
      * rewrite (IH _ (close sub)).
        2:{ simpl. rewrite list_lookup_alter_eq, Hs. reflexivity. }
        simpl. rewrite !app_nil_r. reflexivity.
Qed.

Lemma flat_map_emitted ws streamId (l : list Notification) w :
  flat_map (fun n => emitted ws streamId n w) l =
  if sendable (sockets w ws)
  then map (pair ws) (omap (frame_of streamId (clock w)) l)
  else [].
Proof.
  unfold emitted, emit. destruct (sendable (sockets w ws)).
  - induction l as [|n r IH]; simpl; [reflexivity|].
    rewrite IH. destruct (frame_of streamId (clock w) n); reflexivity.
  - induction l as [|n r IH]; simpl; [reflexivity|].
    rewrite IH. destruct (frame_of streamId (clock w) n); reflexivity.
Qed.

Lemma forEach_drop ws l : forall w,
  forEach l (fun '(streamId, streamSubs) =>
    w' ← get_world;
    match JsMap.get ws (deref streamSubs w') with
    | Some sub => Subscription_unsubscribe sub;; Map_delete streamSubs ws
    | None => mret tt
    end) w =
  (unsubscription (drop_all_throws ws l w), dropped_all ws l w).
Proof.
  induction l as [|[streamId streamSubs] rest IH]; intros w; [reflexivity|].
  simpl. repeat mstep. unfold drop_throws, dropped.
  destruct (JsMap.get ws (deref streamSubs w)) as [sub|].
  - rewrite bind_unfold, Subscription_unsubscribe_eq.
    destruct (unsubscribe_throws sub w); simpl; [reflexivity|].
    unfold Map_delete. repeat mstep. apply IH.
  - repeat mstep. apply IH.
Qed.

Lemma handleDisconnection_eq ws w :
  handleDisconnection ws w =
  (unsubscription
     (drop_all_throws ws (subscriptions w)
        (with_connections (JsSet.delete ws (connections w)) w)),
   dropped_all ws (subscriptions w)
     (with_connections (JsSet.delete ws (connections w)) w)).
Proof.
  unfold handleDisconnection. repeat mstep. apply forEach_drop.
Qed.

(** ** Frames go to open connections only *)

Lemma sent_while_open_refl w : sent_while_open w w.
Proof.
  split; [reflexivity|]. exists []. split.
  - rewrite app_nil_r. reflexivity.
  - intros f H. inversion H.
Qed.

Lemma sent_while_open_trans a b c :
  sent_while_open a b -> sent_while_open b c -> sent_while_open a c.
Proof.
  intros [Hs1 (l1 & H1 & Ho1)] [Hs2 (l2 & H2 & Ho2)].
  split; [congruence|]. exists (l1 ++ l2). split.
  - rewrite H2, H1, app_assoc. reflexivity.
  - intros f Hin. apply elem_of_app in Hin as [Hin|Hin].
    + apply Ho1, Hin.
    + rewrite <- Hs1. apply Ho2, Hin.
Qed.

Lemma sendMessage_sent_while_open ws message :
  keeps sent_while_open (sendMessage ws message).
Proof.
  intros w. unfold exec. rewrite sendMessage_eq. simpl.
  split; [reflexivity|]. exists (emit ws message w). split; [reflexivity|].
  unfold emit. destruct (sendable (sockets w ws)) eqn:Hopen; intros f Hin.
  - apply list_elem_of_singleton in Hin. subst f. exact Hopen.
  - inversion Hin.
Qed.

#[local] Hint Resolve sent_while_open_refl sent_while_open_trans : core.
#[local] Hint Resolve sendMessage_sent_while_open : keeps.

Ltac unsent_leaf :=
  split; [reflexivity|]; exists []; split;
  [ simpl; rewrite app_nil_r; reflexivity
  | let H := fresh in intros ? H; inversion H ].

Lemma perform_sent_while_open a w :
  exists l, wire (exec (perform a) w) = wire w ++ l /\
            forall f, f ∈ l -> sendable (sockets w (fst f)) = true.
Proof.
  assert (Hnone : forall w' : World,
             wire w' = wire w ->
             exists l, wire w' = wire w ++ l /\
                       forall f, f ∈ l -> sendable (sockets w (fst f)) = true).
  { intros w' E. exists []. split.
    - rewrite app_nil_r. exact E.
    - intros f H. inversion H. }
  destruct a;
    try (apply Hnone; reflexivity);
    match goal with
    | |- context [exec (perform ?act) w] =>
        assert (keeps sent_while_open (perform act)) as Hk
          by (simpl; repeat keeps_step unsent_leaf);
        exact (proj2 (Hk w))
    end.
Qed.

(** ** The loop of [handleDisconnection] *)

Lemma deref_dropped ws r r' w :
  drop_throws ws r w = false ->
  JsMap.get ws (deref r' (dropped ws r w)) =
  if decide (r' = r) then None else JsMap.get ws (deref r' w).
Proof.
  unfold drop_throws, dropped.
  destruct (JsMap.get ws (deref r w)) as [sub|] eqn:Hget.
  - intros ->. unfold deref in *. simpl.
    destruct (decide (r' = r)) as [->|Hne].
    + rewrite list_lookup_alter_eq. destruct (maps w !! r); simpl.
      * apply get_delete_eq.
      * reflexivity.
    + rewrite list_lookup_alter_ne by congruence. reflexivity.
  - intros _. destruct (decide (r' = r)) as [->|Hne]; [exact Hget | reflexivity].
Qed.

Lemma dropped_absent ws r r' w :
  JsMap.get ws (deref r' w) = None ->
  JsMap.get ws (deref r' (dropped ws r w)) = None.
Proof.
  intros H. destruct (drop_throws ws r w) eqn:Ht.
  - unfold drop_throws, dropped in *.
    destruct (JsMap.get ws (deref r w)); [rewrite Ht|]; exact H.
  - rewrite deref_dropped by exact Ht. destruct (decide _); auto.
Qed.

Lemma is_closed_dropped_mono ws r s w :
  is_closed s w = true -> is_closed s (dropped ws r w) = true.
Proof.
  intros H. unfold dropped. destruct (JsMap.get ws (deref r w)); [|exact H].
  destruct (unsubscribe_throws _ w);
    rewrite ?is_closed_alter_close, ?is_closed_close; destruct (decide _); auto.
Qed.

Lemma is_closed_dropped ws r sub w :
  JsMap.get ws (deref r w) = Some sub -> is_closed sub (dropped ws r w) = true.
Proof.
  intros H. unfold dropped. rewrite H.
  destruct (unsubscribe_throws _ w);
    rewrite ?is_closed_alter_close, ?is_closed_close;
    destruct (decide _); [reflexivity | contradiction | reflexivity | contradiction].
Qed.

(** Whether or not the loop ends early: what was absent stays absent, what
    was closed stays closed. *)
Lemma dropped_all_mono ws l : forall w,
  let wf := dropped_all ws l w in
  (forall r, JsMap.get ws (deref r w) = None ->
             JsMap.get ws (deref r wf) = None) /\
  (forall s, is_closed s w = true -> is_closed s wf = true).
Proof.
  induction l as [|[sid0 r0] rest IH]; intros w; simpl; [auto|].
  destruct (drop_throws ws r0 w).
  - split; [intros r; apply dropped_absent | intros s; apply is_closed_dropped_mono].
  - destruct (IH (dropped ws r0 w)) as (Ha & Hb). split.
    + intros r Hr. apply Ha, dropped_absent, Hr.
    + intros s Hs. apply Hb, is_closed_dropped_mono, Hs.
Qed.

(** A loop that runs to its end leaves [ws] in no entry, and has closed
    every subscription an entry held for it. *)
Lemma dropped_all_spec ws l : forall w,
  drop_all_throws ws l w = false ->
  let wf := dropped_all ws l w in
  (forall entry, entry ∈ l -> JsMap.get ws (deref (snd entry) wf) = None) /\
  (forall entry sub,
     entry ∈ l -> JsMap.get ws (deref (snd entry) w) = Some sub ->
     is_closed sub wf = true).
Proof.
  induction l as [|[sid0 r0] rest IH]; intros w; simpl.
  - intros _. split; intros ? H; try intros H'; inversion H; inversion H'.
  - destruct (drop_throws ws r0 w) eqn:Ht; [discriminate|]. intros Hrest.
    destruct (IH (dropped ws r0 w) Hrest) as (Hc & Hd).
    destruct (dropped_all_mono ws rest (dropped ws r0 w)) as (Ha & Hb).
    split.
    + intros entry Hin. apply elem_of_cons in Hin as [->|Hin]; [|apply Hc, Hin].
      simpl. apply Ha. rewrite deref_dropped by exact Ht.
      destruct (decide _); [reflexivity | contradiction].
    + intros entry sub Hin Hget. apply elem_of_cons in Hin as [->|Hin].
      * simpl in Hget. apply Hb, is_closed_dropped, Hget.
      * destruct (decide (snd entry = r0)) as [E|Hne].
        -- rewrite E in Hget. apply Hb, is_closed_dropped, Hget.
        -- apply (Hd entry sub Hin). rewrite deref_dropped by exact Ht.
           destruct (decide _); [contradiction | exact Hget].
Qed.

Lemma dropped_frame ws r w :
  streams (dropped ws r w) = streams w /\
  subscriptions (dropped ws r w) = subscriptions w /\
  connections (dropped ws r w) = connections w /\
  wire (dropped ws r w) = wire w.
Proof.
  unfold dropped. destruct (JsMap.get ws (deref r w)); [|auto].
  destruct (unsubscribe_throws _ w); auto.
Qed.

Lemma dropped_all_frame ws l : forall w,
  let wf := dropped_all ws l w in
  streams wf = streams w /\ subscriptions wf = subscriptions w /\
  connections wf = connections w /\ wire wf = wire w.
Proof.
  induction l as [|[sid0 r0] rest IH]; intros w; simpl; [auto|].
  destruct (drop_throws ws r0 w); [apply dropped_frame|].
  destruct (IH (dropped ws r0 w)) as (H1 & H2 & H3 & H4).
  destruct (dropped_frame ws r0 w) as (G1 & G2 & G3 & G4).
  rewrite H1, H2, H3, H4. auto.
Qed.

Lemma dropped_all_absent ws l : forall w,
  (forall entry, entry ∈ l -> JsMap.get ws (deref (snd entry) w) = None) ->
  drop_all_throws ws l w = false /\ dropped_all ws l w = w.
Proof.
  induction l as [|[sid0 r0] rest IH]; intros w H; [auto|].
  simpl. pose proof (H (sid0, r0)) as H0. simpl in H0.
  unfold drop_throws, dropped. rewrite H0 by left.
  apply IH. intros entry Hin. apply H. right. exact Hin.
Qed.

(** The loop runs to its end when no subscription it finds has a teardown
    that throws. *)
Lemma drop_all_returns ws l : forall w,
  (forall entry sub,
     entry ∈ l -> JsMap.get ws (deref (snd entry) w) = Some sub ->
     unsubscribe_throws sub w = false) ->
  drop_all_throws ws l w = false.
Proof.
  induction l as [|[sid0 r0] rest IH]; intros w H; [reflexivity|].
  simpl.
  assert (Ht : drop_throws ws r0 w = false).
  { unfold drop_throws.
    destruct (JsMap.get ws (deref r0 w)) as [sub|] eqn:Hget; [|reflexivity].
    apply (H (sid0, r0) sub); [left | exact Hget]. }
  rewrite Ht. apply IH. intros entry sub Hin Hget.
  assert (Hold : JsMap.get ws (deref (snd entry) w) = Some sub).
  { rewrite deref_dropped in Hget by exact Ht.
    destruct (decide _); [discriminate | exact Hget]. }
  specialize (H entry sub (list_elem_of_further _ _ _ Hin) Hold).
  unfold dropped. destruct (JsMap.get ws (deref r0 w)) as [sub0|]; [|exact H].
  destruct (unsubscribe_throws sub0 w); simpl;
    [rewrite unsubscribe_throws_close |
     change (unsubscribe_throws sub
               (with_maps (alter (JsMap.delete ws) r0 (maps w))
                  (with_subs (alter close sub0 (subs w)) w)))
       with (unsubscribe_throws sub (with_subs (alter close sub0 (subs w)) w));
     rewrite unsubscribe_throws_close];
    destruct (decide _); auto.
Qed.

(** ** The registry invariant *)

Lemma registry_ok_frame w w' :
  same_registry w w' -> registry_ok w -> registry_ok w'.
Proof. unfold registry_ok. intros [-> ->]. auto. Qed.

Lemma perform_registry_ok a w :
  registry_ok w -> registry_ok (exec (perform a) w).
Proof.
  intros Hw. destruct a; simpl.
  - unfold exec. rewrite registerStream_eq. simpl. apply keys_set, Hw.
  - unfold exec. rewrite unregisterStream_eq. simpl. unfold unregistered.
    destruct (unregister_throws _ w); simpl; [exact Hw | apply keys_delete, Hw].
  - eapply registry_ok_frame; [apply handleConnection_registry | exact Hw].
  - eapply registry_ok_frame; [apply handleDisconnection_registry | exact Hw].
  - eapply registry_ok_frame; [apply handleMessage_registry | exact Hw].
  - eapply registry_ok_frame; [apply Subscriber_notify_registry | exact Hw].
  - exact Hw.
  - exact Hw.
Qed.

Lemma run_registry_ok trace : forall w,
  registry_ok w -> registry_ok (run trace w).
Proof.
  induction trace as [|a rest IH]; intros w Hw; simpl.
  - exact Hw.
  - apply IH, perform_registry_ok, Hw.
Qed.

Lemma reachable_registry_ok w : reachable w -> registry_ok w.
Proof. intros [trace ->]. apply run_registry_ok. reflexivity. Qed.

Lemma registry_ok_unknown w (streamId : string) :
  registry_ok w -> JsMap.get streamId (streams w) = None ->
  JsMap.get streamId (subscriptions w) = None.
Proof.
  unfold registry_ok. intros Hk Hs.
  apply get_None_keys. rewrite <- Hk. apply get_None_keys, Hs.
Qed.

Lemma registry_ok_known w (streamId : string) config :
  registry_ok w -> JsMap.get streamId (streams w) = Some config ->
  exists streamSubs, JsMap.get streamId (subscriptions w) = Some streamSubs.
Proof.
  unfold registry_ok. intros Hk Hs.
  destruct (JsMap.get streamId (subscriptions w)) as [r|] eqn:Hr; [eauto|].
  apply get_None_keys in Hr. rewrite <- Hk in Hr.
  apply get_None_keys in Hr. congruence.
Qed.

(** ** Live subscriptions are recorded *)

(** A subscribe request for a pair that the matrix entry of the stream
    holds does nothing. *)
Lemma duplicate_subscribe_is_noop ws streamId w streamSubs :
  JsMap.get streamId (subscriptions w) = Some streamSubs ->
  JsMap.has ws (deref streamSubs w) = true ->
  handleSubscribe ws streamId w = (Normal tt, w).
Proof.
  intros Hsubs Hhas. unfold handleSubscribe. repeat mstep.
  destruct (JsMap.get streamId (streams w)); [|reflexivity].
  rewrite Hsubs, Hhas. reflexivity.
Qed.

Section MoreMapFacts.
Context {K V : Type} `{EqDecision K}.
Implicit Types (m : list (K * V)) (k : K).

Lemma get_set_eq k v m : JsMap.get k (JsMap.set k v m) = Some v.
Proof.
  induction m as [|[k' v'] r IH]; simpl.
  - destruct (decide (k = k)); [reflexivity | contradiction].
  - destruct (decide (k' = k)) as [->|Hne]; simpl.
    + destruct (decide (k = k)); [reflexivity | contradiction].
    + destruct (decide (k' = k)); [contradiction | exact IH].
Qed.

Lemma get_set_ne k k' v m :
  k <> k' -> JsMap.get k' (JsMap.set k v m) = JsMap.get k' m.
Proof.
  intros Hne. induction m as [|[k0 v0] r IH]; simpl.
  - destruct (decide (k = k')); [contradiction | reflexivity].
  - destruct (decide (k0 = k)) as [->|H0]; simpl.
    + destruct (decide (k = k')); [contradiction | reflexivity].
    + destruct (decide (k0 = k')); [reflexivity | exact IH].
Qed.
End MoreMapFacts.

Lemma deref_alter (f : list (nat * nat) -> list (nat * nat)) r r' v w :
  maps v = alter f r (maps w) ->
  deref r' v =
  if decide (r' = r) then default [] (f <$> maps w !! r) else deref r' w.
Proof.
  intros Hm. unfold deref. rewrite Hm.
  destruct (decide (r' = r)) as [->|Hne].
  - rewrite list_lookup_alter_eq. reflexivity.
  - rewrite list_lookup_alter_ne by congruence. reflexivity.
Qed.

Lemma alter_delete_absent ws r w :
  JsMap.get ws (deref r w) = None ->
  alter (JsMap.delete ws) r (maps w) = maps w.
Proof.
  intros H. apply list_eq. intros i.
  destruct (decide (i = r)) as [->|Hne].
  - rewrite list_lookup_alter_eq. unfold deref in H.
    destruct (maps w !! r) as [m|]; simpl in *; [|reflexivity].
    rewrite delete_absent by exact H. reflexivity.
  - rewrite list_lookup_alter_ne by congruence. reflexivity.
Qed.

Lemma alter_last {A} (f : A -> A) (l : list A) (x : A) :
  alter f (length l) (l ++ [x]) = l ++ [f x].
Proof.
  induction l as [|a r IH]; simpl; [reflexivity|].
  f_equal. exact IH.
Qed.

(** closing a subscription and removing its record keeps the others tracked *)
Lemma tracked_close_delete w v ws0 r0 s0 :
  tracked w ->
  JsMap.get ws0 (deref r0 w) = Some s0 ->
  subs v = alter close s0 (subs w) ->
  maps v = alter (JsMap.delete ws0) r0 (maps w) ->
  subscriptions v = subscriptions w ->
  tracked v.
Proof.
  intros Hw H0 Hsubs Hmaps Hreg s sub Hs Hlive.
  rewrite Hsubs in Hs. rewrite Hreg.
  destruct (decide (s = s0)) as [->|Hne].
  - rewrite list_lookup_alter_eq in Hs.
    destruct (subs w !! s0); simpl in Hs; [|discriminate].
    injection Hs as <-. discriminate.
  - rewrite list_lookup_alter_ne in Hs by congruence.
    destruct (Hw s sub Hs Hlive) as [H1 H2]. split; [exact H1|].
    rewrite (deref_alter _ r0 _ v w Hmaps).
    destruct (decide (obs_streamSubs sub = r0)) as [E|Hr]; [|exact H2].
    rewrite E in H2. unfold deref in H2, H0.
    destruct (maps w !! r0) as [m|]; simpl in *; [|discriminate].
    destruct (decide (ws0 = obs_ws sub)) as [E'|Hw'].
    + rewrite E' in H0. congruence.
    + rewrite get_delete_ne by exact Hw'. exact H2.
Qed.

Lemma tracked_close w v s0 :
  tracked w ->
  subs v = alter close s0 (subs w) ->
  maps v = maps w -> subscriptions v = subscriptions w ->
  tracked v.
Proof.
  intros Hw Hsubs Hmaps Hreg s sub Hs Hlive.
  rewrite Hsubs in Hs. rewrite Hreg. unfold deref. rewrite Hmaps.
  destruct (decide (s = s0)) as [->|Hne].
  - rewrite list_lookup_alter_eq in Hs.
    destruct (subs w !! s0); simpl in Hs; [|discriminate].
    injection Hs as <-. discriminate.
  - rewrite list_lookup_alter_ne in Hs by congruence.
    apply (Hw s sub Hs Hlive).
Qed.

Lemma tracked_same w v :
  tracked w ->
  subs v = subs w -> maps v = maps w -> subscriptions v = subscriptions w ->
  tracked v.
Proof.
  intros Hw Hsubs Hmaps Hreg s sub Hs Hlive.
  rewrite Hsubs in Hs. rewrite Hreg. unfold deref. rewrite Hmaps.
  apply (Hw s sub Hs Hlive).
Qed.

Lemma tracked_dropped ws r w : tracked w -> tracked (dropped ws r w).
Proof.
  intros Hw. unfold dropped.
  destruct (JsMap.get ws (deref r w)) as [s0|] eqn:H0; [|exact Hw].
  destruct (unsubscribe_throws s0 w).
  - eapply tracked_close; [exact Hw | reflexivity..].
  - eapply tracked_close_delete; [exact Hw | exact H0 | reflexivity..].
Qed.

Lemma tracked_dropped_all ws l : forall w,
  tracked w -> tracked (dropped_all ws l w).
Proof.
  induction l as [|[sid r] rest IH]; intros w Hw; [exact Hw|].
  simpl. destruct (drop_throws ws r w); [|apply IH]; apply tracked_dropped, Hw.
Qed.

Lemma tracked_close_all w v l :
  tracked w ->
  subs v = close_all l (subs w) ->
  maps v = maps w -> subscriptions v = subscriptions w ->
  tracked v.
Proof.
  intros Hw Hsubs Hmaps Hreg s sub Hs Hlive.
  rewrite Hsubs, lookup_close_all in Hs. rewrite Hreg. unfold deref.
  rewrite Hmaps. apply (Hw s sub); [|exact Hlive].
  destruct (decide (s ∈ l)); destruct (subs w !! s) as [sub0|];
    simpl in Hs; try discriminate; injection Hs as <-;
    [discriminate | reflexivity].
Qed.

Lemma tracked_notified s sub n w :
  tracked w -> subs w !! s = Some sub -> closed sub = false ->
  tracked (notified s sub n w).
Proof.
  intros Hw Hs Hlive. destruct (Hw s sub Hs Hlive) as [_ Hrec].
  destruct n as [value|[text|]|]; simpl.
  - eapply tracked_same; [exact Hw | reflexivity..].
  - eapply tracked_close_delete; [exact Hw | exact Hrec | reflexivity..].
  - eapply tracked_close; [exact Hw | reflexivity..].
  - eapply tracked_close_delete; [exact Hw | exact Hrec | reflexivity..].
Qed.

Lemma tracked_unregistered streamId w :
  tracked w -> tracked (unregistered streamId w).
Proof.
  intros Hw. unfold unregistered.
  destruct (unregister_throws streamId w) eqn:Ht.
  { destruct (JsMap.get streamId (subscriptions w)) as [r|].
    - eapply tracked_close_all; [exact Hw | reflexivity..].
    - eapply tracked_same; [exact Hw | reflexivity..]. }
  assert (Hall : forall r, JsMap.get streamId (subscriptions w) = Some r ->
            unsubscribe_calls (JsMap.values (deref r w)) w =
            JsMap.values (deref r w)).
  { intros r Hr. apply unsubscribe_calls_all. unfold unregister_throws in Ht.
    rewrite Hr in Ht. exact Ht. }
  intros s sub Hs Hlive. simpl in *.
  assert (Hold : subs w !! s = Some sub /\
                 forall r, JsMap.get streamId (subscriptions w) = Some r ->
                           s ∉ JsMap.values (deref r w)).
  { destruct (JsMap.get streamId (subscriptions w)) as [r|].
    - rewrite (Hall r eq_refl), lookup_close_all in Hs.
      destruct (decide (s ∈ JsMap.values (deref r w))) as [Hin|Hn].
      + destruct (subs w !! s); simpl in Hs; [|discriminate].
        injection Hs as <-. discriminate.
      + destruct (subs w !! s); simpl in Hs; [|discriminate].
        injection Hs as <-. split; [reflexivity|].
        intros r' [= <-]. exact Hn.
    - split; [exact Hs | discriminate]. }
  destruct Hold as [Hs0 Hout].
  destruct (Hw s sub Hs0 Hlive) as [H1 H2].
  assert (Hne : streamId <> obs_streamId sub).
  { intros E. rewrite <- E in H1. apply (Hout _ H1).
    eapply get_Some_values, H2. }
  split.
  - rewrite get_delete_ne by exact Hne. exact H1.
  - exact H2.
Qed.

Lemma refs_valid_deref w r ws s :
  JsMap.get ws (deref r w) = Some s -> r < length (maps w).
Proof.
  unfold deref. intros H. apply lookup_lt_is_Some.
  destruct (maps w !! r); [eauto | discriminate].
Qed.

Lemma tracked_registered config w :
  registry_ok w -> tracked w ->
  JsMap.get (streamId config) (streams w) = None ->
  tracked (registered config w).
Proof.
  intros Hreg Hw Hfresh s sub Hs Hlive. unfold registered in *. simpl in *.
  destruct (Hw s sub Hs Hlive) as [H1 H2].
  pose proof (registry_ok_unknown _ _ Hreg Hfresh) as Hnone.
  assert (Hne : streamId config <> obs_streamId sub) by congruence.
  split.
  - rewrite get_set_ne by exact Hne. exact H1.
  - unfold deref in *. simpl.
    rewrite lookup_app_l; [exact H2|].
    apply (refs_valid_deref w _ _ _ H2).
Qed.

Lemma refs_valid_registered config w :
  refs_valid w -> refs_valid (registered config w).
Proof.
  intros Hw sid r. unfold registered. simpl. rewrite length_app. simpl.
  destruct (decide (streamId config = sid)) as [<-|Hne].
  - rewrite get_set_eq. intros [= <-]. lia.
  - rewrite get_set_ne by exact Hne. intros H. specialize (Hw sid r H). lia.
Qed.

Lemma refs_valid_unregistered streamId w :
  refs_valid w -> refs_valid (unregistered streamId w).
Proof.
  intros Hw sid r. unfold unregistered.
  destruct (unregister_throws streamId w); simpl; [apply Hw|].
  destruct (decide (streamId = sid)) as [<-|Hne].
  - rewrite get_delete_eq. discriminate.
  - rewrite get_delete_ne by exact Hne. apply Hw.
Qed.

Lemma refs_valid_same w v :
  refs_valid w -> subscriptions v = subscriptions w ->
  length (maps v) = length (maps w) -> refs_valid v.
Proof. intros Hw Hs Hl sid r. rewrite Hs, Hl. apply Hw. Qed.

(** The synchronous notifications to a subscription that is not recorded
    yet. *)
Lemma forEach_notify_unrecorded s ns : forall w sub,
  subs w !! s = Some sub ->
  JsMap.get (obs_ws sub) (deref (obs_streamSubs sub) w) = None ->
  let w' := exec (forEach ns (Subscriber_notify s)) w in
  streams w' = streams w /\ subscriptions w' = subscriptions w /\
  maps w' = maps w /\
  (subs w' = subs w \/ subs w' = alter close s (subs w)).
Proof.
  induction ns as [|n rest IH]; intros w sub Hs Habs; simpl.
  - auto.
  - unfold exec in *. simpl. rewrite bind_unfold.
    rewrite (Subscriber_notify_eq _ _ _ _ Hs).
    destruct (closed sub) eqn:Hc.
    + apply (IH w sub Hs Habs).
    + assert (Hstep :
        streams (notified s sub n w) = streams w /\
        subscriptions (notified s sub n w) = subscriptions w /\
        maps (notified s sub n w) = maps w /\
        (subs (notified s sub n w) = subs w /\
         subs (notified s sub n w) !! s = Some sub \/
         subs (notified s sub n w) = alter close s (subs w) /\
         subs (notified s sub n w) !! s = Some (close sub))).
      { destruct n as [value|[text|]|]; simpl;
          rewrite ?(alter_delete_absent _ _ _ Habs);
          repeat split; auto; right;
          (split; [reflexivity|]);
          rewrite list_lookup_alter_eq, Hs; reflexivity. }
      destruct Hstep as (E1 & E2 & E3 & E4).
      destruct E4 as [[E4 Hs']|[E4 Hs']].
      * destruct (IH (notified s sub n w) sub Hs') as (F1 & F2 & F3 & F4).
        { unfold deref. rewrite E3. exact Habs. }
        rewrite F1, F2, F3, E1, E2, E3. repeat split; auto.
        rewrite E4 in F4. exact F4.
      * destruct (IH (notified s sub n w) (close sub) Hs') as (F1 & F2 & F3 & F4).
        { unfold deref. rewrite E3. exact Habs. }
        rewrite F1, F2, F3, E1, E2, E3. repeat split; auto.
        right. destruct F4 as [F4|F4]; rewrite F4, E4; [reflexivity|].
        rewrite list_alter_alter_eq. reflexivity.
Qed.

Lemma has_false_get {K V} `{EqDecision K} (k : K) (m : list (K * V)) :
  JsMap.has k m = false -> JsMap.get k m = None.
Proof. unfold JsMap.has. destruct (JsMap.get k m); [discriminate | reflexivity]. Qed.

Lemma handleSubscribe_subscribed ws streamId w config streamSubs :
  JsMap.get streamId (streams w) = Some config ->
  JsMap.get streamId (subscriptions w) = Some streamSubs ->
  JsMap.has ws (deref streamSubs w) = false ->
  let w' := exec (handleSubscribe ws streamId) w in
  let sub := {| closed := false; obs_ws := ws; obs_streamId := streamId;
                obs_streamSubs := streamSubs;
                throwing_teardown :=
                  teardown_throws (observable config) (length (subs w)) |} in
  streams w' = streams w /\ subscriptions w' = subscriptions w /\
  (result (handleSubscribe ws streamId) w = Normal tt /\
   maps w' = alter (JsMap.set ws (length (subs w))) streamSubs (maps w) /\
   (subs w' = subs w ++ [sub] \/ subs w' = subs w ++ [close sub]) \/
   result (handleSubscribe ws streamId) w = Throw "Error" /\
   maps w' = maps w /\ subs w' = subs w ++ [close sub]).
Proof.
  intros Hs Hsubs Hhas w' sub. subst w'.
  unfold result, exec, handleSubscribe. repeat mstep.
  rewrite Hs, Hsubs, Hhas. unfold Date_now. repeat mstep.
  rewrite sendMessage_eq. unfold Observable_subscribe. repeat mstep.
  set (w1 := with_subs _ _).
  set (s := length _).
  assert (subs w1 !! s = Some sub) as Hnew.
  { subst w1 s. simpl. apply list_lookup_middle. reflexivity. }
  pose proof (forEach_notify_unrecorded s
                (on_subscribe (observable config) s) w1 sub Hnew) as Hloop.
  simpl in Hloop. specialize (Hloop (has_false_get _ _ Hhas)).
  unfold exec in Hloop.
  destruct (forEach (on_subscribe (observable config) s) (Subscriber_notify s) w1)
    as [[[]|e] w2] eqn:Hrun.
  - repeat mstep. simpl in Hloop.
    destruct Hloop as (F1 & F2 & F3 & F4).
    destruct F4 as [F4|F4]; rewrite F4.
    + change (subs w1) with (subs w ++ [sub]). subst s.
      rewrite list_lookup_middle by reflexivity. simpl.
      unfold Map_set. repeat mstep. simpl. rewrite F1, F2, F3, F4.
      repeat split; auto.
    + change (subs w1) with (subs w ++ [sub]). subst s.
      rewrite alter_last, list_lookup_middle by reflexivity. simpl.
      destruct (subscribe_throws (observable config) (length (subs w))).
      * repeat mstep. simpl. rewrite F1, F2, F3, F4.
        change (subs w1) with (subs w ++ [sub]). rewrite alter_last.
        repeat split; auto.
      * unfold Map_set. repeat mstep. simpl. rewrite F1, F2, F3, F4.
        change (subs w1) with (subs w ++ [sub]). rewrite alter_last.
        repeat split; auto.
  - exfalso.
    assert (never_throws
              (forEach (on_subscribe (observable config) s) (Subscriber_notify s)))
      as Hnt.
    { apply nt_forEach. intros. apply nt_Subscriber_notify. }
    destruct (Hnt w1) as [a Ha]. unfold result in Ha. rewrite Hrun in Ha.
    discriminate.
Qed.

Lemma tracked_subscribed ws streamId w v streamSubs c t :
  tracked w -> refs_valid w ->
  JsMap.get streamId (subscriptions w) = Some streamSubs ->
  JsMap.get ws (deref streamSubs w) = None ->
  subscriptions v = subscriptions w ->
  maps v = alter (JsMap.set ws (length (subs w))) streamSubs (maps w) ->
  subs v = subs w ++ [{| closed := c; obs_ws := ws; obs_streamId := streamId;
                         obs_streamSubs := streamSubs;
                         throwing_teardown := t |}] ->
  tracked v.
Proof.
  intros Hw Hval Hsubs Habs Hreg Hmaps Hnew s sub Hs Hlive.
  rewrite Hnew in Hs. rewrite Hreg.
  rewrite (deref_alter _ streamSubs _ v w Hmaps).
  pose proof (Hval _ _ Hsubs) as Hlt.
  destruct (lookup_lt_is_Some_2 _ _ Hlt) as [m Hm].
  assert (Hm' : deref streamSubs w = m) by (unfold deref; rewrite Hm; reflexivity).
  destruct (decide (s < length (subs w))) as [Hold|Hge].
  - rewrite lookup_app_l in Hs by exact Hold.
    destruct (Hw s sub Hs Hlive) as [H1 H2]. split; [exact H1|].
    destruct (decide (obs_streamSubs sub = streamSubs)) as [E|Hne]; [|exact H2].
    rewrite Hm. simpl. rewrite E, Hm' in H2.
    destruct (decide (ws = obs_ws sub)) as [E'|Hne'].
    + rewrite E', Hm' in Habs. congruence.
    + rewrite get_set_ne by exact Hne'. exact H2.
  - assert (s = length (subs w)) as ->.
    { apply lookup_lt_Some in Hs. rewrite length_app in Hs. simpl in Hs. lia. }
    rewrite list_lookup_middle in Hs by reflexivity. injection Hs as <-.
    simpl. split; [exact Hsubs|].
    destruct (decide (streamSubs = streamSubs)); [|contradiction].
    rewrite Hm. simpl. apply get_set_eq.
Qed.

(** a subscription that ends inside [subscribe] and is not recorded *)
Lemma tracked_refused w v sub :
  tracked w -> subscriptions v = subscriptions w -> maps v = maps w ->
  subs v = subs w ++ [close sub] -> tracked v.
Proof.
  intros Hw Hreg Hmaps Hnew s sub' Hs Hlive.
  rewrite Hnew in Hs. rewrite Hreg. unfold deref. rewrite Hmaps.
  destruct (decide (s < length (subs w))) as [Hold|Hge].
  - rewrite lookup_app_l in Hs by exact Hold. apply (Hw s sub' Hs Hlive).
  - assert (s = length (subs w)) as ->.
    { apply lookup_lt_Some in Hs. rewrite length_app in Hs. simpl in Hs. lia. }
    rewrite list_lookup_middle in Hs by reflexivity. injection Hs as <-.
    discriminate.
Qed.

Lemma try_catch_normal {A} (m : M A) h w a w' :
  m w = (Normal a, w') -> try_catch m h w = (Normal a, w').
Proof. intros H. unfold try_catch. rewrite H. reflexivity. Qed.

Lemma handleUnsubscribe_eq ws streamId w :
  handleUnsubscribe ws streamId w =
  match JsMap.get streamId (subscriptions w) with
  | Some streamSubs =>
      (unsubscription (drop_throws ws streamSubs w), dropped ws streamSubs w)
  | None => (Normal tt, w)
  end.
Proof.
  unfold handleUnsubscribe, drop_throws, dropped. repeat mstep.
  destruct (JsMap.get streamId (subscriptions w)) as [r|]; [|reflexivity].
  destruct (JsMap.get ws (deref r w)) as [sub|]; [|reflexivity].
  rewrite bind_unfold, Subscription_unsubscribe_eq.
  destruct (unsubscribe_throws sub w); reflexivity.
Qed.

(** What a message can do: nothing, a subscribe or an unsubscribe; what
    these throw is caught. *)
Lemma handleMessage_cases ws message w :
  handleMessage ws message w = (Normal tt, w) \/
  (exists streamId,
     handleMessage ws message w =
       (Normal tt, exec (handleSubscribe ws streamId) w)) \/
  (exists streamId,
     handleMessage ws message w =
       (Normal tt, exec (handleUnsubscribe ws streamId) w)).
Proof.
  unfold handleMessage, try_catch. repeat mstep.
  destruct (JSON_parse message) as [parsed|e]; repeat mstep; [|left; reflexivity].
  unfold isClientMessage.
  destruct (get_prop "type" parsed) as [ty|e] eqn:Hty; repeat mstep;
    [|left; reflexivity].
  destruct (strict_eq_str ty "subscribe" || strict_eq_str ty "unsubscribe");
    simpl; [|left; reflexivity].
  unfold handleClientMessage, with_streamId. repeat mstep. rewrite Hty.
  repeat mstep.
  destruct (strict_eq_str ty "subscribe").
  - repeat mstep.
    destruct (get_prop "streamId" parsed) as [sid|e]; repeat mstep;
      [|left; reflexivity].
    destruct sid; try (left; reflexivity).
    right. left. exists s. unfold exec.
    destruct (handleSubscribe ws s w) as [[[]|e] w']; reflexivity.
  - destruct (strict_eq_str ty "unsubscribe"); [|left; reflexivity].
    repeat mstep.
    destruct (get_prop "streamId" parsed) as [sid|e]; repeat mstep;
      [|left; reflexivity].
    destruct sid; try (left; reflexivity).
    right. right. exists s. unfold exec. rewrite handleUnsubscribe_eq.
    destruct (JsMap.get s (subscriptions w)) as [r|]; [|reflexivity].
    destruct (drop_throws ws r w); reflexivity.
Qed.

Lemma consistent_subscribe ws streamId w :
  consistent w -> consistent (exec (handleSubscribe ws streamId) w).
Proof.
  intros Hw. pose proof Hw as (Hreg & Htr & Hval).
  destruct (JsMap.get streamId (streams w)) as [config|] eqn:Hs.
  2:{ unfold exec, handleSubscribe. repeat mstep. rewrite Hs. exact Hw. }
  destruct (JsMap.get streamId (subscriptions w)) as [r|] eqn:Hsubs.
  2:{ unfold exec, handleSubscribe. repeat mstep. rewrite Hs, Hsubs. exact Hw. }
  destruct (JsMap.has ws (deref r w)) eqn:Hhas.
  { unfold exec. rewrite (duplicate_subscribe_is_noop _ _ _ _ Hsubs Hhas).
    exact Hw. }
  destruct (handleSubscribe_subscribed ws streamId w config r Hs Hsubs Hhas)
    as (F1 & F2 & [(_ & F3 & F4)|(_ & F3 & F4)]).
  - split; [|split].
    + unfold registry_ok in *. rewrite F1, F2. exact Hreg.
    + destruct F4 as [F4|F4];
        eapply (tracked_subscribed ws streamId w _ r _ _ Htr Hval Hsubs
                  (has_false_get _ _ Hhas) F2 F3); exact F4.
    + eapply refs_valid_same; [exact Hval | exact F2 |].
      rewrite F3. apply length_alter.
  - split; [|split].
    + unfold registry_ok in *. rewrite F1, F2. exact Hreg.
    + eapply tracked_refused; [exact Htr | exact F2 | exact F3 | exact F4].
    + eapply refs_valid_same; [exact Hval | exact F2 |].
      rewrite F3. reflexivity.
Qed.

Lemma same_shape_refl w : same_shape w w.
Proof. split; reflexivity. Qed.

Lemma same_shape_trans a b c :
  same_shape a b -> same_shape b c -> same_shape a c.
Proof. intros [? ?] [? ?]. split; congruence. Qed.

#[local] Hint Resolve same_shape_refl same_shape_trans : core.

Ltac shape_leaf :=
  split; [reflexivity | simpl; rewrite ?length_alter; reflexivity].

Lemma handleMessage_shape ws message : keeps same_shape (handleMessage ws message).
Proof. repeat keeps_step shape_leaf. Qed.

Lemma Subscriber_notify_shape s n : keeps same_shape (Subscriber_notify s n).
Proof. repeat keeps_step shape_leaf. Qed.

Lemma handleConnection_shape ws : keeps same_shape (handleConnection ws).
Proof. repeat keeps_step shape_leaf. Qed.

Lemma handleDisconnection_shape ws : keeps same_shape (handleDisconnection ws).
Proof. repeat keeps_step shape_leaf. Qed.

Lemma refs_valid_shape w w' : same_shape w w' -> refs_valid w -> refs_valid w'.
Proof. intros [Hs Hl] Hw. eapply refs_valid_same; eauto. Qed.

Lemma same_heap_refl w : same_heap w w.
Proof. repeat split; reflexivity. Qed.

Lemma same_heap_trans a b c :
  same_heap a b -> same_heap b c -> same_heap a c.
Proof. intros (? & ? & ?) (? & ? & ?). repeat split; congruence. Qed.

#[local] Hint Resolve same_heap_refl same_heap_trans : core.

Ltac heap_leaf := repeat split; reflexivity.

Lemma handleConnection_heap ws : keeps same_heap (handleConnection ws).
Proof. repeat keeps_step heap_leaf. Qed.

Lemma tracked_heap w w' : same_heap w w' -> tracked w -> tracked w'.
Proof. intros (H1 & H2 & H3) Hw. eapply tracked_same; eauto. Qed.

Lemma consistent_perform a w :
  consistent w -> fresh_registration a w -> consistent (exec (perform a) w).
Proof.
  intros Hw Hfresh. pose proof Hw as (Hreg & Htr & Hval).
  split; [apply perform_registry_ok, Hreg|].
  destruct a; simpl in *.
  - unfold exec. rewrite registerStream_eq. simpl. split.
    + apply tracked_registered; assumption.
    + apply refs_valid_registered, Hval.
  - unfold exec. rewrite unregisterStream_eq. simpl. split.
    + apply tracked_unregistered, Htr.
    + apply refs_valid_unregistered, Hval.
  - split.
    + eapply tracked_heap; [apply handleConnection_heap | exact Htr].
    + eapply refs_valid_shape; [apply handleConnection_shape | exact Hval].
  - split.
    + unfold exec. rewrite handleDisconnection_eq. simpl.
      apply tracked_dropped_all.
      eapply tracked_same; [exact Htr | reflexivity..].
    + eapply refs_valid_shape; [apply handleDisconnection_shape | exact Hval].
  - split.
    + destruct (handleMessage_cases ws message w) as [E|[[sid E]|[sid E]]];
        unfold exec at 1; rewrite E.
      * exact Htr.
      * apply (consistent_subscribe ws sid w Hw).
      * simpl. unfold exec. rewrite handleUnsubscribe_eq.
        destruct (JsMap.get sid (subscriptions w)); [|exact Htr].
        apply tracked_dropped, Htr.
    + eapply refs_valid_shape; [apply handleMessage_shape | exact Hval].
  - split.
    + unfold exec. destruct (subs w !! s) as [sub|] eqn:Hs.
      * rewrite (Subscriber_notify_eq _ _ _ _ Hs).
        destruct (closed sub) eqn:Hc; [exact Htr|].
        apply tracked_notified; assumption.
      * unfold Subscriber_notify. repeat mstep. rewrite Hs. exact Htr.
    + eapply refs_valid_shape; [apply Subscriber_notify_shape | exact Hval].
  - split; [eapply tracked_same; [exact Htr | reflexivity..] | exact Hval].
  - split; [eapply tracked_same; [exact Htr | reflexivity..] | exact Hval].
Qed.

Lemma consistent_new : consistent new_bridge.
Proof.
  split; [reflexivity|]. split.
  - intros s sub H. simpl in H. rewrite lookup_nil in H. discriminate.
  - intros sid r H. discriminate.
Qed.

Lemma consistent_run trace : forall w,
  consistent w -> registers_fresh trace w -> consistent (run trace w).
Proof.
  induction trace as [|a rest IH]; intros w Hw Hf; simpl; [exact Hw|].
  destruct Hf as [Ha Hrest]. apply IH; [|exact Hrest].
  apply consistent_perform; assumption.
Qed.

Section Counting.
Context {A : Type} (P : A -> Prop) `{forall x, Decision (P x)}.

Lemma filter_none (l : list A) :
  (forall i x, l !! i = Some x -> ~ P x) -> filter P l = [].
Proof.
  induction l as [|a r IH]; intros Hn; [reflexivity|].
  rewrite filter_cons. destruct (decide (P a)) as [Ha|_].
  - exfalso. apply (Hn 0 a eq_refl Ha).
  - apply IH. intros i x Hi. apply (Hn (S i) x Hi).
Qed.

Lemma filter_at_most_one (l : list A) :
  (forall i j x y, l !! i = Some x -> l !! j = Some y -> P x -> P y -> i = j) ->
  length (filter P l) <= 1.
Proof.
  induction l as [|a r IH]; intros Hu; [simpl; lia|].
  rewrite filter_cons. destruct (decide (P a)) as [Ha|_].
  - rewrite filter_none; [simpl; lia|].
    intros i x Hi Hx. specialize (Hu 0 (S i) a x eq_refl Hi Ha Hx). discriminate.
  - apply IH. intros i j x y Hi Hj Hx Hy.
    specialize (Hu (S i) (S j) x y Hi Hj Hx Hy). lia.
Qed.
End Counting.

Lemma is_live_for_spec streamId ws sub :
  is_live_for streamId ws sub = true <->
  closed sub = false /\ obs_streamId sub = streamId /\ obs_ws sub = ws.
Proof.
  unfold is_live_for. rewrite !andb_true_iff, negb_true_iff.
  rewrite String.eqb_eq, Nat.eqb_eq. tauto.
Qed.

Lemma tracked_at_most_one w streamId ws :
  tracked w -> live_count streamId ws w <= 1.
Proof.
  intros Hw. unfold live_count. apply filter_at_most_one.
  intros i j x y Hi Hj Hx Hy.
  apply is_live_for_spec in Hx as (Hcx & Hsx & Hwx).
  apply is_live_for_spec in Hy as (Hcy & Hsy & Hwy).
  destruct (Hw i x Hi Hcx) as [X1 X2].
  destruct (Hw j y Hj Hcy) as [Y1 Y2].
  rewrite Hsx in X1. rewrite Hsy in Y1. rewrite Hwx in X2. rewrite Hwy in Y2.
  congruence.
Qed.

Lemma live_count_zero streamId ws w :
  (forall s sub, subs w !! s = Some sub ->
                 is_live_for streamId ws sub = true -> False) ->
  live_count streamId ws w = 0.
Proof.
  intros H. unfold live_count. rewrite filter_none; [reflexivity|].
  intros i x Hi Hx. exact (H i x Hi Hx).
Qed.

Lemma unsubscription_normal b : unsubscription b = Normal tt -> b = false.
Proof. destruct b; [discriminate | reflexivity]. Qed.

Lemma disconnected_unrecorded ws w streamId streamSubs :
  result (handleDisconnection ws) w = Normal tt ->
  JsMap.get streamId (subscriptions (exec (handleDisconnection ws) w))
    = Some streamSubs ->
  JsMap.get ws (deref streamSubs (exec (handleDisconnection ws) w)) = None.
Proof.
  unfold exec, result. rewrite handleDisconnection_eq. simpl.
  set (w1 := with_connections _ w). intros Ht.
  apply unsubscription_normal in Ht.
  destruct (dropped_all_frame ws (subscriptions w) w1) as (_ & Hsubs & _ & _).
  destruct (dropped_all_spec ws (subscriptions w) w1 Ht) as (Hc & _).
  intros Hget. rewrite Hsubs in Hget.
  apply (Hc (streamId, streamSubs)), get_Some_elem, Hget.
Qed.

(** * The claims *)

(** ** C1: at most one live subscription per pair *)

(** X1.  In every state reached without registering a registered id again,
    a pair of a stream and a connection has at most one live
    subscription. *)
Theorem at_most_one_live_subscription trace streamId ws :
  registers_fresh trace new_bridge ->
  live_count streamId ws (run trace new_bridge) <= 1.
Proof.
  intros Hf. apply tracked_at_most_one.
  apply (consistent_run trace new_bridge consistent_new Hf).
Qed.

Lemma at_most_one_live_subscription_witness :
  registers_fresh twice_subscribed new_bridge /\
  live_count "s" 0 (run twice_subscribed new_bridge) <= 1.
Proof.
  assert (H : registers_fresh twice_subscribed new_bridge).
  { vm_compute. repeat split. }
  split; [exact H | exact (at_most_one_live_subscription _ "s" 0 H)].
Defined.

(** X2.  In such a state a subscribe request for a pair that has a live
    subscription does nothing: no frame, no new subscription, no change of
    state. *)
Theorem subscribe_to_live_pair_is_noop trace streamId ws :
  registers_fresh trace new_bridge ->
  0 < live_count streamId ws (run trace new_bridge) ->
  handleSubscribe ws streamId (run trace new_bridge) =
    (Normal tt, run trace new_bridge).
Proof.
  intros Hf Hlive.
  destruct (consistent_run trace new_bridge consistent_new Hf) as (_ & Htr & _).
  set (w := run trace new_bridge) in *.
  unfold live_count in Hlive.
  destruct (filter _ (subs w)) as [|sub rest] eqn:Hfil; [simpl in Hlive; lia|].
  assert (Hin : sub ∈ filter (fun s => is_live_for streamId ws s = true) (subs w)).
  { rewrite Hfil. left. }
  apply list_elem_of_filter in Hin as [Hp Hin].
  apply list_elem_of_lookup in Hin as [s Hs].
  apply is_live_for_spec in Hp as (Hc & Hsid & Hws).
  destruct (Htr s sub Hs Hc) as [H1 H2]. rewrite Hsid in H1. rewrite Hws in H2.
  apply (duplicate_subscribe_is_noop ws streamId w _ H1).
  unfold JsMap.has. rewrite H2. reflexivity.
Qed.

Lemma subscribe_to_live_pair_is_noop_witness :
  handleSubscribe 0 "s" (run twice_subscribed new_bridge) =
    (Normal tt, run twice_subscribed new_bridge).
Proof.
  apply subscribe_to_live_pair_is_noop.
  - vm_compute. repeat split.
  - vm_compute. lia.
Defined.

(** C1, at a run that breaks it.  Connection 0 subscribes to stream "s", the
    stream is registered again, and the client subscribes once more.  The
    pair had one live subscription before the second request; the request
    is not taken for a duplicate: it puts a second stream-info frame on the
    wire and attaches a second observer, so the pair has two live
    subscriptions. *)
Theorem resubscribe_after_reregistration :
  let w := exec (registerStream ticker) (subscribed_to ticker) in
  let w' := exec (handleMessage 0 (subscribe_text "s")) w in
  live_count "s" 0 w = 1 /\
  live_count "s" 0 w' = 2 /\
  wire w' = wire w ++ [(0, StreamInfoMessage "s" "S" None 0)].
Proof. vm_compute. repeat split. Qed.

(** ** C2: registering a stream again *)

(** C2, at a run that breaks it.  Connection 0 is subscribed to stream "s"
    and the stream is registered again.  [getSubscriptionCount] drops from 1
    to 0 although the subscription is still live, and neither an unsubscribe
    message nor the disconnection of the client cancels it afterwards. *)
Theorem reregistration_loses_subscriptions :
  let w0 := subscribed_to ticker in
  let w1 := exec (registerStream ticker) w0 in
  subscription_count "s" w0 = Normal 1 /\
  subscription_count "s" w1 = Normal 0 /\
  live_count "s" 0 w1 = 1 /\
  live_count "s" 0 (exec (handleMessage 0 (unsubscribe_text "s")) w1) = 1 /\
  live_count "s" 0 (exec (handleDisconnection 0) w1) = 1.
Proof. vm_compute. repeat split. Qed.

(** ** C3: terminal notifications *)

(** X7.  A terminal notification to a live subscription sends its frame (to
    an open connection), closes the subscription and, unless the error has
    no string form, removes the connection from the map the observer closed
    over; it is the last notification that has any effect. *)
Theorem terminal_notification_is_final s n w sub :
  subs w !! s = Some sub -> closed sub = false -> is_terminal n = true ->
  let w' := exec (Subscriber_notify s n) w in
  wire w' = wire w ++ emitted (obs_ws sub) (obs_streamId sub) n w /\
  is_closed s w' = true /\
  (n <> OnError None ->
   JsMap.get (obs_ws sub) (deref (obs_streamSubs sub) w') = None) /\
  forall n', Subscriber_notify s n' w' = (Normal tt, w').
Proof.
  intros Hs Hc Hn w'. subst w'. unfold exec.
  rewrite (Subscriber_notify_eq _ _ _ _ Hs), Hc.
  assert (Hsub : subs (notified s sub n w) !! s = Some (close sub)).
  { destruct n as [value|[text|]|]; [discriminate | | |]; simpl;
      rewrite list_lookup_alter_eq, Hs; reflexivity. }
  repeat split.
  - destruct n as [value|[text|]|]; [discriminate | | |]; simpl;
      rewrite ?app_nil_r; reflexivity.
  - unfold is_closed. simpl (snd _). rewrite Hsub. reflexivity.
  - intros Hframe.
    destruct n as [value|[text|]|]; [discriminate | | congruence |];
      unfold deref; simpl; rewrite list_lookup_alter_eq;
      (destruct (maps w !! obs_streamSubs sub); simpl;
       [apply get_delete_eq | reflexivity]).
  - intros n'. simpl (snd _).
    rewrite (Subscriber_notify_eq _ _ _ _ Hsub). reflexivity.
Qed.

Lemma terminal_notification_is_final_witness :
  is_closed 0 (exec (Subscriber_notify 0 OnComplete) (subscribed_to ticker))
    = true /\
  JsMap.get 0
    (deref 0 (exec (Subscriber_notify 0 OnComplete) (subscribed_to ticker)))
    = None.
Proof.
  pose proof (terminal_notification_is_final 0 OnComplete
                (subscribed_to ticker)
                {| closed := false; obs_ws := 0; obs_streamId := "s";
                   obs_streamSubs := 0; throwing_teardown := false |}
                eq_refl eq_refl eq_refl) as H.
  split; [exact (proj1 (proj2 H)) | apply (proj1 (proj2 (proj2 H)))].
  discriminate.
Defined.

(** A producer that fails with [null] after [subscribe] returned: the
    error callback throws at [error.toString()] before it sends or cleans
    up, so no frame is sent and the closed subscription stays counted. *)
Example error_without_string_form :
  wire (exec (Subscriber_notify 0 (OnError None)) (subscribed_to ticker)) =
    wire (subscribed_to ticker) /\
  live_count "s" 0
    (exec (Subscriber_notify 0 (OnError None)) (subscribed_to ticker)) = 0 /\
  subscription_count "s"
    (exec (Subscriber_notify 0 (OnError None)) (subscribed_to ticker)) =
    Normal 1.
Proof. vm_compute. repeat split. Qed.

(** C3, at runs that break it.  The producer of stream "s" completes (or
    fails) inside the call of [subscribe].  The complete (or error) frame is
    sent and the subscription is closed, yet [getSubscriptionCount] goes on
    counting the connection: the entry is written after the observer tried
    to remove it. *)
Theorem synchronous_completion_stays_counted :
  sent_to 0 (subscribed_to just_one) =
    [StreamsListMessage 0 []; catalog_s; StreamInfoMessage "s" "S" None 0;
     NextMessage "s" (JNum "1") 0; CompleteMessage "s" 0] /\
  live_count "s" 0 (subscribed_to just_one) = 0 /\
  subscription_count "s" (subscribed_to just_one) = Normal 1 /\
  sent_to 0 (subscribed_to fails_at_once) =
    [StreamsListMessage 0 []; catalog_s; StreamInfoMessage "s" "S" None 0;
     ErrorMessage "s" "Error: boom" 0] /\
  live_count "s" 0 (subscribed_to fails_at_once) = 0 /\
  subscription_count "s" (subscribed_to fails_at_once) = Normal 1.
Proof. vm_compute. repeat split. Qed.

(** ** C4: unregistering a stream *)




(** X6.  In a state reached without registering a registered id again, an
    [unregisterStream] that returns normally leaves no live subscription to
    the stream. *)
Theorem unregister_cancels_all trace streamId ws :
  registers_fresh trace new_bridge ->
  result (unregisterStream streamId) (run trace new_bridge) = Normal tt ->
  live_count streamId ws
    (exec (unregisterStream streamId) (run trace new_bridge)) = 0.
Proof.
  intros Hf Hr.
  pose proof (consistent_run trace new_bridge consistent_new Hf) as Hw.
  destruct (consistent_perform (UnregisterStream streamId) _ Hw I)
    as (_ & Htr & _).
  simpl in Htr. apply live_count_zero. intros s sub Hs Hlive.
  apply is_live_for_spec in Hlive as (Hc & Hsid & Hws).
  destruct (Htr s sub Hs Hc) as [H1 _]. rewrite Hsid in H1.
  unfold exec in H1. unfold result in Hr.
  rewrite unregisterStream_eq in H1, Hr. simpl in H1, Hr.
  apply unsubscription_normal in Hr. unfold unregistered in H1.
  rewrite Hr in H1. simpl in H1.
  rewrite get_delete_eq in H1. discriminate.
Qed.

Lemma unregister_cancels_all_witness :
  live_count "s" 0
    (exec (unregisterStream "s") (run twice_subscribed new_bridge)) = 0.
Proof.
  apply unregister_cancels_all.
  - vm_compute. repeat split.
  - reflexivity.
Defined.

(** ** C5: disconnection *)

(** X3.  [handleDisconnection(ws)] removes [ws] from the connection set
    before anything else, sends nothing and leaves the catalog and the
    matrix entries in place.  It returns normally or throws the
    UnsubscriptionError of an [unsubscribe()].  When it returns normally, no
    matrix entry holds [ws] any more and every subscription an entry held
    for [ws] is closed; it does return normally when no subscription an
    entry holds for [ws] is open with a teardown that throws. *)
Theorem handleDisconnection_cleanup ws w :
  let w' := exec (handleDisconnection ws) w in
  connections w' = JsSet.delete ws (connections w) /\
  (ws ∉ connections w') /\
  streams w' = streams w /\ subscriptions w' = subscriptions w /\
  wire w' = wire w /\
  (result (handleDisconnection ws) w = Normal tt \/
   result (handleDisconnection ws) w = Throw "UnsubscriptionError") /\
  (result (handleDisconnection ws) w = Normal tt ->
   (forall streamId streamSubs,
      JsMap.get streamId (subscriptions w') = Some streamSubs ->
      JsMap.get ws (deref streamSubs w') = None) /\
   (forall streamId streamSubs sub,
      JsMap.get streamId (subscriptions w) = Some streamSubs ->
      JsMap.get ws (deref streamSubs w) = Some sub ->
      is_closed sub w' = true)) /\
  ((forall streamId streamSubs sub,
      (streamId, streamSubs) ∈ subscriptions w ->
      JsMap.get ws (deref streamSubs w) = Some sub ->
      unsubscribe_throws sub w = false) ->
   result (handleDisconnection ws) w = Normal tt).
Proof.
  unfold exec, result. rewrite handleDisconnection_eq. simpl.
  set (w1 := with_connections _ w).
  destruct (dropped_all_frame ws (subscriptions w) w1)
    as (Hstr & Hsubs & Hconn & Hwire).
  split; [exact Hconn|].
  split; [rewrite Hconn; apply JsSet_delete_gone|].
  split; [exact Hstr|]. split; [exact Hsubs|]. split; [exact Hwire|].
  split; [destruct (drop_all_throws _ _ _); auto|].
  split.
  - intros Ht. apply unsubscription_normal in Ht.
    destruct (dropped_all_spec ws (subscriptions w) w1 Ht) as (Hc & Hd).
    split.
    + intros streamId streamSubs Hget. rewrite Hsubs in Hget.
      apply (Hc (streamId, streamSubs)), get_Some_elem, Hget.
    + intros streamId streamSubs sub Hget Hsub.
      apply (Hd (streamId, streamSubs) sub);
        [apply get_Some_elem, Hget | exact Hsub].
  - intros Hnone.
    rewrite (drop_all_returns ws (subscriptions w) w1); [reflexivity|].
    intros [sid r] sub Hin Hget. apply (Hnone sid r sub Hin Hget).
Qed.

(** X4.  For a connection the bridge does not know (not in the connection
    set, in no inner map of the matrix) [handleDisconnection] changes
    nothing. *)
Theorem handleDisconnection_unknown ws w :
  ws ∉ connections w ->
  (forall streamId streamSubs,
     (streamId, streamSubs) ∈ subscriptions w ->
     JsMap.get ws (deref streamSubs w) = None) ->
  handleDisconnection ws w = (Normal tt, w).
Proof.
  intros Hc Hs. rewrite handleDisconnection_eq, JsSet_delete_absent by exact Hc.
  assert (E : with_connections (connections w) w = w) by (destruct w; reflexivity).
  rewrite E.
  destruct (dropped_all_absent ws (subscriptions w) w) as [-> ->];
    [|reflexivity].
  intros [sid r] Hin. apply (Hs sid r Hin).
Qed.

Lemma handleDisconnection_unknown_witness :
  handleDisconnection 5 (subscribed_to ticker) =
    (Normal tt, subscribed_to ticker).
Proof.
  apply handleDisconnection_unknown.
  - vm_compute. intros H. apply list_elem_of_In in H. simpl in H.
    destruct H as [H|[]]. discriminate H.
  - intros streamId streamSubs H. apply list_elem_of_In in H.
    vm_compute in H. destruct H as [H|[]]. injection H as _ <-. reflexivity.
Defined.

(** X5.  In a state reached without registering a registered id again, a
    [handleDisconnection] that returns normally leaves the connection no
    live subscription. *)
Theorem disconnection_cancels_all trace ws streamId :
  registers_fresh trace new_bridge ->
  result (handleDisconnection ws) (run trace new_bridge) = Normal tt ->
  live_count streamId ws
    (exec (handleDisconnection ws) (run trace new_bridge)) = 0.
Proof.
  intros Hf Hr.
  pose proof (consistent_run trace new_bridge consistent_new Hf) as Hw.
  destruct (consistent_perform (HandleDisconnection ws) _ Hw I) as (_ & Htr & _).
  simpl in Htr. apply live_count_zero. intros s sub Hs Hlive.
  apply is_live_for_spec in Hlive as (Hc & Hsid & Hws).
  destruct (Htr s sub Hs Hc) as [H1 H2].
  apply (disconnected_unrecorded _ _ _ _ Hr) in H1. rewrite Hws in H2.
  congruence.
Qed.

Lemma disconnection_cancels_all_witness :
  live_count "s" 0
    (exec (handleDisconnection 0) (run twice_subscribed new_bridge)) = 0.
Proof.
  apply disconnection_cancels_all.
  - vm_compute. repeat split.
  - reflexivity.
Defined.

(** C5, at a run that breaks it.  Connection 0 is subscribed to stream "s",
    the stream is registered again, and the client disconnects.  The
    unsubscribe of its subscription is never called: the subscription stays
    live, and the next value of the producer is sent to the connection that
    is gone. *)
Theorem disconnection_misses_orphaned_subscription :
  let w1 := exec (registerStream ticker) (subscribed_to ticker) in
  let w2 := exec (handleDisconnection 0) w1 in
  live_count "s" 0 w1 = 1 /\
  live_count "s" 0 w2 = 1 /\
  wire (exec (Subscriber_notify 0 (OnNext (JNum "7"))) w2) =
    wire w2 ++ [(0, NextMessage "s" (JNum "7") 0)].
Proof. vm_compute. repeat split. Qed.

(** ** C6: malformed and server-typed input *)

(** C6.  When the text does not parse, or parses to a value that
    [isClientMessage] does not accept (its type is none of 'subscribe' and
    'unsubscribe', or it has no readable type at all), [handleMessage]
    returns normally and leaves the whole state, wire included, as it
    was. *)
Theorem handleMessage_rejects ws message w :
  (exists exn, JSON_parse message = Throw exn) \/
  (exists parsed, JSON_parse message = Normal parsed /\
                  isClientMessage parsed <> Normal true) ->
  handleMessage ws message w = (Normal tt, w).
Proof.
  intros [[exn Hp]|[parsed [Hp Hc]]]; unfold handleMessage, try_catch;
    repeat mstep; rewrite Hp; repeat mstep; [reflexivity|].
  destruct (isClientMessage parsed) as [[|]|e]; [congruence | |]; reflexivity.
Qed.

Lemma handleMessage_rejects_witness :
  handleMessage 0 "{not json" (subscribed_to ticker) =
    (Normal tt, subscribed_to ticker) /\
  handleMessage 0 ("{" +:+ q "type" +:+ ":" +:+ q "next" +:+ "," +:+
                   q "streamId" +:+ ":" +:+ q "s" +:+ "}")
    (subscribed_to ticker) = (Normal tt, subscribed_to ticker).
Proof.
  split; apply handleMessage_rejects.
  - left. exists "SyntaxError". reflexivity.
  - right. eexists. split; [reflexivity | discriminate].
Defined.

(** The text [null] parses, and reading its [type] throws inside the
    [try]: the message is dropped like the others. *)
Lemma handleMessage_null ws w : handleMessage ws "null" w = (Normal tt, w).
Proof. reflexivity. Qed.

(** ** C7: the send discipline *)

(** C7.  [sendMessage] sends only to a connection whose [readyState] is 1.
    To any other connection it sends nothing and changes nothing; when
    [send] throws, the exception is caught and nothing changes either; in
    both cases it returns normally.  A value a producer emits to a live
    subscription whose connection is in one of these two states leaves the
    whole state as it was, so the subscription stays live and recorded.
    Whatever the bridge does, each frame it puts on the wire goes to a
    connection that is open at that moment. *)
Theorem send_discipline ws message w :
  (readyState (sockets w ws) <> 1%Z ->
   sendMessage ws message w = (Normal tt, w)) /\
  (readyState (sockets w ws) = 1%Z -> send_throws (sockets w ws) = true ->
   sendMessage ws message w = (Normal tt, w)) /\
  (readyState (sockets w ws) = 1%Z -> send_throws (sockets w ws) = false ->
   sendMessage ws message w =
     (Normal tt, with_wire (wire w ++ [(ws, message)]) w)) /\
  (forall s sub value,
     subs w !! s = Some sub -> closed sub = false -> obs_ws sub = ws ->
     readyState (sockets w ws) <> 1%Z \/ send_throws (sockets w ws) = true ->
     Subscriber_notify s (OnNext value) w = (Normal tt, w)) /\
  (forall a, exists l,
     wire (exec (perform a) w) = wire w ++ l /\
     forall c m, (c, m) ∈ l -> readyState (sockets w c) = 1%Z).
Proof.
  assert (Hdrop : forall m,
             readyState (sockets w ws) <> 1%Z \/
             send_throws (sockets w ws) = true ->
             sendMessage ws m w = (Normal tt, w)).
  { intros m H. rewrite sendMessage_eq. unfold emit, sendable.
    destruct H as [H|H].
    - apply Z.eqb_neq in H. rewrite H. simpl.
      rewrite app_nil_r, with_wire_same. reflexivity.
    - rewrite H, andb_false_r. rewrite app_nil_r, with_wire_same. reflexivity. }
  repeat split.
  - intros H. apply Hdrop. left. exact H.
  - intros _ H. apply Hdrop. right. exact H.
  - intros Ho Ht. rewrite sendMessage_eq. unfold emit, sendable.
    rewrite Ho, Ht. reflexivity.
  - intros s sub value Hs Hc Hws H.
    rewrite (Subscriber_notify_eq _ _ _ _ Hs), Hc.
    unfold notified, emitted. simpl. subst ws.
    pose proof (Hdrop (NextMessage (obs_streamId sub) value (clock w)) H) as E.
    rewrite sendMessage_eq in E. congruence.
  - intros a. destruct (perform_sent_while_open a w) as (l & Hl & Hopen).
    exists l. split; [exact Hl|]. intros c m Hin.
    specialize (Hopen (c, m) Hin). unfold sendable in Hopen. simpl in Hopen.
    apply andb_true_iff in Hopen as [Hopen _]. apply Z.eqb_eq, Hopen.
Qed.

Lemma send_discipline_witness :
  sendMessage 0 catalog_s socket_closed = (Normal tt, socket_closed) /\
  sendMessage 0 catalog_s socket_failing = (Normal tt, socket_failing) /\
  Subscriber_notify 0 (OnNext JNull) socket_closed = (Normal tt, socket_closed) /\
  live_count "s" 0 socket_closed = 1.
Proof.
  split; [|split; [|split]].
  - apply (proj1 (send_discipline 0 catalog_s socket_closed)).
    vm_compute. discriminate.
  - apply (proj1 (proj2 (send_discipline 0 catalog_s socket_failing)));
      reflexivity.
  - eapply (proj2 (proj2 (proj2 (send_discipline 0 catalog_s socket_closed)))).
    + reflexivity.
    + reflexivity.
    + reflexivity.
    + left. vm_compute. discriminate.
  - reflexivity.
Defined.

(** ** C8: stream-info comes first *)




(** ** C9: client and server messages *)

(** C9.  For every value whose [type] can be read, [isClientMessage] is true
    exactly when the type is 'subscribe' or 'unsubscribe', and
    [isServerMessage] is its negation, so exactly one of the two holds; of
    the seven types of the protocol the first two are the client's. *)
Theorem classification_partition (msg ty : JsValue) :
  get_prop "type" msg = Normal ty ->
  (isClientMessage msg = Normal true <->
   ty = JStr "subscribe" \/ ty = JStr "unsubscribe") /\
  (exists b, isClientMessage msg = Normal b /\
             isServerMessage msg = Normal (negb b)) /\
  (forall t : MessageType,
     ty = JStr (type_name t) ->
     isClientMessage msg =
       Normal (match t with
               | MT_subscribe | MT_unsubscribe => true
               | _ => false
               end)).
Proof.
  intros Hty. unfold isServerMessage, isClientMessage. rewrite Hty.
  split; [|split].
  - split.
    + intros [= H]. apply orb_true_iff in H as [H|H];
        destruct ty; try discriminate; simpl in H;
        apply String.eqb_eq in H; subst; auto.
    + intros [->| ->]; reflexivity.
  - eexists. split; reflexivity.
  - intros t ->. destruct t; reflexivity.
Qed.

Lemma classification_partition_witness :
  isClientMessage (JObj [("type", JStr "unsubscribe"); ("streamId", JStr "s")])
    = Normal true /\
  isClientMessage (JObj [("type", JStr "streams-list")]) = Normal false.
Proof.
  split.
  - apply (proj1 (classification_partition
                    (JObj [("type", JStr "unsubscribe"); ("streamId", JStr "s")])
                    (JStr "unsubscribe") eq_refl)).
    right. reflexivity.
  - exact (proj2 (proj2 (classification_partition
                           (JObj [("type", JStr "streams-list")])
                           (JStr "streams-list") eq_refl))
             MT_streams_list eq_refl).
Defined.

(** ** C10: the subscription count is total *)

(** C10.  [getSubscriptionCount] always returns a number and changes
    nothing.  It returns 0 for an id with no matrix entry: an id that is
    not registered in a reachable state, and an id that an
    [unregisterStream] which returned normally has just unregistered. *)
Theorem getSubscriptionCount_total (streamId : string) (w : World) :
  (exists n, getSubscriptionCount streamId w = (Normal n, w)) /\
  (JsMap.get streamId (subscriptions w) = None ->
   getSubscriptionCount streamId w = (Normal 0, w)) /\
  (reachable w -> JsMap.get streamId (streams w) = None ->
   getSubscriptionCount streamId w = (Normal 0, w)) /\
  (result (unregisterStream streamId) w = Normal tt ->
   subscription_count streamId (exec (unregisterStream streamId) w) = Normal 0).
Proof.
  assert (H0 : forall v, JsMap.get streamId (subscriptions v) = None ->
                         getSubscriptionCount streamId v = (Normal 0, v)).
  { intros v H. unfold getSubscriptionCount. repeat mstep. rewrite H.
    reflexivity. }
  split; [|split; [|split]].
  - unfold getSubscriptionCount. repeat mstep.
    destruct (JsMap.get streamId (subscriptions w)); eauto.
  - apply H0.
  - intros Hw Hs. apply H0.
    apply registry_ok_unknown; [apply reachable_registry_ok, Hw | exact Hs].
  - unfold subscription_count, result at 1. rewrite unregisterStream_eq.
    simpl. intros Hr. apply unsubscription_normal in Hr.
    unfold result. rewrite H0; [reflexivity|].
    unfold exec. rewrite unregisterStream_eq. simpl. unfold unregistered.
    rewrite Hr. apply get_delete_eq.
Qed.

Lemma getSubscriptionCount_total_witness :
  getSubscriptionCount "ghost" (subscribed_to ticker) =
    (Normal 0, subscribed_to ticker) /\
  getSubscriptionCount "s" new_bridge = (Normal 0, new_bridge).
Proof.
  split.
  - apply (proj1 (proj2 (getSubscriptionCount_total "ghost"
                           (subscribed_to ticker)))).
    reflexivity.
  - apply (proj1 (proj2 (proj2 (getSubscriptionCount_total "s" new_bridge)))).
    + exists []. reflexivity.
    + reflexivity.
Defined.

(** ** Further properties of the relay *)

(** X8.  What the public methods throw.  [registerStream],
    [handleConnection] and [handleMessage] never throw, whatever the state
    and the input.  [unregisterStream] and [handleDisconnection] return
    normally or throw the UnsubscriptionError of an [unsubscribe()], which
    they call outside every [try]; they return normally in every state
    where no open subscription has a teardown that throws. *)
Theorem what_public_operations_throw (w : World) :
  (forall config, result (registerStream config) w = Normal tt) /\
  (forall ws, result (handleConnection ws) w = Normal tt) /\
  (forall ws message, result (handleMessage ws message) w = Normal tt) /\
  (forall streamId,
     result (unregisterStream streamId) w = Normal tt \/
     result (unregisterStream streamId) w = Throw "UnsubscriptionError") /\
  (forall ws,
     result (handleDisconnection ws) w = Normal tt \/
     result (handleDisconnection ws) w = Throw "UnsubscriptionError") /\
  ((forall s sub, subs w !! s = Some sub -> closed sub = false ->
                  throwing_teardown sub = false) ->
   forall streamId ws,
     result (unregisterStream streamId) w = Normal tt /\
     result (handleDisconnection ws) w = Normal tt).
Proof.
  assert (Hquiet : (forall s sub, subs w !! s = Some sub -> closed sub = false ->
                                  throwing_teardown sub = false) ->
                   forall s, unsubscribe_throws s w = false).
  { intros H s. unfold unsubscribe_throws.
    destruct (subs w !! s) as [sub|] eqn:Hs; [|reflexivity].
    destruct (closed sub) eqn:Hc; [reflexivity|]. simpl. apply (H s sub Hs Hc). }
  split; [|split; [|split; [|split; [|split]]]].
  - intros config. destruct (nt_registerStream config w) as [[] H]. exact H.
  - intros ws. destruct (nt_handleConnection ws w) as [[] H]. exact H.
  - intros ws message. destruct (nt_handleMessage ws message w) as [[] H].
    exact H.
  - intros streamId. unfold result. rewrite unregisterStream_eq. simpl.
    destruct (unregister_throws streamId w); auto.
  - intros ws. unfold result. rewrite handleDisconnection_eq. simpl.
    destruct (drop_all_throws _ _ _); auto.
  - intros H streamId ws. specialize (Hquiet H). split.
    + unfold result. rewrite unregisterStream_eq. simpl.
      unfold unregister_throws.
      destruct (JsMap.get streamId (subscriptions w)) as [r|]; [|reflexivity].
      assert (existsb (fun s => unsubscribe_throws s w)
                (JsMap.values (deref r w)) = false) as ->; [|reflexivity].
      induction (JsMap.values (deref r w)) as [|s l IH]; simpl; [reflexivity|].
      rewrite Hquiet. exact IH.
    + unfold result. rewrite handleDisconnection_eq. simpl.
      rewrite drop_all_returns; [reflexivity|].
      intros entry sub _ _. apply (Hquiet sub).
Qed.

(** X9.  In every reachable state the matrix has an entry for exactly the
    registered streams. *)
Theorem registry_keys_agree (w : World) :
  reachable w -> JsMap.keys (streams w) = JsMap.keys (subscriptions w).
Proof. apply reachable_registry_ok. Qed.

Lemma registry_keys_agree_witness :
  JsMap.keys (streams (subscribed_to ticker)) =
  JsMap.keys (subscriptions (subscribed_to ticker)).
Proof.
  apply registry_keys_agree. exists
    [HandleConnection 0; RegisterStream ticker;
     HandleMessage 0 (subscribe_text "s")].
  reflexivity.
Defined.

(** X10.  [handleUnsubscribe] sends nothing and leaves the catalog, the
    matrix entries and the connection set in place.  Without a matching
    subscription it returns normally and changes nothing.  Otherwise it
    closes the subscription; when [unsubscribe()] returns it removes the
    connection from the stream's matrix entry and returns normally, and
    when [unsubscribe()] throws (the subscription is open and its teardown
    throws) the exception escapes and the entry stays as it was. *)
Theorem handleUnsubscribe_effect ws streamId w :
  let w' := exec (handleUnsubscribe ws streamId) w in
  wire w' = wire w /\ streams w' = streams w /\
  subscriptions w' = subscriptions w /\ connections w' = connections w /\
  match JsMap.get streamId (subscriptions w) with
  | None => handleUnsubscribe ws streamId w = (Normal tt, w)
  | Some streamSubs =>
      match JsMap.get ws (deref streamSubs w) with
      | None => handleUnsubscribe ws streamId w = (Normal tt, w)
      | Some sub =>
          is_closed sub w' = true /\
          if unsubscribe_throws sub w
          then
            result (handleUnsubscribe ws streamId) w =
              Throw "UnsubscriptionError" /\
            maps w' = maps w
          else
            result (handleUnsubscribe ws streamId) w = Normal tt /\
            JsMap.get ws (deref streamSubs w') = None
      end
  end.
Proof.
  unfold exec, result. rewrite handleUnsubscribe_eq.
  destruct (JsMap.get streamId (subscriptions w)) as [streamSubs|];
    [|repeat split].
  simpl. destruct (dropped_frame ws streamSubs w) as (F1 & F2 & F3 & F4).
  split; [exact F4|]. split; [exact F1|]. split; [exact F2|].
  split; [exact F3|].
  destruct (JsMap.get ws (deref streamSubs w)) as [sub|] eqn:Hget.
  - split; [apply is_closed_dropped, Hget|].
    pose proof (deref_dropped ws streamSubs streamSubs w) as Hd.
    unfold drop_throws, dropped in *. rewrite Hget in *.
    destruct (unsubscribe_throws sub w); simpl; [split; reflexivity|].
    split; [reflexivity|]. rewrite Hd by reflexivity.
    destruct (decide _); [reflexivity | contradiction].
  - unfold drop_throws, dropped. rewrite Hget. reflexivity.
Qed.

(** ** The connection set and the catalog *)

Lemma same_connections_refl w : same_connections w w.
Proof. reflexivity. Qed.

Lemma same_connections_trans a b c :
  same_connections a b -> same_connections b c -> same_connections a c.
Proof. unfold same_connections. congruence. Qed.

#[local] Hint Resolve same_connections_refl same_connections_trans : core.

Ltac connections_leaf := reflexivity.

Lemma handleMessage_connections ws message :
  keeps same_connections (handleMessage ws message).
Proof. repeat keeps_step connections_leaf. Qed.

Lemma Subscriber_notify_connections s n :
  keeps same_connections (Subscriber_notify s n).
Proof. repeat keeps_step connections_leaf. Qed.

Lemma perform_connections a w :
  connections (exec (perform a) w) =
  match a with
  | HandleConnection ws => JsSet.add ws (connections w)
  | HandleDisconnection ws => JsSet.delete ws (connections w)
  | _ => connections w
  end.
Proof.
  destruct a as [config|streamId|ws|ws|ws message|s n|ws socket|t]; simpl.
  - unfold exec. rewrite registerStream_eq. reflexivity.
  - unfold exec. rewrite unregisterStream_eq. simpl. unfold unregistered.
    destruct (unregister_throws streamId w); reflexivity.
  - unfold exec, handleConnection. repeat mstep. rewrite sendStreamsList_eq.
    reflexivity.
  - unfold exec. rewrite handleDisconnection_eq. simpl.
    apply (dropped_all_frame ws (subscriptions w)
             (with_connections (JsSet.delete ws (connections w)) w)).
  - apply handleMessage_connections.
  - apply Subscriber_notify_connections.
  - reflexivity.
  - reflexivity.
Qed.

Lemma perform_streams a w :
  streams (exec (perform a) w) =
  match a with
  | RegisterStream config => JsMap.set (streamId config) config (streams w)
  | UnregisterStream streamId =>
      match result (unregisterStream streamId) w with
      | Normal _ => JsMap.delete streamId (streams w)
      | Throw _ => streams w
      end
  | _ => streams w
  end.
Proof.
  destruct a as [config|streamId|ws|ws|ws message|s n|ws socket|t]; simpl.
  - unfold exec. rewrite registerStream_eq. reflexivity.
  - unfold exec, result. rewrite unregisterStream_eq. simpl.
    unfold unregistered. destruct (unregister_throws streamId w); reflexivity.
  - apply handleConnection_registry.
  - apply handleDisconnection_registry.
  - apply handleMessage_registry.
  - apply Subscriber_notify_registry.
  - reflexivity.
  - reflexivity.
Qed.

Lemma JsSet_elem_of_add (x y : nat) (l : list nat) :
  y ∈ JsSet.add x l <-> y = x \/ y ∈ l.
Proof.
  unfold JsSet.add, JsSet.has. case_bool_decide as Hx.
  - split; [auto|]. intros [->|H]; assumption.
  - rewrite elem_of_app, list_elem_of_singleton. tauto.
Qed.

Lemma JsSet_elem_of_delete (x y : nat) (l : list nat) :
  y ∈ JsSet.delete x l <-> y <> x /\ y ∈ l.
Proof.
  induction l as [|z l IH]; simpl.
  - rewrite elem_of_nil. tauto.
  - destruct (decide (z = x)) as [->|Hne].
    + rewrite IH, elem_of_cons. split; [tauto|]. intros [H [->|H']]; tauto.
    + rewrite !elem_of_cons, IH. split; [|tauto].
      intros [->|H]; tauto.
Qed.

Lemma JsSet_NoDup_add (x : nat) (l : list nat) :
  NoDup l -> NoDup (JsSet.add x l).
Proof.
  intros H. unfold JsSet.add, JsSet.has. case_bool_decide as Hx; [exact H|].
  apply NoDup_app. split; [exact H|]. split.
  - intros y Hy Hy'. apply list_elem_of_singleton in Hy'. subst. contradiction.
  - apply NoDup_singleton.
Qed.

Lemma JsSet_NoDup_delete (x : nat) (l : list nat) :
  NoDup l -> NoDup (JsSet.delete x l).
Proof.
  induction 1 as [|y l Hy Hl IH]; simpl; [constructor|].
  destruct (decide (y = x)); [exact IH|].
  constructor; [|exact IH]. rewrite JsSet_elem_of_delete. tauto.
Qed.

Lemma perform_NoDup a w :
  NoDup (connections w) -> NoDup (connections (exec (perform a) w)).
Proof.
  intros H. rewrite perform_connections.
  destruct a; auto using JsSet_NoDup_add, JsSet_NoDup_delete.
Qed.

Lemma run_NoDup trace : forall w,
  NoDup (connections w) -> NoDup (connections (run trace w)).
Proof.
  induction trace as [|a rest IH]; intros w H; simpl; [exact H|].
  apply IH, perform_NoDup, H.
Qed.

Lemma reachable_NoDup w : reachable w -> NoDup (connections w).
Proof. intros [trace ->]. apply run_NoDup. constructor. Qed.

Lemma run_connected trace ws : forall w,
  bool_decide (ws ∈ connections (run trace w)) =
  connected_by trace ws (bool_decide (ws ∈ connections w)).
Proof.
  induction trace as [|a rest IH]; intros w; simpl; [reflexivity|].
  rewrite IH, perform_connections.
  destruct a as [config|streamId|c|c|c message|s n|c socket|t];
    try reflexivity; f_equal.
  - destruct (decide (c = ws)) as [->|Hne].
    + apply bool_decide_eq_true. apply JsSet_elem_of_add. auto.
    + apply bool_decide_ext. rewrite JsSet_elem_of_add. split; [|auto].
      intros [->|H]; [contradiction|exact H].
  - destruct (decide (c = ws)) as [->|Hne].
    + apply bool_decide_eq_false. apply JsSet_delete_gone.
    + apply bool_decide_ext. rewrite JsSet_elem_of_delete. split; [tauto|].
      intros H. split; [congruence|exact H].
Qed.

Lemma JsSet_size_delete (x : nat) (l : list nat) :
  NoDup l ->
  JsSet.size (JsSet.delete x l) =
  if bool_decide (x ∈ l) then pred (JsSet.size l) else JsSet.size l.
Proof.
  unfold JsSet.size. induction 1 as [|y l Hy Hl IH]; simpl; [reflexivity|].
  destruct (decide (y = x)) as [->|Hne].
  - rewrite bool_decide_eq_true_2 by left.
    rewrite JsSet_delete_absent by exact Hy. reflexivity.
  - simpl. rewrite IH. case_bool_decide as Hx.
    + rewrite bool_decide_eq_true_2 by (right; exact Hx).
      destruct l; [inversion Hx | reflexivity].
    + rewrite bool_decide_eq_false_2; [reflexivity|].
      intros H'. apply elem_of_cons in H' as [->|H']; contradiction.
Qed.

Lemma JsSet_size_add (x : nat) (l : list nat) :
  JsSet.size (JsSet.add x l) =
  if bool_decide (x ∈ l) then JsSet.size l else S (JsSet.size l).
Proof.
  unfold JsSet.add, JsSet.has, JsSet.size. case_bool_decide; [reflexivity|].
  rewrite length_app. simpl. lia.
Qed.

(** X11.  After any run of the bridge, a connection is in the connection
    set exactly when the last call about it was [handleConnection] (and
    not [handleDisconnection]), and the set holds no connection twice. *)
Theorem connection_set_follows_calls trace ws :
  let w := run trace new_bridge in
  (ws ∈ connections w <-> connected_by trace ws false = true) /\
  NoDup (connections w).
Proof.
  simpl. split.
  - pose proof (run_connected trace ws new_bridge) as H.
    rewrite (bool_decide_eq_false_2 (ws ∈ connections new_bridge)) in H
      by apply not_elem_of_nil.
    rewrite <- H, bool_decide_eq_true. reflexivity.
  - apply run_NoDup. constructor.
Qed.

(** X12.  [getConnectionCount()] after one more action on a reachable
    state: [handleConnection] of a connection that is not in the set adds
    one, [handleDisconnection] of one that is in the set takes one away
    (also when the call throws later, the connection being removed first),
    and no other action changes the count. *)
Theorem getConnectionCount_step a w :
  reachable w ->
  result getConnectionCount (exec (perform a) w) =
    Normal
      (match a with
       | HandleConnection ws =>
           if bool_decide (ws ∈ connections w)
           then JsSet.size (connections w) else S (JsSet.size (connections w))
       | HandleDisconnection ws =>
           if bool_decide (ws ∈ connections w)
           then pred (JsSet.size (connections w)) else JsSet.size (connections w)
       | _ => JsSet.size (connections w)
       end).
Proof.
  intros Hw. apply reachable_NoDup in Hw.
  unfold result, getConnectionCount. repeat mstep. simpl.
  rewrite perform_connections.
  destruct a; try reflexivity; f_equal.
  - apply JsSet_size_add.
  - apply JsSet_size_delete, Hw.
Qed.

Lemma getConnectionCount_step_witness :
  result getConnectionCount
    (exec (perform (HandleDisconnection 0)) (subscribed_to ticker)) = Normal 0.
Proof.
  apply (getConnectionCount_step (HandleDisconnection 0) (subscribed_to ticker)).
  exists [HandleConnection 0; RegisterStream ticker;
          HandleMessage 0 (subscribe_text "s")].
  reflexivity.
Defined.

(** X13.  What [getStreams()] returns after one more action, on any state:
    [registerStream] sets the entry of the id (in place when the id is
    registered, at the end otherwise); [unregisterStream] removes the entry
    when it returns normally and leaves the catalog as it is when it
    throws; no other action changes the catalog. *)
Theorem getStreams_step a w :
  result getStreams (exec (perform a) w) =
  Normal
    (match a with
     | RegisterStream config => JsMap.set (streamId config) config (streams w)
     | UnregisterStream streamId =>
         match result (unregisterStream streamId) w with
         | Normal _ => JsMap.delete streamId (streams w)
         | Throw _ => streams w
         end
     | _ => streams w
     end).
Proof.
  unfold result at 1, getStreams. repeat mstep. simpl. f_equal.
  apply perform_streams.
Qed.

(** ** Frames, connection by connection *)

Lemma sent_to_app ws w w' l :
  wire w' = wire w ++ l -> sent_to ws w' = sent_to ws w ++ frames_to ws l.
Proof.
  intros H. unfold sent_to, frames_to. rewrite H, filter_app, map_app.
  reflexivity.
Qed.

Lemma frames_to_emit ws c m w :
  frames_to c (emit ws m w) =
  if decide (ws = c) then (if sendable (sockets w ws) then [m] else []) else [].
Proof.
  unfold frames_to, emit.
  destruct (sendable (sockets w ws)); simpl.
  - rewrite filter_cons. simpl. destruct (decide (ws = c)); reflexivity.
  - destruct (decide (ws = c)); reflexivity.
Qed.

Lemma frames_to_broadcast c w : forall l,
  NoDup l ->
  frames_to c (broadcast_to l w) =
  if bool_decide (c ∈ l) && sendable (sockets w c) then [streams_list w] else [].
Proof.
  unfold frames_to, broadcast_to.
  induction 1 as [|ws l Hws Hl IH]; simpl; [reflexivity|].
  rewrite filter_app, map_app. fold (frames_to c (emit ws (streams_list w) w)).
  rewrite frames_to_emit, IH.
  destruct (decide (ws = c)) as [->|Hne].
  - rewrite (bool_decide_eq_false_2 (c ∈ l)) by exact Hws.
    rewrite bool_decide_eq_true_2 by left. simpl.
    destruct (sendable (sockets w c)); reflexivity.
  - simpl. rewrite (bool_decide_ext (c ∈ ws :: l) (c ∈ l)); [reflexivity|].
    rewrite elem_of_cons. split; [|auto].
    intros [->|H]; [contradiction|exact H].
Qed.

Lemma handleConnection_eq ws w :
  handleConnection ws w =
  (Normal tt,
   with_wire (wire w ++ emit ws (streams_list w) w)
     (with_connections (JsSet.add ws (connections w)) w)).
Proof.
  unfold handleConnection. repeat mstep. rewrite sendStreamsList_eq. reflexivity.
Qed.

(** X14.  [handleConnection(ws)], on any state, returns normally.  It adds
    [ws] to the connection set, sends [ws] the catalog when its socket is
    open and its [send] returns (and nothing otherwise), sends nothing to
    any other connection, and leaves catalog, matrix, inner maps and
    subscriptions as they are. *)
Theorem handleConnection_effect ws w :
  let w' := exec (handleConnection ws) w in
  result (handleConnection ws) w = Normal tt /\
  connections w' = JsSet.add ws (connections w) /\
  ws ∈ connections w' /\
  sent_to ws w' =
    sent_to ws w ++ (if sendable (sockets w ws) then [streams_list w] else []) /\
  (forall c, c <> ws -> sent_to c w' = sent_to c w) /\
  streams w' = streams w /\ subscriptions w' = subscriptions w /\
  maps w' = maps w /\ subs w' = subs w.
Proof.
  unfold exec, result. rewrite handleConnection_eq. simpl.
  split; [reflexivity|]. split; [reflexivity|].
  split; [apply JsSet_elem_of_add; auto|].
  split; [|split; [|auto]].
  - erewrite sent_to_app by reflexivity. rewrite frames_to_emit.
    destruct (decide (ws = ws)); [reflexivity|contradiction].
  - intros c Hc. erewrite sent_to_app by reflexivity. rewrite frames_to_emit.
    destruct (decide (ws = c)); [congruence|]. apply app_nil_r.
Qed.

(** X15.  A connection that the bridge does not know (it is not in the
    connection set and is a key of no inner map of the matrix), connected
    and then disconnected, leaves the state as it was but for the catalog
    frame it was sent. *)
Theorem connect_then_disconnect ws w :
  ws ∉ connections w ->
  (forall streamId streamSubs,
     (streamId, streamSubs) ∈ subscriptions w ->
     JsMap.get ws (deref streamSubs w) = None) ->
  exec (handleDisconnection ws) (exec (handleConnection ws) w) =
    with_wire (wire w ++ emit ws (streams_list w) w) w.
Proof.
  intros Hc Hs. unfold exec. rewrite handleConnection_eq. simpl.
  rewrite handleDisconnection_eq. simpl.
  match goal with
  | |- dropped_all ws ?l ?v = _ =>
      destruct (dropped_all_absent ws l v) as [_ ->]
  end.
  - intros [sid r] Hin. apply (Hs sid r Hin).
  - unfold with_wire, with_connections. simpl. f_equal.
    unfold JsSet.add, JsSet.has. rewrite bool_decide_eq_false_2 by exact Hc.
    clear Hs. induction (connections w) as [|y l IH]; simpl.
    + destruct (decide (ws = ws)); [reflexivity|contradiction].
    + apply not_elem_of_cons in Hc as [Hne Hc].
      destruct (decide (y = ws)); [congruence|]. rewrite IH by exact Hc.
      reflexivity.
Qed.

Lemma connect_then_disconnect_witness :
  exec (handleDisconnection 1)
    (exec (handleConnection 1) (subscribed_to ticker)) =
  with_wire
    (wire (subscribed_to ticker) ++
     emit 1 (streams_list (subscribed_to ticker)) (subscribed_to ticker))
    (subscribed_to ticker).
Proof.
  apply connect_then_disconnect.
  - vm_compute. intros H. apply list_elem_of_In in H. simpl in H.
    destruct H as [H|[]]. discriminate H.
  - intros streamId streamSubs H. apply list_elem_of_In in H.
    vm_compute in H. destruct H as [H|[]]. injection H as _ <-. reflexivity.
Defined.

Lemma keys_set_has {V} (k : string) (v : V) (m : list (string * V)) :
  JsMap.keys (JsMap.set k v m) =
  if JsMap.has k m then JsMap.keys m else JsMap.keys m ++ [k].
Proof.
  unfold JsMap.has. induction m as [|[k' v'] m IH]; simpl; [reflexivity|].
  destruct (decide (k' = k)) as [->|Hne]; simpl; [reflexivity|].
  rewrite IH. destruct (JsMap.get k m); reflexivity.
Qed.

(** X16.  [registerStream(config)], on any state, returns normally.  The
    catalog then maps the id to [config], at the id's old position when it
    was registered and at the end otherwise; the stream's subscription
    count is 0 (also when the id had subscribers: its matrix entry is a new
    map); the entries of the other ids, the connection set, the
    subscriptions and the inner maps that existed are unchanged; and the
    new catalog is broadcast to the connection set. *)
Theorem registerStream_effect config w :
  let w' := exec (registerStream config) w in
  result (registerStream config) w = Normal tt /\
  JsMap.get (streamId config) (streams w') = Some config /\
  (forall id, id <> streamId config ->
     JsMap.get id (streams w') = JsMap.get id (streams w) /\
     JsMap.get id (subscriptions w') = JsMap.get id (subscriptions w)) /\
  JsMap.keys (streams w') =
    (if JsMap.has (streamId config) (streams w) then JsMap.keys (streams w)
     else JsMap.keys (streams w) ++ [streamId config]) /\
  subscription_count (streamId config) w' = Normal 0 /\
  connections w' = connections w /\ subs w' = subs w /\
  (forall r, r < length (maps w) -> deref r w' = deref r w) /\
  wire w' = wire w ++ broadcast_to (connections w') w'.
Proof.
  unfold exec, result, subscription_count, result. rewrite registerStream_eq.
  simpl. split; [reflexivity|]. split; [apply get_set_eq|].
  split; [|split; [apply keys_set_has|split; [|split; [reflexivity|split;
    [reflexivity|split; [|reflexivity]]]]]].
  - intros id Hid. split; apply get_set_ne; congruence.
  - unfold getSubscriptionCount. repeat mstep. simpl. rewrite get_set_eq.
    unfold deref. simpl. rewrite list_lookup_middle by reflexivity. reflexivity.
  - intros r Hr. unfold deref. simpl. rewrite lookup_app_l by exact Hr.
    reflexivity.
Qed.

(** X17.  In a reachable state, [registerStream] sends every connection of
    the connection set whose socket is open (and whose [send] returns)
    exactly one frame, the new catalog, and sends the others nothing; so
    does an [unregisterStream] that returns normally, and one that throws
    sends nothing to anyone. *)
Theorem catalog_change_is_broadcast_once w ws :
  reachable w ->
  (forall config,
     let w' := exec (registerStream config) w in
     sent_to ws w' =
       sent_to ws w ++
       (if bool_decide (ws ∈ connections w) && sendable (sockets w ws)
        then [streams_list w'] else [])) /\
  (forall streamId,
     let w' := exec (unregisterStream streamId) w in
     sent_to ws w' =
       sent_to ws w ++
       match result (unregisterStream streamId) w with
       | Normal _ =>
           if bool_decide (ws ∈ connections w) && sendable (sockets w ws)
           then [streams_list w'] else []
       | Throw _ => []
       end).
Proof.
  intros Hw. apply reachable_NoDup in Hw. split.
  - intros config. simpl. unfold exec. rewrite registerStream_eq. simpl.
    erewrite sent_to_app by reflexivity.
    rewrite frames_to_broadcast by exact Hw. reflexivity.
  - intros streamId. simpl. unfold exec, result.
    rewrite unregisterStream_eq. simpl. unfold unregistered.
    destruct (unregister_throws streamId w); simpl.
    + unfold sent_to. simpl. rewrite app_nil_r. reflexivity.
    + erewrite sent_to_app by reflexivity.
      rewrite frames_to_broadcast by exact Hw. reflexivity.
Qed.

Lemma catalog_change_is_broadcast_once_witness :
  sent_to 0 (exec (registerStream ticker_t) (subscribed_to ticker)) =
    sent_to 0 (subscribed_to ticker) ++
    [streams_list (exec (registerStream ticker_t) (subscribed_to ticker))].
Proof.
  assert (H : reachable (subscribed_to ticker)).
  { exists [HandleConnection 0; RegisterStream ticker;
            HandleMessage 0 (subscribe_text "s")].
    reflexivity. }
  exact (proj1 (catalog_change_is_broadcast_once (subscribed_to ticker) 0 H)
           ticker_t).
Defined.

Lemma frames_to_emitted ws streamId c n w :
  c <> ws -> frames_to c (emitted ws streamId n w) = [].
Proof.
  intros Hc. unfold emitted. destruct (frame_of _ _ _); [|reflexivity].
  rewrite frames_to_emit. destruct (decide (ws = c)); [congruence|reflexivity].
Qed.

(** X18.  A notification to a subscription touches only what its observer
    closed over: no frame goes to a connection other than the
    subscription's, no other subscription changes, catalog, matrix entries
    and connection set stay, and in the inner maps only the entry of the
    subscription's connection in the map of its observer can change. *)
Theorem notification_concerns_one_connection s n w sub c s' :
  subs w !! s = Some sub ->
  let w' := exec (Subscriber_notify s n) w in
  (c <> obs_ws sub -> sent_to c w' = sent_to c w) /\
  (s' <> s -> subs w' !! s' = subs w !! s') /\
  streams w' = streams w /\ subscriptions w' = subscriptions w /\
  connections w' = connections w /\
  (forall r ws, (r, ws) <> (obs_streamSubs sub, obs_ws sub) ->
     JsMap.get ws (deref r w') = JsMap.get ws (deref r w)).
Proof.
  intros Hs. simpl. unfold exec. rewrite (Subscriber_notify_eq _ _ _ _ Hs).
  simpl. destruct (closed sub); [repeat split; reflexivity|].
  assert (Hwire : wire (notified s sub n w) =
            wire w ++ emitted (obs_ws sub) (obs_streamId sub) n w).
  { destruct n as [value|[text|]|]; simpl; rewrite ?app_nil_r; reflexivity. }
  split; [|split; [|split; [|split; [|split]]]].
  - intros Hc. rewrite (sent_to_app _ _ _ _ Hwire), frames_to_emitted by exact Hc.
    apply app_nil_r.
  - intros Hne. destruct n as [value|[text|]|]; simpl; try reflexivity;
      apply list_lookup_alter_ne; congruence.
  - destruct n as [value|[text|]|]; reflexivity.
  - destruct n as [value|[text|]|]; reflexivity.
  - destruct n as [value|[text|]|]; reflexivity.
  - intros r ws Hne.
    destruct n as [value|[text|]|]; try reflexivity;
      (erewrite deref_alter by reflexivity;
       destruct (decide (r = obs_streamSubs sub)) as [->|Hr]; [|reflexivity];
       unfold deref; destruct (maps w !! obs_streamSubs sub); simpl;
       [apply get_delete_ne; congruence | reflexivity]).
Qed.

Lemma notification_concerns_one_connection_witness :
  sent_to 1 (exec (Subscriber_notify 0 (OnNext (JNum "7"))) (subscribed_to ticker))
    = sent_to 1 (subscribed_to ticker).
Proof.
  apply (proj1 (notification_concerns_one_connection 0 (OnNext (JNum "7"))
                  (subscribed_to ticker) first_subscription 1 1 eq_refl)).
  discriminate.
Defined.

Lemma run_notifications s ns : forall w,
  run (map (ProducerNotifies s) ns) w = exec (forEach ns (Subscriber_notify s)) w.
Proof.
  induction ns as [|n rest IH]; intros w; simpl; [reflexivity|].
  rewrite IH. unfold exec. rewrite bind_unfold.
  destruct (nt_Subscriber_notify s n w) as [[] Hn]. unfold result in Hn.
  destruct (Subscriber_notify s n w) as [c w1]. simpl in *. subst c.
  reflexivity.
Qed.

Lemma forEach_notify_closed s ns : forall w sub,
  subs w !! s = Some sub ->
  is_closed s (exec (forEach ns (Subscriber_notify s)) w) =
  closed sub || existsb is_terminal ns.
Proof.
  induction ns as [|n rest IH]; intros w sub Hs.
  - change (exec (forEach [] (Subscriber_notify s)) w) with w.
    unfold is_closed. rewrite Hs, orb_false_r. reflexivity.
  - unfold exec. simpl. rewrite bind_unfold, (Subscriber_notify_eq _ _ _ _ Hs).
    fold (exec (forEach rest (Subscriber_notify s))
            (if closed sub then w else notified s sub n w)).
    destruct (closed sub) eqn:Hc.
    + rewrite (IH w sub Hs), Hc. reflexivity.
    + destruct n as [value|[text|]|].
      * rewrite (IH _ sub); [rewrite Hc; reflexivity | exact Hs].
      * rewrite (IH _ (close sub)); [reflexivity|].
        simpl. rewrite list_lookup_alter_eq, Hs. reflexivity.
      * rewrite (IH _ (close sub)); [reflexivity|].
        simpl. rewrite list_lookup_alter_eq, Hs. reflexivity.
      * rewrite (IH _ (close sub)); [reflexivity|].
        simpl. rewrite list_lookup_alter_eq, Hs. reflexivity.
Qed.

Lemma frames_to_pair ws (l : list WebSocketMessage) :
  frames_to ws (map (pair ws) l) = l.
Proof.
  unfold frames_to. induction l as [|m l IH]; simpl; [reflexivity|].
  rewrite filter_cons. simpl. destruct (decide (ws = ws)); [|contradiction].
  simpl. rewrite IH. reflexivity.
Qed.

(** X19.  The notifications a producer delivers to a live subscription, one
    after the other with no other action in between, reach its connection
    as frames in the order delivered, up to and including the first error
    or completion and nothing after it (all of them when the socket is open
    and its [send] returns, none otherwise); the subscription is closed
    afterwards exactly when one of them was an error or a completion. *)
Theorem notifications_forwarded_in_order s ns w sub :
  subs w !! s = Some sub -> closed sub = false ->
  let w' := run (map (ProducerNotifies s) ns) w in
  sent_to (obs_ws sub) w' =
    sent_to (obs_ws sub) w ++
    (if sendable (sockets w (obs_ws sub))
     then omap (frame_of (obs_streamId sub) (clock w)) (delivered ns)
     else []) /\
  is_closed s w' = existsb is_terminal ns.
Proof.
  intros Hs Hc. simpl. rewrite run_notifications. split.
  - pose proof (forEach_notify_wire s ns w sub Hs) as Hw. rewrite Hc in Hw.
    rewrite (sent_to_app _ _ _ _ Hw), flat_map_emitted.
    destruct (sendable (sockets w (obs_ws sub))); [|reflexivity].
    rewrite frames_to_pair. reflexivity.
  - rewrite (forEach_notify_closed s ns w sub Hs), Hc. reflexivity.
Qed.
Lemma notifications_forwarded_in_order_witness :
  sent_to 0
    (run (map (ProducerNotifies 0)
            [OnNext (JNum "7"); OnComplete; OnNext (JNum "8")])
       (subscribed_to ticker)) =
  sent_to 0 (subscribed_to ticker) ++
  [NextMessage "s" (JNum "7") 0; CompleteMessage "s" 0].
Proof.
  exact (proj1 (notifications_forwarded_in_order 0
                  [OnNext (JNum "7"); OnComplete; OnNext (JNum "8")]
                  (subscribed_to ticker) first_subscription eq_refl eq_refl)).
Defined.


(** ** The shape of the matrix *)

Lemma only_cancels_refl w : only_cancels w w.
Proof. repeat split; auto. Qed.

Lemma only_cancels_trans a b c :
  only_cancels a b -> only_cancels b c -> only_cancels a c.
Proof.
  intros (A1 & A2 & A3 & A4) (B1 & B2 & B3 & B4).
  repeat split; [auto | congruence | auto | congruence].
Qed.

#[local] Hint Resolve only_cancels_refl only_cancels_trans : core.

Lemma observer_close_all s (l : list Subscription) :
  observer <$> alter close s l = observer <$> l.
Proof.
  apply list_eq. intros i. rewrite !list_lookup_fmap.
  destruct (decide (i = s)) as [->|Hne].
  - rewrite list_lookup_alter_eq. destruct (l !! s); reflexivity.
  - rewrite list_lookup_alter_ne by congruence. reflexivity.
Qed.

Lemma only_cancels_close w s :
  only_cancels w (with_subs (alter close s (subs w)) w).
Proof. repeat split; auto. apply observer_close_all. Qed.

Section DeleteFacts.
Context {K V : Type} `{EqDecision K}.

Lemma elem_of_delete (k : K) (e : K * V) m : e ∈ JsMap.delete k m -> e ∈ m.
Proof.
  induction m as [|[k' v'] m IH]; simpl; [auto|].
  destruct (decide (k' = k)).
  - intros H. right. auto.
  - rewrite !elem_of_cons. intros [->|H]; auto.
Qed.

Lemma elem_of_set (k : K) (v : V) (e : K * V) m :
  e ∈ JsMap.set k v m -> e = (k, v) \/ e ∈ m.
Proof.
  induction m as [|[k' v'] m IH]; simpl.
  - rewrite list_elem_of_singleton. auto.
  - destruct (decide (k' = k)); rewrite !elem_of_cons; [tauto|].
    intros [->|H]; [auto|]. destruct (IH H); auto.
Qed.

Lemma size_set_absent (k : K) (v : V) m :
  JsMap.get k m = None -> JsMap.size (JsMap.set k v m) = S (JsMap.size m).
Proof.
  unfold JsMap.size. induction m as [|[k' v'] m IH]; simpl; [reflexivity|].
  destruct (decide (k' = k)); [discriminate|]. intros H. simpl.
  rewrite IH by exact H. reflexivity.
Qed.
End DeleteFacts.

Lemma only_cancels_delete w r ws :
  only_cancels w (with_maps (alter (JsMap.delete ws) r (maps w)) w).
Proof.
  repeat split; auto.
  - simpl. apply length_alter.
  - intros r' e. erewrite deref_alter by reflexivity.
    destruct (decide (r' = r)) as [->|]; [|auto].
    unfold deref. destruct (maps w !! r); simpl; [apply elem_of_delete | auto].
Qed.

Lemma only_cancels_unregister w (id : string) :
  only_cancels w (with_subscriptions (JsMap.delete id (subscriptions w)) w).
Proof.
  repeat split; auto. simpl. intros id' r.
  destruct (decide (id = id')) as [->|Hne].
  - rewrite get_delete_eq. discriminate.
  - rewrite get_delete_ne by exact Hne. auto.
Qed.

Lemma only_cancels_frame w w' :
  subscriptions w' = subscriptions w -> maps w' = maps w -> subs w' = subs w ->
  only_cancels w w'.
Proof.
  intros E1 E2 E3. unfold only_cancels, deref. rewrite E1, E2, E3.
  repeat split; auto.
Qed.

Ltac cancels_leaf :=
  first [ apply only_cancels_close
        | apply only_cancels_delete
        | apply only_cancels_unregister
        | apply only_cancels_frame; reflexivity ].

Lemma sendMessage_cancels ws message : keeps only_cancels (sendMessage ws message).
Proof. repeat keeps_step cancels_leaf. Qed.

#[local] Hint Resolve sendMessage_cancels : keeps.

Lemma Subscriber_notify_cancels s n : keeps only_cancels (Subscriber_notify s n).
Proof. repeat keeps_step cancels_leaf. Qed.

Lemma handleUnsubscribe_cancels ws streamId :
  keeps only_cancels (handleUnsubscribe ws streamId).
Proof. repeat keeps_step cancels_leaf. Qed.

Lemma handleDisconnection_cancels ws :
  keeps only_cancels (handleDisconnection ws).
Proof. repeat keeps_step cancels_leaf. Qed.

Lemma handleConnection_cancels ws : keeps only_cancels (handleConnection ws).
Proof. repeat keeps_step cancels_leaf. Qed.

Lemma unregisterStream_cancels streamId :
  keeps only_cancels (unregisterStream streamId).
Proof. repeat keeps_step cancels_leaf. Qed.

Lemma observer_lookup (l l' : list Subscription) s sub' :
  observer <$> l' = observer <$> l -> l' !! s = Some sub' ->
  exists sub, l !! s = Some sub /\ observer sub = observer sub'.
Proof.
  intros E H.
  assert (H' : (observer <$> l) !! s = Some (observer sub')).
  { rewrite <- E, list_lookup_fmap, H. reflexivity. }
  rewrite list_lookup_fmap in H'.
  destruct (l !! s) as [sub|]; [|discriminate].
  exists sub. split; [reflexivity|]. simpl in H'. congruence.
Qed.

Lemma well_formed_cancels w w' :
  only_cancels w w' -> well_formed w -> well_formed w'.
Proof.
  intros (C1 & C2 & C3 & C4) (Ho & Hk & Ha & Hu & Hv).
  split; [|split; [|split; [|split]]].
  - intros r ws s Hin. destruct (Ho r ws s (C3 _ _ Hin)) as (sub & Hs & E1 & E2).
    destruct (observer_lookup _ _ s sub (eq_sym C4) Hs) as (sub' & Hs' & E).
    exists sub'. injection E as F1 F2 F3. split; [exact Hs'|]. split; congruence.
  - intros s sub' id Hs' Hget.
    destruct (observer_lookup _ _ s sub' C4 Hs') as (sub & Hs & E).
    injection E as F1 F2 F3. rewrite <- F2. apply (Hk s sub id Hs).
    rewrite F3. apply C1, Hget.
  - intros s sub' Hs'.
    destruct (observer_lookup _ _ s sub' C4 Hs') as (sub & Hs & E).
    injection E as F1 F2 F3. rewrite C2, <- F3. apply (Ha s sub Hs).
  - intros id id' r H H'. apply (Hu id id' r); auto.
  - intros id r H. rewrite C2. apply (Hv id r), C1, H.
Qed.

Lemma well_formed_registered config w :
  well_formed w -> well_formed (registered config w).
Proof.
  intros (Ho & Hk & Ha & Hu & Hv).
  assert (Hderef : forall r, deref r (registered config w) =
                    if decide (r < length (maps w)) then deref r w else []).
  { intros r. unfold deref, registered. simpl.
    destruct (decide (r < length (maps w))) as [Hlt|Hge].
    - rewrite lookup_app_l by exact Hlt. reflexivity.
    - destruct (decide (r = length (maps w))) as [->|Hne].
      + rewrite list_lookup_middle by reflexivity. reflexivity.
      + rewrite lookup_ge_None_2; [reflexivity|].
        rewrite length_app. simpl. lia. }
  split; [|split; [|split; [|split]]].
  - intros r ws s. rewrite Hderef.
    destruct (decide (r < length (maps w))); [apply Ho|].
    intros H. inversion H.
  - intros s sub id Hs. simpl.
    destruct (decide (streamId config = id)) as [<-|Hne].
    + rewrite get_set_eq. intros [= E]. specialize (Ha s sub Hs). lia.
    + rewrite get_set_ne by exact Hne. apply (Hk s sub id Hs).
  - intros s sub Hs. simpl. rewrite length_app. specialize (Ha s sub Hs). lia.
  - intros id id' r. simpl.
    destruct (decide (streamId config = id)) as [<-|Hne];
      destruct (decide (streamId config = id')) as [<-|Hne'];
      rewrite ?get_set_eq, ?get_set_ne by assumption; auto.
    + intros [= <-] H. specialize (Hv _ _ H). lia.
    + intros H [= <-]. specialize (Hv _ _ H). lia.
    + apply Hu.
  - apply refs_valid_registered, Hv.
Qed.

Lemma well_formed_subscribed ws streamId w v streamSubs c t :
  well_formed w ->
  JsMap.get streamId (subscriptions w) = Some streamSubs ->
  subscriptions v = subscriptions w ->
  maps v = alter (JsMap.set ws (length (subs w))) streamSubs (maps w) ->
  subs v = subs w ++ [{| closed := c; obs_ws := ws; obs_streamId := streamId;
                         obs_streamSubs := streamSubs;
                         throwing_teardown := t |}] ->
  well_formed v.
Proof.
  intros (Ho & Hk & Ha & Hu & Hv) Hsubs Hreg Hmaps Hnew.
  assert (Hold : forall s sub, subs w !! s = Some sub -> subs v !! s = Some sub).
  { intros s sub Hs. rewrite Hnew. rewrite lookup_app_l; [exact Hs|].
    eapply lookup_lt_Some, Hs. }
  assert (Hcases : forall s sub, subs v !! s = Some sub ->
            subs w !! s = Some sub \/
            sub = {| closed := c; obs_ws := ws; obs_streamId := streamId;
                     obs_streamSubs := streamSubs;
                     throwing_teardown := t |}).
  { intros s sub Hs. rewrite Hnew in Hs.
    destruct (decide (s < length (subs w))) as [Hlt|Hge].
    - rewrite lookup_app_l in Hs by exact Hlt. auto.
    - assert (s = length (subs w)) as ->.
      { apply lookup_lt_Some in Hs. rewrite length_app in Hs. simpl in Hs. lia. }
      rewrite list_lookup_middle in Hs by reflexivity. injection Hs as <-.
      auto. }
  assert (Hlen : length (maps v) = length (maps w)).
  { rewrite Hmaps. apply length_alter. }
  split; [|split; [|split; [|split]]].
  - intros r ws' s. rewrite (deref_alter _ streamSubs _ v w Hmaps).
    destruct (decide (r = streamSubs)) as [->|Hne].
    + destruct (maps w !! streamSubs) as [m|] eqn:Hm; simpl;
        [|intros H; inversion H].
      intros H. apply elem_of_set in H as [[= -> ->]|H].
      * exists {| closed := c; obs_ws := ws; obs_streamId := streamId;
                  obs_streamSubs := streamSubs; throwing_teardown := t |}.
        split; [|split; reflexivity].
        rewrite Hnew. apply list_lookup_middle. reflexivity.
      * destruct (Ho streamSubs ws' s) as (sub & Hs & E).
        { unfold deref. rewrite Hm. exact H. }
        exists sub. split; [apply Hold, Hs | exact E].
    + intros H. destruct (Ho r ws' s H) as (sub & Hs & E).
      exists sub. split; [apply Hold, Hs | exact E].
  - intros s sub id Hs. rewrite Hreg.
    destruct (Hcases s sub Hs) as [Hs0| ->].
    + apply (Hk s sub id Hs0).
    + simpl. intros H. apply (Hu _ _ _ Hsubs H).
  - intros s sub Hs. rewrite Hlen.
    destruct (Hcases s sub Hs) as [Hs0| ->].
    + apply (Ha s sub Hs0).
    + simpl. apply (Hv _ _ Hsubs).
  - intros id id' r. rewrite Hreg. apply Hu.
  - intros id r. rewrite Hreg, Hlen. apply Hv.
Qed.

Lemma well_formed_refused ws streamId w v streamSubs c t :
  well_formed w ->
  JsMap.get streamId (subscriptions w) = Some streamSubs ->
  subscriptions v = subscriptions w -> maps v = maps w ->
  subs v = subs w ++ [{| closed := c; obs_ws := ws; obs_streamId := streamId;
                         obs_streamSubs := streamSubs;
                         throwing_teardown := t |}] ->
  well_formed v.
Proof.
  intros (Ho & Hk & Ha & Hu & Hv) Hsubs Hreg Hmaps Hnew.
  assert (Hold : forall s sub, subs w !! s = Some sub -> subs v !! s = Some sub).
  { intros s sub Hs. rewrite Hnew. rewrite lookup_app_l; [exact Hs|].
    eapply lookup_lt_Some, Hs. }
  assert (Hcases : forall s sub, subs v !! s = Some sub ->
            subs w !! s = Some sub \/
            sub = {| closed := c; obs_ws := ws; obs_streamId := streamId;
                     obs_streamSubs := streamSubs;
                     throwing_teardown := t |}).
  { intros s sub Hs. rewrite Hnew in Hs.
    destruct (decide (s < length (subs w))) as [Hlt|Hge].
    - rewrite lookup_app_l in Hs by exact Hlt. auto.
    - assert (s = length (subs w)) as ->.
      { apply lookup_lt_Some in Hs. rewrite length_app in Hs. simpl in Hs. lia. }
      rewrite list_lookup_middle in Hs by reflexivity. injection Hs as <-.
      auto. }
  split; [|split; [|split; [|split]]].
  - intros r ws' s. unfold deref. rewrite Hmaps. intros H.
    destruct (Ho r ws' s H) as (sub & Hs & E).
    exists sub. split; [apply Hold, Hs | exact E].
  - intros s sub id Hs. rewrite Hreg.
    destruct (Hcases s sub Hs) as [Hs0| ->].
    + apply (Hk s sub id Hs0).
    + simpl. intros H. apply (Hu _ _ _ Hsubs H).
  - intros s sub Hs. rewrite Hmaps.
    destruct (Hcases s sub Hs) as [Hs0| ->].
    + apply (Ha s sub Hs0).
    + simpl. apply (Hv _ _ Hsubs).
  - intros id id' r. rewrite Hreg. apply Hu.
  - intros id r. rewrite Hreg, Hmaps. apply Hv.
Qed.

Lemma well_formed_subscribe ws streamId w :
  well_formed w -> well_formed (exec (handleSubscribe ws streamId) w).
Proof.
  intros Hw.
  destruct (JsMap.get streamId (streams w)) as [config|] eqn:Hs.
  2:{ unfold exec, handleSubscribe. repeat mstep. rewrite Hs. exact Hw. }
  destruct (JsMap.get streamId (subscriptions w)) as [r|] eqn:Hsubs.
  2:{ unfold exec, handleSubscribe. repeat mstep. rewrite Hs, Hsubs. exact Hw. }
  destruct (JsMap.has ws (deref r w)) eqn:Hhas.
  { unfold exec. rewrite (duplicate_subscribe_is_noop _ _ _ _ Hsubs Hhas).
    exact Hw. }
  destruct (handleSubscribe_subscribed ws streamId w config r Hs Hsubs Hhas)
    as (F1 & F2 & [(_ & F3 & [F4|F4])|(_ & F3 & F4)]).
  - eapply (well_formed_subscribed ws streamId w _ r _ _ Hw Hsubs F2 F3);
      exact F4.
  - eapply (well_formed_subscribed ws streamId w _ r _ _ Hw Hsubs F2 F3);
      exact F4.
  - eapply (well_formed_refused ws streamId w _ r _ _ Hw Hsubs F2 F3);
      exact F4.
Qed.

Lemma well_formed_perform a w :
  well_formed w -> well_formed (exec (perform a) w).
Proof.
  intros Hw.
  destruct a as [config|streamId|ws|ws|ws message|s n|ws socket|t]; simpl.
  - unfold exec. rewrite registerStream_eq. apply well_formed_registered, Hw.
  - eapply well_formed_cancels; [apply unregisterStream_cancels | exact Hw].
  - eapply well_formed_cancels; [apply handleConnection_cancels | exact Hw].
  - eapply well_formed_cancels; [apply handleDisconnection_cancels | exact Hw].
  - destruct (handleMessage_cases ws message w) as [E|[[sid E]|[sid E]]];
      unfold exec at 1; rewrite E.
    + exact Hw.
    + apply well_formed_subscribe, Hw.
    + eapply well_formed_cancels; [apply handleUnsubscribe_cancels | exact Hw].
  - eapply well_formed_cancels; [apply Subscriber_notify_cancels | exact Hw].
  - exact Hw.
  - exact Hw.
Qed.

Lemma well_formed_new : well_formed new_bridge.
Proof.
  split; [|split; [|split; [|split]]].
  - intros r ws s H. unfold deref in H. simpl in H. rewrite ?lookup_nil in H.
    inversion H.
  - intros s sub id H. simpl in H. rewrite ?lookup_nil in H. discriminate.
  - intros s sub H. simpl in H. rewrite ?lookup_nil in H. discriminate.
  - intros id id' r H. discriminate.
  - intros id r H. discriminate.
Qed.

Lemma well_formed_run trace : forall w,
  well_formed w -> well_formed (run trace w).
Proof.
  induction trace as [|a rest IH]; intros w Hw; simpl; [exact Hw|].
  apply IH, well_formed_perform, Hw.
Qed.

Lemma reachable_well_formed w : reachable w -> well_formed w.
Proof. intros [trace ->]. apply well_formed_run, well_formed_new. Qed.

(** X20.  In a reachable state, the subscription that the matrix entry of a
    stream holds for a connection was made by a subscribe request of that
    connection for that stream: its observer sends to that connection,
    under that stream id, and cleans that very inner map. *)
Theorem matrix_entries_belong_to_their_pair w streamId streamSubs ws s :
  reachable w ->
  JsMap.get streamId (subscriptions w) = Some streamSubs ->
  JsMap.get ws (deref streamSubs w) = Some s ->
  exists sub, subs w !! s = Some sub /\
              obs_ws sub = ws /\ obs_streamId sub = streamId /\
              obs_streamSubs sub = streamSubs.
Proof.
  intros Hw Hsubs Hget. apply reachable_well_formed in Hw as (Ho & Hk & _).
  destruct (Ho streamSubs ws s (get_Some_elem _ _ _ Hget)) as (sub & Hs & E1 & E2).
  exists sub. repeat split; auto. apply (Hk s sub streamId Hs). congruence.
Qed.

Lemma matrix_entries_belong_to_their_pair_witness :
  exists sub, subs (subscribed_to ticker) !! 0 = Some sub /\
              obs_ws sub = 0 /\ obs_streamId sub = "s" /\
              obs_streamSubs sub = 0.
Proof.
  apply (matrix_entries_belong_to_their_pair (subscribed_to ticker) "s" 0 0 0).
  - exists [HandleConnection 0; RegisterStream ticker;
            HandleMessage 0 (subscribe_text "s")].
    reflexivity.
  - reflexivity.
  - reflexivity.
Defined.

(** *** Who may end a subscription *)

Lemma dropped_spares ws r w s sub :
  owned w -> subs w !! s = Some sub ->
  obs_ws sub <> ws \/ obs_streamSubs sub <> r ->
  subs (dropped ws r w) !! s = Some sub.
Proof.
  intros Ho Hs Hne. unfold dropped.
  destruct (JsMap.get ws (deref r w)) as [s0|] eqn:H0; [|exact Hs].
  assert (Hs0 : s0 <> s); [|destruct (unsubscribe_throws s0 w); simpl;
                             rewrite list_lookup_alter_ne by exact Hs0; exact Hs].
  intros ->. destruct (Ho r ws s (get_Some_elem _ _ _ H0)) as (sub' & Hs' & E1 & E2).
  rewrite Hs in Hs'. injection Hs' as <-. tauto.
Qed.

Lemma owned_cancels w w' : only_cancels w w' -> owned w -> owned w'.
Proof.
  intros (C1 & C2 & C3 & C4) Ho r ws s Hin.
  destruct (Ho r ws s (C3 _ _ Hin)) as (sub & Hs & E1 & E2).
  destruct (observer_lookup _ _ s sub (eq_sym C4) Hs) as (sub' & Hs' & E).
  exists sub'. injection E as F1 F2 F3. split; [exact Hs'|]. split; congruence.
Qed.

Lemma dropped_cancels ws r w : only_cancels w (dropped ws r w).
Proof.
  unfold dropped. destruct (JsMap.get ws (deref r w)); [|auto].
  destruct (unsubscribe_throws _ w); [apply only_cancels_close|].
  eapply only_cancels_trans; [apply (only_cancels_close w)|].
  apply (only_cancels_delete (with_subs _ w)).
Qed.

Lemma dropped_all_spares ws l : forall w s sub,
  owned w -> subs w !! s = Some sub -> obs_ws sub <> ws ->
  subs (dropped_all ws l w) !! s = Some sub.
Proof.
  induction l as [|[sid r] rest IH]; intros w s sub Ho Hs Hne; [exact Hs|].
  simpl. destruct (drop_throws ws r w); [apply dropped_spares; auto|].
  apply IH; [|apply dropped_spares; auto|exact Hne].
  eapply owned_cancels; [apply dropped_cancels | exact Ho].
Qed.

Lemma handleSubscribe_keeps_subs ws streamId w s sub :
  subs w !! s = Some sub ->
  subs (exec (handleSubscribe ws streamId) w) !! s = Some sub.
Proof.
  intros Hs.
  destruct (JsMap.get streamId (streams w)) as [config|] eqn:Hst.
  2:{ unfold exec, handleSubscribe. repeat mstep. rewrite Hst. exact Hs. }
  destruct (JsMap.get streamId (subscriptions w)) as [r|] eqn:Hsubs.
  2:{ unfold exec, handleSubscribe. repeat mstep. rewrite Hst, Hsubs. exact Hs. }
  destruct (JsMap.has ws (deref r w)) eqn:Hhas.
  { unfold exec. rewrite (duplicate_subscribe_is_noop _ _ _ _ Hsubs Hhas).
    exact Hs. }
  destruct (handleSubscribe_subscribed ws streamId w config r Hst Hsubs Hhas)
    as (F1 & F2 & [(_ & F3 & [F4|F4])|(_ & F3 & F4)]);
    rewrite F4; rewrite lookup_app_l;
    solve [exact Hs | eapply lookup_lt_Some, Hs].
Qed.

(** X21.  In a reachable state a live subscription stays live, and
    unchanged, through every action but these: the disconnection of its
    connection, the unregistration of its stream, an error or completion
    delivered to it, and a message handled for its connection. *)
Theorem live_subscription_survives a w s sub :
  reachable w -> subs w !! s = Some sub -> closed sub = false ->
  spares a s sub ->
  subs (exec (perform a) w) !! s = Some sub.
Proof.
  intros Hw Hs Hc Hsp. apply reachable_well_formed in Hw as (Ho & Hk & _).
  destruct a as [config|streamId|ws|ws|ws message|s' n|ws socket|t];
    simpl in *.
  - unfold exec. rewrite registerStream_eq. exact Hs.
  - unfold exec. rewrite unregisterStream_eq. simpl.
    assert (Hkeep : forall r, JsMap.get streamId (subscriptions w) = Some r ->
              close_all (unsubscribe_calls (JsMap.values (deref r w)) w)
                (subs w) !! s = Some sub);
      [|unfold unregistered;
        destruct (JsMap.get streamId (subscriptions w)) as [r|];
        destruct (unregister_throws streamId w); simpl;
        solve [exact Hs | apply (Hkeep r eq_refl)]].
    intros r Hsubs. rewrite lookup_close_all, Hs.
    destruct (decide (s ∈ unsubscribe_calls (JsMap.values (deref r w)) w))
      as [Hin|]; [|reflexivity].
    apply unsubscribe_calls_subset in Hin.
    exfalso. unfold JsMap.values in Hin.
    apply list_elem_of_fmap in Hin as ([ws s0] & E & Hin). simpl in E. subst s0.
    destruct (Ho r ws s Hin) as (sub' & Hs' & E1 & E2).
    rewrite Hs in Hs'. injection Hs' as <-.
    apply Hsp, (Hk s sub streamId Hs). congruence.
  - unfold exec. rewrite handleConnection_eq. exact Hs.
  - unfold exec. rewrite handleDisconnection_eq. simpl.
    apply dropped_all_spares; [exact Ho | exact Hs | exact Hsp].
  - destruct (handleMessage_cases ws message w) as [E|[[sid E]|[sid E]]];
      unfold exec at 1; rewrite E.
    + exact Hs.
    + apply handleSubscribe_keeps_subs, Hs.
    + simpl. unfold exec. rewrite handleUnsubscribe_eq.
      destruct (JsMap.get sid (subscriptions w)); [|exact Hs].
      apply dropped_spares; auto.
  - destruct (decide (s' = s)) as [->|Hne].
    + destruct Hsp as [Hsp|Hn]; [contradiction|].
      unfold exec. rewrite (Subscriber_notify_eq _ _ _ _ Hs), Hc.
      destruct n; [exact Hs | discriminate..].
    + destruct (subs w !! s') as [sub'|] eqn:Hs'.
      * unfold exec. rewrite (Subscriber_notify_eq _ _ _ _ Hs').
        destruct (closed sub'); [exact Hs|].
        destruct n as [value|[text|]|]; simpl; [exact Hs|..];
          rewrite list_lookup_alter_ne by exact Hne; exact Hs.
      * unfold exec, Subscriber_notify. repeat mstep. rewrite Hs'. exact Hs.
  - exact Hs.
  - exact Hs.
Qed.
Lemma live_subscription_survives_witness :
  subs (exec (perform (HandleDisconnection 1)) (subscribed_to ticker)) !! 0 =
    Some first_subscription.
Proof.
  apply (live_subscription_survives (HandleDisconnection 1)
           (subscribed_to ticker) 0 first_subscription).
  - exists [HandleConnection 0; RegisterStream ticker;
            HandleMessage 0 (subscribe_text "s")].
    reflexivity.
  - reflexivity.
  - reflexivity.
  - simpl. discriminate.
Defined.


(** ** Messages and requests *)

Lemma sends_server_frames_refl w : sends_server_frames w w.
Proof.
  exists []. split; [rewrite app_nil_r; reflexivity|]. intros f H. inversion H.
Qed.

Lemma sends_server_frames_trans a b c :
  sends_server_frames a b -> sends_server_frames b c -> sends_server_frames a c.
Proof.
  intros (l1 & E1 & H1) (l2 & E2 & H2). exists (l1 ++ l2). split.
  - rewrite E2, E1, app_assoc. reflexivity.
  - intros f Hin. apply elem_of_app in Hin as [Hin|Hin]; auto.
Qed.

#[local] Hint Resolve sends_server_frames_refl sends_server_frames_trans : core.

Lemma sendMessage_server ws message :
  is_server_frame message = true ->
  keeps sends_server_frames (sendMessage ws message).
Proof.
  intros Hm w. unfold exec. rewrite sendMessage_eq. simpl.
  exists (emit ws message w). split; [reflexivity|].
  unfold emit. destruct (sendable (sockets w ws)); intros f Hin.
  - apply list_elem_of_singleton in Hin. subst f. exact Hm.
  - inversion Hin.
Qed.

#[local] Hint Extern 1 (keeps sends_server_frames (sendMessage _ _)) =>
  apply sendMessage_server; reflexivity : keeps.

Ltac server_leaf :=
  exists []; split;
  [ simpl; rewrite app_nil_r; reflexivity
  | let H := fresh in intros ? H; inversion H ].

Lemma perform_server a : keeps sends_server_frames (perform a).
Proof. destruct a; simpl; repeat keeps_step server_leaf. Qed.

Lemma run_server trace : forall w, sends_server_frames w (run trace w).
Proof.
  induction trace as [|a rest IH]; intros w; simpl; [auto|].
  eapply sends_server_frames_trans; [apply perform_server | apply IH].
Qed.

(** X22.  Every frame the bridge has sent, in any reachable state, is of one
    of the five server types: the type guard [isServerMessage] accepts the
    object the bridge built for it and [isClientMessage] rejects it. *)
Theorem wire_carries_server_messages w c m :
  reachable w -> (c, m) ∈ wire w ->
  is_server_frame m = true /\
  isServerMessage (message_object m) = Normal true /\
  isClientMessage (message_object m) = Normal false.
Proof.
  intros [trace ->] Hin.
  destruct (run_server trace new_bridge) as (l & E & Hl).
  rewrite E in Hin. simpl in Hin. specialize (Hl _ Hin). simpl in Hl.
  destruct m; try discriminate; repeat split.
Qed.

Lemma wire_carries_server_messages_witness :
  isServerMessage (message_object catalog_s) = Normal true /\
  isClientMessage (message_object catalog_s) = Normal false.
Proof.
  apply (wire_carries_server_messages (subscribed_to ticker) 0 catalog_s).
  - exists [HandleConnection 0; RegisterStream ticker;
            HandleMessage 0 (subscribe_text "s")].
    reflexivity.
  - apply list_elem_of_In. vm_compute. right. left. reflexivity.
Defined.

(** *** Dispatch *)

Lemma handleMessage_parsed ws message w parsed :
  JSON_parse message = Normal parsed ->
  handleMessage ws message w =
  try_catch
    (is_client ← lift (isClientMessage parsed);
     if negb is_client then console_warn else handleClientMessage ws parsed)
    (fun error => console_error) w.
Proof.
  intros Hp. unfold handleMessage, try_catch. repeat mstep. rewrite Hp.
  reflexivity.
Qed.

Lemma never_throws_eq {A} (m : M A) h w :
  never_throws m -> try_catch m h w = m w.
Proof.
  intros Hn. destruct (Hn w) as [a Ha]. unfold result in Ha.
  unfold try_catch. destruct (m w) as [c w']. simpl in Ha. subst c. reflexivity.
Qed.

(** X23.  A message that parses to an object whose [streamId] is a string
    is dispatched on its [type]: [handleMessage] returns normally and
    leaves the state in which [handleSubscribe] (for ['subscribe']),
    respectively [handleUnsubscribe] (for ['unsubscribe']), leaves it for
    that connection and stream id, whether that method returns or
    throws. *)
Theorem handleMessage_dispatch ws message w parsed streamId :
  JSON_parse message = Normal parsed ->
  get_prop "streamId" parsed = Normal (JStr streamId) ->
  (get_prop "type" parsed = Normal (JStr "subscribe") ->
   handleMessage ws message w =
     (Normal tt, exec (handleSubscribe ws streamId) w)) /\
  (get_prop "type" parsed = Normal (JStr "unsubscribe") ->
   handleMessage ws message w =
     (Normal tt, exec (handleUnsubscribe ws streamId) w)).
Proof.
  intros Hp Hid. split; intros Hty; rewrite (handleMessage_parsed _ _ _ _ Hp);
    unfold try_catch, isClientMessage, handleClientMessage, with_streamId;
    repeat mstep; rewrite Hty; repeat mstep; simpl (negb _); cbv iota;
    repeat mstep; rewrite Hid; simpl (strict_eq_str _ _); cbv iota;
    repeat mstep; unfold exec.
  - destruct (handleSubscribe ws streamId w) as [[[]|e] w']; reflexivity.
  - destruct (handleUnsubscribe ws streamId w) as [[[]|e] w']; reflexivity.
Qed.

Lemma handleMessage_dispatch_witness :
  handleMessage 0 (subscribe_text "s") ticker_registered =
    (Normal tt, exec (handleSubscribe 0 "s") ticker_registered).
Proof.
  apply (proj1 (handleMessage_dispatch 0 (subscribe_text "s") ticker_registered
                  (JObj [("type", JStr "subscribe"); ("streamId", JStr "s");
                         ("timestamp", JNum "0")])
                  "s" eq_refl eq_refl)).
  reflexivity.
Defined.

(** X24.  In a reachable state, a message whose [streamId] is not a
    registered id (whatever its type) is ignored: [handleMessage] returns
    normally and changes nothing, the wire included. *)
Theorem message_for_unknown_stream_is_ignored ws message w :
  reachable w ->
  (forall parsed streamId,
     JSON_parse message = Normal parsed ->
     get_prop "streamId" parsed = Normal (JStr streamId) ->
     JsMap.get streamId (streams w) = None) ->
  handleMessage ws message w = (Normal tt, w).
Proof.
  intros Hw Hunknown. apply reachable_registry_ok in Hw.
  destruct (JSON_parse message) as [parsed|e] eqn:Hp.
  2:{ unfold handleMessage, try_catch. repeat mstep. rewrite Hp. reflexivity. }
  specialize (Hunknown parsed).
  rewrite (handleMessage_parsed _ _ _ _ Hp).
  unfold try_catch, isClientMessage. repeat mstep.
  destruct (get_prop "type" parsed) as [ty|e] eqn:Hty; repeat mstep;
    [|reflexivity].
  destruct (strict_eq_str ty "subscribe" || strict_eq_str ty "unsubscribe");
    simpl; [|reflexivity].
  unfold handleClientMessage, with_streamId. repeat mstep. rewrite Hty.
  repeat mstep.
  destruct (get_prop "streamId" parsed) as [sid|e] eqn:Hsid.
  2:{ destruct (strict_eq_str ty "subscribe"); repeat mstep; [reflexivity|].
      destruct (strict_eq_str ty "unsubscribe"); repeat mstep; reflexivity. }
  destruct (strict_eq_str ty "subscribe").
  - repeat mstep. destruct sid; try reflexivity.
    unfold handleSubscribe. repeat mstep.
    rewrite (Hunknown s eq_refl eq_refl). reflexivity.
  - destruct (strict_eq_str ty "unsubscribe"); [|reflexivity].
    repeat mstep. destruct sid; try reflexivity.
    rewrite handleUnsubscribe_eq.
    rewrite (registry_ok_unknown _ _ Hw (Hunknown s eq_refl eq_refl)).
    reflexivity.
Qed.

Lemma message_for_unknown_stream_is_ignored_witness :
  handleMessage 0 (subscribe_text "ghost") (subscribed_to ticker) =
    (Normal tt, subscribed_to ticker).
Proof.
  apply message_for_unknown_stream_is_ignored.
  - exists [HandleConnection 0; RegisterStream ticker;
            HandleMessage 0 (subscribe_text "s")].
    reflexivity.
  - intros parsed streamId Hp Hid. vm_compute in Hp. injection Hp as <-.
    vm_compute in Hid. injection Hid as <-. reflexivity.
Defined.

(** *** An accepted subscribe request *)

Lemma handleSubscribe_run ws streamId w config streamSubs :
  JsMap.get streamId (streams w) = Some config ->
  JsMap.get streamId (subscriptions w) = Some streamSubs ->
  JsMap.has ws (deref streamSubs w) = false ->
  let s := length (subs w) in
  let info := StreamInfoMessage streamId (name config) (description config)
                (clock w) in
  let w1 :=
    with_subs (subs w ++ [{| closed := false; obs_ws := ws;
                             obs_streamId := streamId;
                             obs_streamSubs := streamSubs;
                             throwing_teardown :=
                               teardown_throws (observable config) s |}])
      (with_wire (wire w ++ emit ws info w) w) in
  let w2 :=
    exec (forEach (on_subscribe (observable config) s) (Subscriber_notify s)) w1 in
  handleSubscribe ws streamId w =
    if existsb is_terminal (on_subscribe (observable config) s) &&
       subscribe_throws (observable config) s
    then (Throw "Error", w2)
    else (Normal tt, with_maps (alter (JsMap.set ws s) streamSubs (maps w2)) w2).
Proof.
  intros Hs Hsubs Hhas s info w1 w2.
  unfold handleSubscribe. repeat mstep.
  rewrite Hs, Hsubs, Hhas. unfold Date_now. repeat mstep.
  rewrite sendMessage_eq. unfold Observable_subscribe. repeat mstep.
  match goal with
  | |- context [forEach ?l ?f ?x] =>
      change (forEach l f x)
        with (forEach (on_subscribe (observable config) s) (Subscriber_notify s) w1)
  end.
  change (length (subs (with_wire (wire w ++ emit ws info w) w))) with s.
  assert (Hnew : subs w1 !! s = Some {| closed := false; obs_ws := ws;
                   obs_streamId := streamId; obs_streamSubs := streamSubs;
                   throwing_teardown :=
                     teardown_throws (observable config) s |}).
  { subst w1 s. simpl. apply list_lookup_middle. reflexivity. }
  pose proof (forEach_notify_closed s (on_subscribe (observable config) s)
                w1 _ Hnew) as Hc.
  pose proof (forEach_notify_unrecorded s (on_subscribe (observable config) s)
                w1 _ Hnew (has_false_get _ _ Hhas)) as (_ & _ & _ & F4).
  fold w2 in Hc, F4. simpl in Hc.
  assert (never_throws
            (forEach (on_subscribe (observable config) s) (Subscriber_notify s)))
    as Hnt.
  { apply nt_forEach. intros. apply nt_Subscriber_notify. }
  destruct (Hnt w1) as [[] Ha]. unfold result in Ha.
  subst w2. unfold exec in *.
  destruct (forEach (on_subscribe (observable config) s) (Subscriber_notify s) w1)
    as [c w2]. cbn [fst snd] in Ha, Hc, F4 |- *. subst c. repeat mstep.
  assert (Hm : exists made, subs w2 !! s = Some made) .
  { destruct F4 as [F4|F4]; rewrite F4; [eauto|].
    rewrite list_lookup_alter_eq, Hnew. simpl. eauto. }
  destruct Hm as [made Hm]. unfold is_closed in Hc.
  cbn [subs with_wire]. fold s. rewrite Hm in Hc |- *.
  rewrite Hc.
  destruct (existsb is_terminal (on_subscribe (observable config) s) &&
            subscribe_throws (observable config) s);
    unfold Map_set; repeat mstep; reflexivity.
Qed.

Lemma handleSubscribe_outcome ws streamId w config streamSubs :
  refs_valid w ->
  JsMap.get streamId (streams w) = Some config ->
  JsMap.get streamId (subscriptions w) = Some streamSubs ->
  JsMap.has ws (deref streamSubs w) = false ->
  let s := length (subs w) in
  let w' := exec (handleSubscribe ws streamId) w in
  streams w' = streams w /\ subscriptions w' = subscriptions w /\
  length (subs w') = S s /\
  is_closed s w' = existsb is_terminal (on_subscribe (observable config) s) /\
  if existsb is_terminal (on_subscribe (observable config) s) &&
     subscribe_throws (observable config) s
  then result (handleSubscribe ws streamId) w = Throw "Error" /\
       maps w' = maps w
  else result (handleSubscribe ws streamId) w = Normal tt /\
       maps w' = alter (JsMap.set ws s) streamSubs (maps w) /\
       deref streamSubs w' = JsMap.set ws s (deref streamSubs w).
Proof.
  intros Hv Hs Hsubs Hhas s w'.
  pose proof (handleSubscribe_run ws streamId w config streamSubs Hs Hsubs Hhas)
    as Hrun. simpl in Hrun. fold s in Hrun.
  set (w1 := with_subs _ _) in Hrun.
  assert (Hnew : subs w1 !! s = Some {| closed := false; obs_ws := ws;
                   obs_streamId := streamId; obs_streamSubs := streamSubs;
                   throwing_teardown :=
                     teardown_throws (observable config) s |}).
  { subst w1 s. simpl. apply list_lookup_middle. reflexivity. }
  pose proof (forEach_notify_closed s (on_subscribe (observable config) s)
                w1 _ Hnew) as Hc.
  pose proof (forEach_notify_unrecorded s (on_subscribe (observable config) s)
                w1 _ Hnew (has_false_get _ _ Hhas)) as (F1 & F2 & F3 & F4).
  simpl in Hc.
  set (w2 := exec _ w1) in *.
  assert (Hlen : length (subs w2) = S s).
  { destruct F4 as [F4|F4]; rewrite F4; rewrite ?length_alter; subst w1 s;
      simpl; rewrite length_app; simpl; lia. }
  destruct (lookup_lt_is_Some_2 _ _ (Hv _ _ Hsubs)) as [m Hm].
  assert (Hm' : deref streamSubs w = m) by (unfold deref; rewrite Hm; reflexivity).
  subst w'. unfold result, exec. rewrite Hrun.
  destruct (existsb is_terminal (on_subscribe (observable config) s) &&
            subscribe_throws (observable config) s); simpl.
  - rewrite F1, F2, F3. repeat split; auto.
  - rewrite F1, F2, F3. repeat split; auto.
    unfold deref. simpl.
    rewrite list_lookup_alter_eq, Hm. reflexivity.
Qed.

(** X25.  A subscribe request for a registered stream and a connection that
    the stream's matrix entry does not hold, in a reachable state.  One
    subscription is made, and it is closed exactly when the producer
    delivered an error or a completion inside [subscribe]; catalog and
    matrix entries stay.  When [subscribe] returns, the subscription is
    recorded for the connection (also when it is closed already) and the
    stream's count grows by one.  When [subscribe] throws (the producer
    ended inside it and returned a teardown that throws), line 180 is not
    reached: [handleSubscribe] throws, the inner maps are unchanged and so
    is the count. *)
Theorem handleSubscribe_effect ws streamId w config streamSubs :
  reachable w ->
  JsMap.get streamId (streams w) = Some config ->
  JsMap.get streamId (subscriptions w) = Some streamSubs ->
  JsMap.has ws (deref streamSubs w) = false ->
  let s := length (subs w) in
  let w' := exec (handleSubscribe ws streamId) w in
  streams w' = streams w /\ subscriptions w' = subscriptions w /\
  length (subs w') = S s /\
  is_closed s w' = existsb is_terminal (on_subscribe (observable config) s) /\
  if existsb is_terminal (on_subscribe (observable config) s) &&
     subscribe_throws (observable config) s
  then result (handleSubscribe ws streamId) w = Throw "Error" /\
       maps w' = maps w /\
       subscription_count streamId w' = subscription_count streamId w
  else result (handleSubscribe ws streamId) w = Normal tt /\
       JsMap.get ws (deref streamSubs w') = Some s /\
       subscription_count streamId w' =
         Normal (S (JsMap.size (deref streamSubs w))).
Proof.
  intros Hw Hs Hsubs Hhas s w'.
  apply reachable_well_formed in Hw as (_ & _ & _ & _ & Hv).
  destruct (handleSubscribe_outcome ws streamId w config streamSubs
              Hv Hs Hsubs Hhas) as (H1 & H2 & H3 & H4 & H5).
  fold s w' in H1, H2, H3, H4, H5.
  repeat (split; [assumption|]).
  destruct (existsb is_terminal (on_subscribe (observable config) s) &&
            subscribe_throws (observable config) s).
  - destruct H5 as [H5 H6]. repeat split; auto.
    unfold subscription_count, result, getSubscriptionCount. repeat mstep.
    rewrite H2, Hsubs. unfold deref. simpl. rewrite H6. reflexivity.
  - destruct H5 as (H5 & H6 & H7). repeat split; auto.
    + rewrite H7. apply get_set_eq.
    + unfold subscription_count, result, getSubscriptionCount. repeat mstep.
      rewrite H2, Hsubs. simpl. rewrite H7. f_equal.
      apply size_set_absent. apply has_false_get, Hhas.
Qed.

Lemma handleSubscribe_effect_witness :
  result (handleSubscribe 0 "s") before_subscribe = Normal tt /\
  subscription_count "s" (exec (handleSubscribe 0 "s") before_subscribe) =
    Normal 1.
Proof.
  assert (H : reachable before_subscribe).
  { exists [HandleConnection 0; RegisterStream just_one]. reflexivity. }
  pose proof (handleSubscribe_effect 0 "s" before_subscribe just_one 0 H
                eq_refl eq_refl eq_refl) as E.
  cbv zeta in E. destruct E as (_ & _ & _ & _ & E).
  change (existsb is_terminal
            (on_subscribe (observable just_one)
               (length (subs before_subscribe))) &&
          subscribe_throws (observable just_one)
            (length (subs before_subscribe))) with false in E.
  exact (conj (proj1 E) (proj2 (proj2 E))).
Defined.

Lemma delete_set_absent {K V} `{EqDecision K} (k : K) (v : V) m :
  JsMap.get k m = None -> JsMap.delete k (JsMap.set k v m) = m.
Proof.
  induction m as [|[k' v'] m IH]; simpl.
  - destruct (decide (k = k)); [reflexivity|contradiction].
  - destruct (decide (k' = k)) as [->|Hne]; [discriminate|]. intros H. simpl.
    destruct (decide (k' = k)); [contradiction|]. rewrite IH by exact H.
    reflexivity.
Qed.

(** X26.  An accepted subscribe request followed by an unsubscribe request
    of the same connection for the same stream, both returning normally:
    the subscription made is closed, the stream's inner map and count are
    what they were before the subscribe, catalog, matrix entries and
    connection set are unchanged, and the unsubscribe sends nothing. *)
Theorem subscribe_then_unsubscribe ws streamId w config streamSubs :
  reachable w ->
  JsMap.get streamId (streams w) = Some config ->
  JsMap.get streamId (subscriptions w) = Some streamSubs ->
  JsMap.has ws (deref streamSubs w) = false ->
  let w1 := exec (handleSubscribe ws streamId) w in
  let w2 := exec (handleUnsubscribe ws streamId) w1 in
  result (handleSubscribe ws streamId) w = Normal tt ->
  result (handleUnsubscribe ws streamId) w1 = Normal tt ->
  is_closed (length (subs w)) w2 = true /\
  deref streamSubs w2 = deref streamSubs w /\
  subscription_count streamId w2 = subscription_count streamId w /\
  streams w2 = streams w /\ subscriptions w2 = subscriptions w /\
  connections w2 = connections w /\ wire w2 = wire w1.
Proof.
  intros Hw Hs Hsubs Hhas w1 w2 Hr1 Hr2.
  pose proof (reachable_well_formed _ Hw) as (_ & _ & _ & _ & Hv).
  destruct (handleSubscribe_outcome ws streamId w config streamSubs
              Hv Hs Hsubs Hhas) as (F1 & F2 & _ & _ & H5).
  fold w1 in F1, F2, H5.
  destruct (existsb is_terminal (on_subscribe (observable config) (length (subs w)))
            && subscribe_throws (observable config) (length (subs w))).
  { destruct H5 as [H5 _]. rewrite H5 in Hr1. discriminate. }
  destruct H5 as (_ & F3 & H2).
  assert (H3 : JsMap.get ws (deref streamSubs w1) = Some (length (subs w))).
  { rewrite H2. apply get_set_eq. }
  assert (Hc1 : connections w1 = connections w).
  { assert (keeps same_connections (handleSubscribe ws streamId)) as Hk
      by (repeat keeps_step connections_leaf).
    apply Hk. }
  assert (Ht : drop_throws ws streamSubs w1 = false).
  { unfold result in Hr2. rewrite handleUnsubscribe_eq, F2, Hsubs in Hr2.
    simpl in Hr2. destruct (drop_throws ws streamSubs w1);
      [discriminate | reflexivity]. }
  assert (E : w2 = dropped ws streamSubs w1).
  { subst w2. unfold exec. rewrite handleUnsubscribe_eq, F2, Hsubs. reflexivity. }
  assert (Hd : deref streamSubs w2 = deref streamSubs w).
  { rewrite E. unfold drop_throws in Ht. unfold dropped. rewrite H3 in Ht |- *.
    rewrite Ht. erewrite deref_alter by reflexivity.
    destruct (decide (streamSubs = streamSubs)); [|contradiction].
    simpl.
    assert (Hlt : streamSubs < length (maps w1)).
    { rewrite F3, length_alter. apply (Hv _ _ Hsubs). }
    destruct (lookup_lt_is_Some_2 _ _ Hlt) as [m1 Hm1]. rewrite Hm1. simpl.
    assert (deref streamSubs w1 = m1) as Hm1'
      by (unfold deref; rewrite Hm1; reflexivity).
    rewrite <- Hm1', H2. apply delete_set_absent, has_false_get, Hhas. }
  destruct (dropped_frame ws streamSubs w1) as (D1 & D2 & D3 & D4).
  assert (Hsub2 : subscriptions w2 = subscriptions w).
  { rewrite E, D2. exact F2. }
  split; [|split; [exact Hd|split; [|split; [|split; [exact Hsub2|split]]]]].
  - rewrite E. apply is_closed_dropped. exact H3.
  - unfold subscription_count, result, getSubscriptionCount. repeat mstep.
    rewrite Hsub2, Hsubs. simpl. rewrite Hd. reflexivity.
  - rewrite E, D1. exact F1.
  - rewrite E, D3. exact Hc1.
  - rewrite E. exact D4.
Qed.
Lemma subscribe_then_unsubscribe_witness :
  subscription_count "s"
    (exec (handleUnsubscribe 0 "s")
       (exec (handleSubscribe 0 "s") ticker_registered)) =
  subscription_count "s" ticker_registered.
Proof.
  assert (H : reachable ticker_registered).
  { exists [HandleConnection 0; RegisterStream ticker]. reflexivity. }
  exact (proj1 (proj2 (proj2
           (subscribe_then_unsubscribe 0 "s" ticker_registered ticker 0 H
              eq_refl eq_refl eq_refl eq_refl eq_refl)))).
Defined.


(** ** The Cloudflare example *)

Lemma run_app t1 t2 w : run (t1 ++ t2) w = run t2 (run t1 w).
Proof. revert w. induction t1 as [|a t1 IH]; intros w; simpl; auto. Qed.

Lemma reachable_perform a w : reachable w -> reachable (exec (perform a) w).
Proof.
  intros [trace ->]. exists (trace ++ [a]). rewrite run_app. reflexivity.
Qed.

Lemma exec_bind_unit (m : M unit) (f : unit -> M unit) w :
  never_throws m -> exec (m ≫= f) w = exec (f tt) (exec m w).
Proof.
  intros Hn. destruct (Hn w) as [[] Ha]. unfold result in Ha.
  unfold exec. rewrite bind_unfold.
  destruct (m w) as [c w']. simpl in Ha. subst c. reflexivity.
Qed.

Lemma worker_bridge :
  bridge worker =
  run [RegisterStream
         {| streamId := "interval-1s"; name := "Interval (1s)";
            description := Some "Emits incrementing numbers every second";
            observable := timed |};
       RegisterStream
         {| streamId := "random"; name := "Random Numbers";
            description := Some "Emits random numbers between 0-100";
            observable := timed |};
       RegisterStream
         {| streamId := "merged"; name := "Merged Streams";
            description := Some "Two streams merged together";
            observable := timed |};
       RegisterStream
         {| streamId := "error-demo"; name := "Error Demo";
            description := Some "Emits values then errors";
            observable := timed |};
       RegisterStream
         {| streamId := "fibonacci"; name := "Fibonacci";
            description := Some "Fibonacci sequence";
            observable := timed |};
       RegisterStream
         {| streamId := "accelerating"; name := "Accelerating";
            description := Some "Emissions get faster over time";
            observable := timed |}] new_bridge.
Proof.
  unfold worker, registerExampleStreams. cbn [bridge run perform].
  rewrite !exec_bind_unit by apply nt_registerStream. reflexivity.
Qed.

Lemma handleSubscribe_connections ws streamId :
  keeps same_connections (handleSubscribe ws streamId).
Proof. repeat keeps_step connections_leaf. Qed.

Lemma bounded_mono n n' w : n <= n' -> bounded n w -> bounded n' w.
Proof.
  intros Hle [H1 H2]. split.
  - intros c Hc. specialize (H1 c Hc). lia.
  - intros r e He. specialize (H2 r e He). lia.
Qed.

Lemma bounded_cancels n w w' :
  only_cancels w w' ->
  (forall c, c ∈ connections w' -> c ∈ connections w) ->
  bounded n w -> bounded n w'.
Proof.
  intros (_ & _ & C3 & _) Hc [H1 H2]. split; [auto|].
  intros r e He. apply (H2 r e), C3, He.
Qed.

Lemma bounded_subscribe n ws streamId w :
  ws < n -> bounded n w -> bounded n (exec (handleSubscribe ws streamId) w).
Proof.
  intros Hws [H1 H2].
  pose proof (handleSubscribe_connections ws streamId w) as Hc.
  unfold same_connections in Hc.
  destruct (JsMap.get streamId (streams w)) as [config|] eqn:Hs.
  2:{ unfold exec, handleSubscribe. repeat mstep. rewrite Hs. split; auto. }
  destruct (JsMap.get streamId (subscriptions w)) as [r|] eqn:Hsubs.
  2:{ unfold exec, handleSubscribe. repeat mstep. rewrite Hs, Hsubs.
      split; auto. }
  destruct (JsMap.has ws (deref r w)) eqn:Hhas.
  { unfold exec. rewrite (duplicate_subscribe_is_noop _ _ _ _ Hsubs Hhas).
    split; auto. }
  destruct (handleSubscribe_subscribed ws streamId w config r Hs Hsubs Hhas)
    as (F1 & F2 & [(_ & F3 & _)|(_ & F3 & _)]).
  - split.
    + rewrite Hc. exact H1.
    + intros r' e. rewrite (deref_alter _ r _ _ w F3).
      destruct (decide (r' = r)) as [->|]; [|apply H2].
      destruct (maps w !! r) as [m|] eqn:Hm; simpl; [|intros H; inversion H].
      intros H. apply elem_of_set in H as [->|H]; [exact Hws|].
      apply (H2 r). unfold deref. rewrite Hm. exact H.
  - split.
    + rewrite Hc. exact H1.
    + intros r' e. unfold deref. rewrite F3. apply H2.
Qed.

Lemma handleUnsubscribe_connections ws streamId :
  keeps same_connections (handleUnsubscribe ws streamId).
Proof. repeat keeps_step connections_leaf. Qed.

Lemma bounded_message n ws message w :
  ws < n -> bounded n w -> bounded n (exec (handleMessage ws message) w).
Proof.
  intros Hws Hb.
  destruct (handleMessage_cases ws message w) as [E|[[sid E]|[sid E]]];
    unfold exec at 1; rewrite E.
  - exact Hb.
  - apply bounded_subscribe; assumption.
  - simpl. eapply bounded_cancels; [apply handleUnsubscribe_cancels | | exact Hb].
    intros c. pose proof (handleUnsubscribe_connections ws sid w) as Hc.
    unfold same_connections in Hc. rewrite Hc. auto.
Qed.

Lemma handleDisconnection_connections ws w :
  connections (exec (handleDisconnection ws) w) =
  JsSet.delete ws (connections w).
Proof. apply (perform_connections (HandleDisconnection ws)). Qed.

Lemma handleConnection_connections ws w :
  connections (exec (handleConnection ws) w) = JsSet.add ws (connections w).
Proof. apply (perform_connections (HandleConnection ws)). Qed.

Lemma steady_worker : steady worker.
Proof.
  split; [|split; [|reflexivity]].
  - rewrite worker_bridge. eexists. reflexivity.
  - rewrite worker_bridge. split.
    + intros c H. vm_compute in H. inversion H.
    + intros r e H. exfalso. revert H. unfold deref.
      do 7 (destruct r as [|r]; [vm_compute; intros H; inversion H|]).
      vm_compute. intros H; inversion H.
Qed.

Lemma steady_object socket k :
  steady k -> steady (snd (connection_object socket k)).
Proof.
  intros (Hr & Hb & Hs). split; [|split];
    cbn [connection_object snd bridge objects].
  - apply (reachable_perform (SocketBecomes (objects k) _) _ Hr).
  - eapply bounded_mono; [|exact Hb]. lia.
  - exact Hs.
Qed.

Lemma steady_handle e k : steady k -> steady (handle e k).
Proof.
  intros Hk. destruct e as [socket data|socket|socket|s n|ws throws|t];
    cbn [handle].
  - unfold on_message. destruct (JSON_parse data); [|exact Hk].
    pose proof (steady_object socket k Hk) as (Hr & Hb & Hs).
    cbn [connection_object snd bridge objects] in Hr, Hb, Hs |- *.
    split; [|split]; cbn [bridge objects].
    + apply (reachable_perform (HandleMessage (objects k) data) _ Hr).
    + apply bounded_message; [lia | exact Hb].
    + rewrite <- Hs. apply handleMessage_registry.
  - pose proof (steady_object socket k Hk) as (Hr & Hb & Hs).
    unfold on_open.
    cbn [connection_object snd bridge objects] in Hr, Hb, Hs |- *.
    split; [|split]; cbn [bridge objects].
    + apply (reachable_perform (HandleConnection (objects k)) _ Hr).
    + unfold exec. rewrite handleConnection_eq. destruct Hb as [H1 H2].
      split; [|exact H2]. cbn [snd connections with_wire with_connections].
      intros c Hc.
      apply JsSet_elem_of_add in Hc as [->|Hc]; [lia | auto].
    + rewrite <- Hs. apply handleConnection_registry.
  - pose proof (steady_object socket k Hk) as (Hr & Hb & Hs).
    unfold on_close.
    cbn [connection_object snd bridge objects] in Hr, Hb, Hs |- *.
    split; [|split]; cbn [bridge objects].
    + apply (reachable_perform (HandleDisconnection (objects k)) _ Hr).
    + eapply bounded_cancels; [apply handleDisconnection_cancels | | exact Hb].
      intros c. rewrite handleDisconnection_connections.
      rewrite JsSet_elem_of_delete. tauto.
    + rewrite <- Hs. apply handleDisconnection_registry.
  - destruct Hk as (Hr & Hb & Hs). split; [|split]; cbn [bridge objects].
    + apply (reachable_perform (ProducerNotifies s n) _ Hr).
    + eapply bounded_cancels; [apply Subscriber_notify_cancels | | exact Hb].
      intros c. rewrite (Subscriber_notify_connections s n). auto.
    + rewrite <- Hs. apply Subscriber_notify_registry.
  - destruct Hk as (Hr & Hb & Hs). split; [|split]; cbn [bridge objects].
    + apply (reachable_perform (SocketBecomes ws _) _ Hr).
    + exact Hb.
    + exact Hs.
  - destruct Hk as (Hr & Hb & Hs). split; [|split]; cbn [bridge objects].
    + apply (reachable_perform (ClockBecomes t) _ Hr).
    + exact Hb.
    + exact Hs.
Qed.

Lemma steady_serve events : forall k, steady k -> steady (serve events k).
Proof.
  induction events as [|e rest IH]; intros k Hk; simpl; [exact Hk|].
  apply IH, steady_handle, Hk.
Qed.

Lemma fresh_object_unknown k :
  bounded (objects k) (bridge k) ->
  (objects k ∉ connections (bridge k)) /\
  forall r, JsMap.get (objects k) (deref r (bridge k)) = None.
Proof.
  intros [H1 H2]. split.
  - intros H. specialize (H1 _ H). lia.
  - intros r. destruct (JsMap.get (objects k) (deref r (bridge k))) as [s|] eqn:E;
      [|reflexivity].
    apply get_Some_elem in E. specialize (H2 _ _ E). simpl in H2. lia.
Qed.

(** What a close event does to the bridge: nothing but naming a socket. *)
Lemma on_close_bridge socket k :
  bounded (objects k) (bridge k) ->
  handleDisconnection (objects k) (bridge (snd (connection_object socket k))) =
    (Normal tt, bridge (snd (connection_object socket k))).
Proof.
  intros Hb. destruct (fresh_object_unknown k Hb) as [Hc Hm].
  cbn [connection_object snd bridge].
  set (w := with_sockets _ (bridge k)).
  rewrite handleDisconnection_eq.
  change (connections w) with (connections (bridge k)).
  rewrite JsSet_delete_absent by exact Hc.
  assert (E : with_connections (connections (bridge k)) w = w) by reflexivity.
  rewrite E.
  destruct (dropped_all_absent (objects k) (subscriptions w) w) as [-> ->];
    [|reflexivity].
  intros [sid r] _. apply (Hm r).
Qed.

(** X27.  In the example, whatever has happened before, a close event
    releases nothing: the listener hands [handleDisconnection] an object
    made on the spot, which the bridge has never seen, so the connection
    set, the count of connections, the matrix, its inner maps and the
    subscriptions stay as they are, and nothing is sent. *)
Theorem example_close_releases_nothing events socket :
  let k := serve events worker in
  let w := bridge k in
  let w' := bridge (on_close socket k) in
  connections w' = connections w /\ streams w' = streams w /\
  subscriptions w' = subscriptions w /\ maps w' = maps w /\
  subs w' = subs w /\ wire w' = wire w /\
  result getConnectionCount w' = result getConnectionCount w.
Proof.
  simpl. pose proof (steady_serve events worker steady_worker) as (_ & Hb & _).
  set (k := serve events worker) in *.
  unfold on_close. cbn [connection_object bridge objects].
  pose proof (on_close_bridge socket k Hb) as E.
  cbn [connection_object bridge objects snd] in E.
  unfold exec. rewrite E. repeat split; reflexivity.
Qed.

(** the connections of the bridge after more events *)
Lemma serve_connections events : forall k,
  steady k ->
  JsSet.size (connections (bridge (serve events k))) =
  JsSet.size (connections (bridge k)) + opened events.
Proof.
  induction events as [|e rest IH]; intros k Hk; simpl; [lia|].
  rewrite (IH _ (steady_handle e k Hk)).
  destruct Hk as (Hr & Hb & Hs).
  destruct (fresh_object_unknown k Hb) as [Hc Hm].
  destruct e as [socket data|socket|socket|s n|ws throws|t]; simpl.
  - unfold on_message. destruct (JSON_parse data); [|reflexivity].
    cbn [connection_object bridge objects].
    rewrite (handleMessage_connections (objects k) data). reflexivity.
  - unfold on_open. cbn [connection_object bridge objects].
    rewrite handleConnection_connections.
    cbn [connections with_sockets]. rewrite JsSet_size_add.
    rewrite bool_decide_eq_false_2 by exact Hc. lia.
  - unfold on_close. cbn [connection_object bridge objects].
    rewrite handleDisconnection_connections.
    cbn [connections with_sockets].
    rewrite JsSet_delete_absent by exact Hc. reflexivity.
  - rewrite (Subscriber_notify_connections s n). reflexivity.
  - reflexivity.
  - reflexivity.
Qed.

Lemma worker_connections events :
  JsSet.size (connections (bridge (serve events worker))) = opened events.
Proof.
  rewrite (serve_connections events worker steady_worker).
  rewrite worker_bridge. reflexivity.
Qed.

(** X28.  In the example, [getConnectionCount()] is the number of open
    events so far: every open event adds a new object, and no close event
    takes one away. *)
Theorem example_connections_only_grow events :
  result getConnectionCount (bridge (serve events worker)) =
    Normal (opened events).
Proof.
  unfold result, getConnectionCount. repeat mstep. simpl. f_equal.
  apply worker_connections.
Qed.

(** a message of a new object ends no subscription *)
Lemma handleMessage_fresh_keeps_subs ws message w s sub :
  (forall r, JsMap.get ws (deref r w) = None) ->
  subs w !! s = Some sub ->
  subs (exec (handleMessage ws message) w) !! s = Some sub.
Proof.
  intros Hm Hs.
  destruct (handleMessage_cases ws message w) as [E|[[sid E]|[sid E]]];
    unfold exec at 1; rewrite E.
  - exact Hs.
  - apply handleSubscribe_keeps_subs, Hs.
  - simpl. unfold exec. rewrite handleUnsubscribe_eq.
    destruct (JsMap.get sid (subscriptions w)) as [r|]; [|exact Hs].
    simpl. unfold dropped. rewrite (Hm r). exact Hs.
Qed.

Lemma Subscriber_notify_spares s' n w s sub :
  subs w !! s = Some sub -> s' <> s \/ is_terminal n = false ->
  subs (exec (Subscriber_notify s' n) w) !! s = Some sub.
Proof.
  intros Hs Hsp. destruct (decide (s' = s)) as [->|Hne].
  - destruct Hsp as [Hsp|Hn]; [contradiction|].
    unfold exec. rewrite (Subscriber_notify_eq _ _ _ _ Hs).
    destruct (closed sub); [exact Hs|].
    destruct n; [exact Hs | discriminate..].
  - destruct (subs w !! s') as [sub'|] eqn:Hs'.
    + unfold exec. rewrite (Subscriber_notify_eq _ _ _ _ Hs').
      destruct (closed sub'); [exact Hs|].
      destruct n as [value|[text|]|]; simpl; [exact Hs|..];
        rewrite list_lookup_alter_ne by exact Hne; exact Hs.
    + unfold exec, Subscriber_notify. repeat mstep. rewrite Hs'. exact Hs.
Qed.

(** X29.  In the example a subscription is ended by nothing but an error
    or a completion of its producer: it stays as it is through every
    message event (an unsubscribe request included, since it comes with a
    new object), every open and close event, and every other
    notification. *)
Theorem example_only_producers_end_subscriptions events e s sub :
  let k := serve events worker in
  subs (bridge k) !! s = Some sub ->
  ends e s = false ->
  subs (bridge (handle e k)) !! s = Some sub.
Proof.
  simpl. intros Hs He.
  pose proof (steady_serve events worker steady_worker) as (_ & Hb & _).
  set (k := serve events worker) in *.
  destruct (fresh_object_unknown k Hb) as [Hc Hm].
  destruct e as [socket data|socket|socket|s' n|ws throws|t]; simpl.
  - unfold on_message. destruct (JSON_parse data); [|exact Hs].
    cbn [connection_object bridge objects].
    apply handleMessage_fresh_keeps_subs; [|exact Hs].
    intros r. apply (Hm r).
  - unfold on_open. cbn [connection_object bridge objects].
    unfold exec. rewrite handleConnection_eq. exact Hs.
  - unfold on_close. cbn [connection_object bridge objects].
    pose proof (on_close_bridge socket k Hb) as E.
    cbn [connection_object bridge objects snd] in E.
    unfold exec. rewrite E. exact Hs.
  - apply Subscriber_notify_spares; [exact Hs|].
    simpl in He. destruct (decide (s' = s)) as [->|Hne]; [|auto].
    rewrite bool_decide_eq_true_2 in He by reflexivity. auto.
  - exact Hs.
  - exact Hs.
Qed.

Lemma example_only_producers_end_subscriptions_witness :
  subs (bridge (handle (MessageEvent open_socket (unsubscribe_text "interval-1s"))
                  (serve one_client worker))) !! 0 =
    Some {| closed := false; obs_ws := 1; obs_streamId := "interval-1s";
            obs_streamSubs := 0; throwing_teardown := false |}.
Proof.
  apply (example_only_producers_end_subscriptions one_client
           (MessageEvent open_socket (unsubscribe_text "interval-1s")) 0).
  - reflexivity.
  - reflexivity.
Defined.

Lemma getSubscriptionCount_eq streamId w :
  getSubscriptionCount streamId w =
  (Normal match JsMap.get streamId (subscriptions w) with
          | Some streamSubs => JsMap.size (deref streamSubs w)
          | None => 0
          end,
   w).
Proof.
  unfold getSubscriptionCount. repeat mstep.
  destruct (JsMap.get streamId (subscriptions w)); reflexivity.
Qed.

(** [array.map] over a callback that reads the bridge *)
Lemma mapM_status w : forall entries : list (string * StreamConfig),
  mapM (fun '(streamId, config) =>
          count ← getSubscriptionCount streamId;
          mret {| status_streamId := streamId;
                  status_name := name config;
                  status_description := description config;
                  status_subscriptions := count |}) entries w =
  (Normal
     (map (fun '(streamId, config) =>
             {| status_streamId := streamId;
                status_name := name config;
                status_description := description config;
                status_subscriptions :=
                  match JsMap.get streamId (subscriptions w) with
                  | Some streamSubs => JsMap.size (deref streamSubs w)
                  | None => 0
                  end |}) entries),
   w).
Proof.
  induction entries as [|[sid config] rest IH]; [reflexivity|].
  cbn [mapM map]. rewrite bind_unfold, bind_unfold, getSubscriptionCount_eq.
  cbv beta iota. unfold mret at 1, M_ret at 1. cbv beta iota.
  rewrite bind_unfold, IH. reflexivity.
Qed.

(** X30.  In the example, whatever has happened before,
    [onStreamsApiGet] returns normally and changes nothing; it reports the
    six streams in the order of their registration, each with the count
    [getSubscriptionCount] gives for it, and as [connections] the number of
    open events so far. *)
Theorem example_api_reports events :
  let w := bridge (serve events worker) in
  exists statuses,
    onStreamsApiGet w = (Normal (statuses, opened events), w) /\
    map status_streamId statuses =
      ["interval-1s"; "random"; "merged"; "error-demo"; "fibonacci";
       "accelerating"] /\
    map status_name statuses =
      ["Interval (1s)"; "Random Numbers"; "Merged Streams"; "Error Demo";
       "Fibonacci"; "Accelerating"] /\
    forall status, status ∈ statuses ->
      Normal (status_subscriptions status) =
      subscription_count (status_streamId status) w.
Proof.
  simpl.
  pose proof (steady_serve events worker steady_worker) as (_ & _ & Hs).
  pose proof (worker_connections events) as Hc.
  set (w := bridge (serve events worker)) in *.
  eexists. split; [|split; [|split]].
  - unfold onStreamsApiGet, getStreams. repeat mstep.
    rewrite mapM_status. unfold getConnectionCount. repeat mstep.
    rewrite Hc. reflexivity.
  - rewrite Hs, worker_bridge. reflexivity.
  - rewrite Hs, worker_bridge. reflexivity.
  - intros status Hin. apply list_elem_of_fmap in Hin as ([sid config] & -> & _).
    simpl. unfold subscription_count, result, getSubscriptionCount.
    repeat mstep. destruct (JsMap.get sid (subscriptions w)); reflexivity.
Qed.

(** One client of the example: it connects, subscribes to the first
    stream, asks to unsubscribe and disconnects.  The bridge still counts
    one connection and one subscriber of the stream, and the subscription
    is still open. *)
Example example_client_leaves :
  let k := serve (one_client ++
                  [MessageEvent open_socket (unsubscribe_text "interval-1s");
                   CloseEvent {| readyState := 3; send_throws := false |}])
             worker in
  result getConnectionCount (bridge k) = Normal 1 /\
  subscription_count "interval-1s" (bridge k) = Normal 1 /\
  is_closed 0 (bridge k) = false /\
  objects k = 4.
Proof. vm_compute. repeat split. Qed.

(** ** Teardowns that throw *)

(** A teardown that throws.  Connection 0 is subscribed to the streams "s"
    and "t", and the teardown of its subscription to "s" throws.
    [unregisterStream("s")] throws at its [unsubscribe()]: the subscription
    is closed, but the stream stays registered and counted, and nothing is
    broadcast. *)
Example unregister_with_throwing_teardown :
  result (unregisterStream "s") subscribed_to_both =
    Throw "UnsubscriptionError" /\
  JsMap.keys (streams (exec (unregisterStream "s") subscribed_to_both)) =
    ["s"; "t"] /\
  subscription_count "s" (exec (unregisterStream "s") subscribed_to_both) =
    Normal 1 /\
  live_count "s" 0 (exec (unregisterStream "s") subscribed_to_both) = 0 /\
  wire (exec (unregisterStream "s") subscribed_to_both) =
    wire subscribed_to_both.
Proof. vm_compute. repeat split. Qed.

(** [handleDisconnection(0)] throws in the round of stream "s": the
    connection has left the set, but its entry for "s" stays, and the loop
    never reaches stream "t", whose subscription stays live and counted. *)
Example disconnection_with_throwing_teardown :
  result (handleDisconnection 0) subscribed_to_both =
    Throw "UnsubscriptionError" /\
  connections (exec (handleDisconnection 0) subscribed_to_both) = [] /\
  subscription_count "s" (exec (handleDisconnection 0) subscribed_to_both) =
    Normal 1 /\
  live_count "s" 0 (exec (handleDisconnection 0) subscribed_to_both) = 0 /\
  subscription_count "t" (exec (handleDisconnection 0) subscribed_to_both) =
    Normal 1 /\
  live_count "t" 0 (exec (handleDisconnection 0) subscribed_to_both) = 1.
Proof. vm_compute. repeat split. Qed.

(** An unsubscribe message for "s": [handleMessage] catches the exception,
    the subscription is closed, and the entry stays, so the stream goes on
    counting the connection. *)
Example unsubscribe_with_throwing_teardown :
  result (handleMessage 0 (unsubscribe_text "s")) subscribed_to_both =
    Normal tt /\
  result (handleUnsubscribe 0 "s") subscribed_to_both =
    Throw "UnsubscriptionError" /\
  subscription_count "s"
    (exec (handleMessage 0 (unsubscribe_text "s")) subscribed_to_both) =
    Normal 1 /\
  live_count "s" 0
    (exec (handleMessage 0 (unsubscribe_text "s")) subscribed_to_both) = 0.
Proof. vm_compute. repeat split. Qed.

(** A producer that ends inside [subscribe] and returns a teardown that
    throws.  [subscribe] throws after the frames were sent: the pair is
    never recorded, so the stream does not count the connection, and
    [handleMessage] catches the exception. *)
Example subscribe_with_throwing_teardown :
  result (handleSubscribe 0 "s")
    (run [HandleConnection 0; RegisterStream abrupt] new_bridge) =
    Throw "Error" /\
  result (handleMessage 0 (subscribe_text "s"))
    (run [HandleConnection 0; RegisterStream abrupt] new_bridge) =
    Normal tt /\
  sent_to 0 (subscribed_to abrupt) =
    [StreamsListMessage 0 []; catalog_s; StreamInfoMessage "s" "S" None 0;
     NextMessage "s" (JNum "1") 0; CompleteMessage "s" 0] /\
  live_count "s" 0 (subscribed_to abrupt) = 0 /\
  subscription_count "s" (subscribed_to abrupt) = Normal 0.
Proof. vm_compute. repeat split. Qed.
